(** * SX copy market maker: the order-copy pipeline

    A shallow embedding of the TypeScript sources of the bot
    (utils/validation.ts, utils/odds.ts, utils/stake.ts,
    services/RiskManager.ts, services/OrderCopyEngine.ts,
    services/OrderMonitor.ts, services/WebSocketClient.ts and the main
    module) together with the properties of the pipeline.

    Modelling conventions.
    - A decimal string that the code reads through [BigNumber.from] and
      writes through [toString] (stakes, odds) is the integer [Z] it
      denotes.  Strings the code compares as strings (hashes, [fillAmount],
      [pendingFillAmount]) stay strings; [getModificationList], which
      compares stakes and odds as strings, takes them as strings.
    - A JavaScript [number] is an exact rational [Q]; the rounding of
      IEEE doubles is not modelled.  A product of numbers is therefore
      exact here, where the code rounds it to a double ([percentage * 100],
      [amount * 10 ** decimals]): what is stated of such a product is
      stated of whole numbers, whose product is exact in doubles, or holds
      of every rounding that keeps the order.
    - A thrown exception is the [Throw] case of [Result]; the message of a
      fault of ethers is the reason it names.
    - A JavaScript [Map] whose iteration order the code depends on is an
      association list in insertion order; other maps and sets are stdpp's
      [gmap] and [gset].
    - Collaborators (signing, the exchange API, the market filter, the
      transport) are inputs: their answers are fields of an environment
      record, and the calls made to them are recorded in a trace. *)

From Stdlib Require Import ZArith QArith Qround Qabs Lia List Permutation Sorted.
From stdpp Require Import base decidable option list strings gmap pretty.

Local Open Scope string_scope.
Local Open Scope Z_scope.

(** ** Exceptions *)

Inductive Result (A : Type) : Type :=
| Ok (a : A)
| Throw (message : string).
Arguments Ok {A} a.
Arguments Throw {A} message.

#[global] Instance Result_ret : MRet Result := fun A a => Ok a.

#[global] Instance Result_bind : MBind Result := fun A B k r =>
  match r with
  | Ok a => k a
  | Throw m => Throw m
  end.

(** ** JavaScript numbers and ethers' BigNumber *)

Definition number : Type := Q.

Definition Math_round (x : number) : Z := Qfloor (x + (1 # 2))%Q.

Definition Math_abs (x : number) : number := Qabs x.

(** [a >= b], [a > b] and [a < b] on numbers. *)
Definition num_ge (a b : number) : bool := Qle_bool b a.
Definition num_gt (a b : number) : bool := negb (Qle_bool a b).
Definition num_lt (a b : number) : bool := negb (Qle_bool b a).

Definition MAX_SAFE : Z := 9007199254740991.

(** [BigNumber.from(value)] for a [number]: a fractional part is an
    "underflow" fault, a magnitude outside the safe integers an "overflow"
    fault. *)
Definition BigNumber_from_number (value : number) : Result Z :=
  if negb (Qnum value mod Zpos (Qden value) =? 0) then Throw "underflow"
  else
    let v := Qnum value / Zpos (Qden value) in
    if (v >=? MAX_SAFE) || (v <=? - MAX_SAFE) then Throw "overflow"
    else Ok v.

(** [a.mul(n)] with a [number] argument. *)
Definition BigNumber_mul_number (a : Z) (n : number) : Result Z :=
  b ← BigNumber_from_number n; Ok (a * b).

(** [a.div(b)]: truncating division, a fault on a zero divisor. *)
Definition BigNumber_div (a b : Z) : Result Z :=
  if b =? 0 then Throw "division-by-zero" else Ok (Z.quot a b).

(** [a.mod(b)]: a fault on a negative or zero modulus, otherwise the
    non-negative remainder. *)
Definition BigNumber_mod (a b : Z) : Result Z :=
  if (b <? 0) || (b =? 0) then Throw "division-by-zero" else Ok (a mod b).

(** ** config/constants.ts *)

Definition ODDS_PRECISION : Z := 20.
Definition DEFAULT_LADDER_STEP : number := 125%Q.
Definition DEFAULT_ORDER_EXPIRY : Z := 2209006800.
Definition DEFAULT_API_EXPIRY_OFFSET : Z := 24 * 60 * 60.
Definition WS_RECONNECT_DELAY : Z := 5 * 1000.
Definition MAX_WS_RECONNECT_ATTEMPTS : nat := 10.

(** ** utils/validation.ts *)

Definition isValidOdds (odds : Z) : bool :=
  let maxOdds := 10 ^ ODDS_PRECISION in
  (odds >=? 0) && (odds <=? maxOdds).

Definition ladderStep (stepSize : number) : Result Z :=
  BigNumber_mul_number (10 ^ 15) stepSize.

Definition isOnOddsLadder (odds : Z) (stepSize : number) : bool :=
  match (step ← ladderStep stepSize; BigNumber_mod odds step) with
  | Ok r => r =? 0
  | Throw _ => false
  end.

Definition roundOddsToLadder (odds : Z) (stepSize : number) : Result Z :=
  step ← ladderStep stepSize;
  q ← BigNumber_div odds step;
  Ok (q * step).

(** ** utils/odds.ts *)

Definition adjustOddsByPercentage (makerOdds : Z) (percentage : number)
    (ensureLadder : bool) (stepSize : number) : Result Z :=
  if negb (isValidOdds makerOdds) then Throw "Invalid maker odds"
  else
    let factorBps := 10000 + Math_round (percentage * 100)%Q in
    m ← BigNumber_mul_number makerOdds (inject_Z factorBps);
    adjusted ← BigNumber_div m 10000;
    result ← (if ensureLadder then roundOddsToLadder adjusted stepSize
              else Ok adjusted);
    if negb (isValidOdds result) then Throw "Adjusted odds out of valid range"
    else Ok result.

Definition adjustOddsBySteps (makerOdds : Z) (steps : number)
    (stepSize : number) : Result Z :=
  if negb (isValidOdds makerOdds) then Throw "Invalid maker odds"
  else
    stepValue ← ladderStep stepSize;
    adjustmentAmount ← BigNumber_mul_number stepValue (Math_abs steps);
    let adjusted :=
      if num_ge steps 0%Q then makerOdds + adjustmentAmount
      else makerOdds - adjustmentAmount in
    if adjusted <? 0 then Throw "Adjusted odds would be negative"
    else if negb (isValidOdds adjusted) then Throw "Adjusted odds out of valid range"
    else Ok adjusted.

(** ** utils/stake.ts *)

Definition adjustStakeByPercentage (originalStake : Z) (percentage : number)
    : Result Z :=
  if num_lt percentage 0%Q || num_gt percentage 1000%Q
  then Throw "Percentage must be between 0 and 1000"
  else
    let pctBps := Math_round (percentage * 100)%Q in
    m ← BigNumber_mul_number originalStake (inject_Z pctBps);
    BigNumber_div m 10000.

Record StakeValidation : Type := {
  valid : bool;
  reason : option string;
  clamped : option Z
}.

Definition validateStakeLimits (stake minStake maxStake : Z) : StakeValidation :=
  if stake <? minStake then
    {| valid := false;
       reason := Some ("Stake " +:+ pretty stake +:+ " is below minimum "
                       +:+ pretty minStake);
       clamped := Some minStake |}
  else if stake >? maxStake then
    {| valid := false;
       reason := Some ("Stake " +:+ pretty stake +:+ " exceeds maximum "
                       +:+ pretty maxStake);
       clamped := Some maxStake |}
  else {| valid := true; reason := None; clamped := None |}.

(** ** types/sx.ts, types/index.ts, types/config.ts *)

Record Order : Type := {
  orderHash : string;
  marketHash : string;
  fillAmount : string;
  pendingFillAmount : option string;
  totalBetSize : Z;
  percentageOdds : Z;
  expiry : Z;
  apiExpiry : Z;
  salt : string;
  isMakerBettingOutcomeOne : bool;
  signature : string;
  updateTime : option Z;
  sportXeventId : string
}.

Inductive OrderStatus : Type := ACTIVE | INACTIVE | FILLED.

(** [OrderUpdate extends Order]; the code splits it with
    [const { status, ...order } = update]. *)
Record OrderUpdate : Type := {
  status : OrderStatus;
  order : Order
}.

Record NewOrder : Type := {
  no_marketHash : string;
  no_maker : string;
  no_totalBetSize : Z;
  no_percentageOdds : Z;
  no_expiry : Z;
  no_apiExpiry : Z;
  no_baseToken : string;
  no_executor : string;
  no_salt : string;
  no_isMakerBettingOutcomeOne : bool
}.

Record SignedOrder : Type := {
  so_order : NewOrder;
  so_signature : string
}.

(** The [data] of an [OrderResponse]. *)
Record OrderResponse : Type := {
  orders : list string;
  statuses : list string;
  inserted : Z
}.

Record Metadata : Type := {
  executorAddress : string;
  oddsLadderStepSize : number
}.

Inductive OddsMethod : Type := odds_percentage | odds_fixed | odds_none.
Inductive StakeMethod : Type := stake_percentage | stake_fixed | stake_copy.

Record OddsAdjustmentConfig : Type := {
  odds_method : OddsMethod;
  odds_value : number;
  ensureLadderCompliance : bool
}.

Record StakeAdjustmentConfig : Type := {
  stake_method : StakeMethod;
  stake_value : number;
  minStake : Z;
  maxStake : Z
}.

Record CopyingConfig : Type := {
  enabled : bool;
  copyDelay : number;
  oddsAdjustment : OddsAdjustmentConfig;
  stakeAdjustment : StakeAdjustmentConfig;
  autoCancelOnSource : bool
}.

Record OrderModification : Type := {
  originalOrderHash : string;
  monitoredWallet : string;
  originalOdds : Z;
  adjustedOdds : Z;
  originalStake : Z;
  adjustedStake : Z;
  modifications : list string
}.

Record CopyResult : Type := {
  success : bool;
  cr_orderHash : option string;
  error : option string;
  originalOrder : Order;
  copiedOrder : option Order;
  cr_modifications : option OrderModification
}.

(** ** JavaScript [Map<string, V>] in insertion order *)

Section JsMap.
Context {V : Type}.

Fixpoint Map_get (k : string) (m : list (string * V)) : option V :=
  match m with
  | [] => None
  | (k', v) :: m' => if decide (k' = k) then Some v else Map_get k m'
  end.

(** [set] keeps the position of a key that is present and appends a new
    key at the end. *)
Fixpoint Map_set (k : string) (v : V) (m : list (string * V))
    : list (string * V) :=
  match m with
  | [] => [(k, v)]
  | (k', v') :: m' =>
      if decide (k' = k) then (k, v) :: m' else (k', v') :: Map_set k v m'
  end.

Fixpoint Map_delete (k : string) (m : list (string * V))
    : list (string * V) :=
  match m with
  | [] => []
  | (k', v') :: m' =>
      if decide (k' = k) then m' else (k', v') :: Map_delete k m'
  end.
End JsMap.

(** A string in a condition is true unless it is empty. *)
Definition truthy (s : string) : bool := negb (String.eqb s "").

(** ** services/RiskManager.ts *)

Record RiskManager : Type := {
  trackedOrders : gmap string Order;
  ordersByOriginal : list (string * string);
  originalOrderHistory : gset string
}.

Definition RiskManager_new : RiskManager :=
  {| trackedOrders := ∅; ordersByOriginal := []; originalOrderHistory := ∅ |}.

Definition recordOrderMapping (this : RiskManager) (order : Order)
    (originalOrderHash : string) : RiskManager :=
  let history := {[ originalOrderHash ]} ∪ originalOrderHistory this in
  let tracked := Map_get originalOrderHash (ordersByOriginal this) in
  if (match tracked with Some t => truthy t | None => false end) then
    {| trackedOrders := trackedOrders this;
       ordersByOriginal := ordersByOriginal this;
       originalOrderHistory := history |}
  else
    {| trackedOrders := trackedOrders this;
       ordersByOriginal :=
         Map_set originalOrderHash (orderHash order) (ordersByOriginal this);
       originalOrderHistory := history |}.

Definition recordOrder (this : RiskManager) (order : Order) : RiskManager :=
  {| trackedOrders := <[ orderHash order := order ]> (trackedOrders this);
     ordersByOriginal := ordersByOriginal this;
     originalOrderHistory := originalOrderHistory this |}.

(** The loop of [removeOrder] looks for the first entry, in insertion order,
    whose copied hash is [orderHash]. *)
Definition findOriginalOf (orderHash : string) (m : list (string * string))
    : option string :=
  fst <$> List.find (fun entry => bool_decide (entry.2 = orderHash)) m.

Definition removeOrder (this : RiskManager) (orderHash : string) : RiskManager :=
  match trackedOrders this !! orderHash with
  | None => this
  | Some _ =>
      {| trackedOrders := delete orderHash (trackedOrders this);
         ordersByOriginal :=
           match findOriginalOf orderHash (ordersByOriginal this) with
           | Some originalHash => Map_delete originalHash (ordersByOriginal this)
           | None => ordersByOriginal this
           end;
         originalOrderHistory := originalOrderHistory this |}
  end.

Definition isOrderCopied (this : RiskManager) (orderHash : string) : bool :=
  bool_decide (orderHash ∈ originalOrderHistory this).

Definition findCopiedOrder (this : RiskManager) (originalOrderHash : string)
    : option Order :=
  let copiedHash :=
    match Map_get originalOrderHash (ordersByOriginal this) with
    | Some h => if truthy h then h else ""
    | None => ""
    end in
  trackedOrders this !! copiedHash.

Definition clear (this : RiskManager) : RiskManager :=
  {| trackedOrders := ∅;
     ordersByOriginal := [];
     originalOrderHistory := originalOrderHistory this |}.

(** ** services/OrderCopyEngine.ts *)

Record OrderCopyEngine : Type := {
  config : CopyingConfig;
  metadata : option Metadata;
  ladderStepSize : number;
  baseToken : string
}.

(** What the collaborators answer during one [copyOrder]. *)
Record CopyEnv : Type := {
  getAddress : string;
  generateSalt : string;
  now_seconds : Z;
  signOrder : NewOrder -> Result string;
  postOrders : list SignedOrder -> Result OrderResponse
}.

(** The calls a handler makes to its collaborators. *)
Inductive Call : Type :=
| Sleep (ms : number)
| SignOrder (o : NewOrder)
| PostOrders (os : list SignedOrder)
| CancelOrders (orderHashes : list string).

Definition adjustOdds (this : OrderCopyEngine) (originalOdds : Z) : Result Z :=
  let method := odds_method (oddsAdjustment (config this)) in
  let value := odds_value (oddsAdjustment (config this)) in
  let ensureLadder := ensureLadderCompliance (oddsAdjustment (config this)) in
  adjustedOdds ←
    match method with
    | odds_percentage =>
        adjustOddsByPercentage originalOdds value ensureLadder (ladderStepSize this)
    | odds_fixed => adjustOddsBySteps originalOdds value (ladderStepSize this)
    | odds_none => Ok originalOdds
    end;
  if ensureLadder && negb (isOnOddsLadder adjustedOdds (ladderStepSize this))
  then roundOddsToLadder adjustedOdds (ladderStepSize this)
  else Ok adjustedOdds.

(** The [switch] of [adjustStake]: the stake the configured method gives,
    before the limits are applied. *)
Definition adjustStakeByMethod (this : OrderCopyEngine) (originalStake : Z)
    : Result Z :=
  let method := stake_method (stakeAdjustment (config this)) in
  let value := stake_value (stakeAdjustment (config this)) in
  match method with
  | stake_percentage => adjustStakeByPercentage originalStake value
  | stake_fixed => Ok (minStake (stakeAdjustment (config this)))
  | stake_copy => Ok originalStake
  end.

Definition adjustStake (this : OrderCopyEngine) (originalStake : Z) : Result Z :=
  adjustedStake ← adjustStakeByMethod this originalStake;
  let validation :=
    validateStakeLimits adjustedStake
      (minStake (stakeAdjustment (config this)))
      (maxStake (stakeAdjustment (config this))) in
  match valid validation, clamped validation with
  | false, Some c => Ok c
  | _, _ => Ok adjustedStake
  end.

(** What the limits of [adjustStake] make of the stake [s] of the method. *)
Definition clampStake (lo hi s : Z) : Z :=
  if s <? lo then lo else if s >? hi then hi else s.

(** [getModificationList] compares the odds and the stake of the two
    orders as the strings they are ([!==]): [originalOdds] and
    [originalStake] are [original.percentageOdds] and
    [original.totalBetSize]; [modifiedOdds], [modifiedStake] and
    [modifiedMaker] are the fields of [modified]. *)
Definition getModificationList (originalOdds originalStake : string)
    (modifiedOdds modifiedStake modifiedMaker : string)
    (monitoredWallet : string) : list string :=
  let oddsChange :=
    if decide (originalOdds = modifiedOdds) then []
    else ["Odds: " +:+ originalOdds +:+ " -> " +:+ modifiedOdds] in
  let stakeChange :=
    if decide (originalStake = modifiedStake) then []
    else ["Stake: " +:+ originalStake +:+ " -> " +:+ modifiedStake] in
  let makerChange :=
    if decide (monitoredWallet = modifiedMaker) then []
    else ["Maker: " +:+ monitoredWallet +:+ " -> " +:+ modifiedMaker] in
  let modifications := app oddsChange (app stakeChange makerChange) in
  match modifications with
  | [] => ["No modifications (exact copy)"]
  | _ => modifications
  end.

Definition copyFailure (error : option string) (originalOrder : Order)
    (mods : option OrderModification) : CopyResult :=
  {| success := false; cr_orderHash := None; error := error;
     originalOrder := originalOrder; copiedOrder := None;
     cr_modifications := mods |}.

(** The [newOrder] literal of [copyOrder]. *)
Definition makeNewOrder (this : OrderCopyEngine) (env : CopyEnv) (md : Metadata)
    (originalOrder : Order) (adjustedOdds adjustedStake : Z) : NewOrder :=
  {| no_marketHash := marketHash originalOrder;
     no_maker := getAddress env;
     no_totalBetSize := adjustedStake;
     no_percentageOdds := adjustedOdds;
     no_expiry := DEFAULT_ORDER_EXPIRY;
     no_apiExpiry := now_seconds env + DEFAULT_API_EXPIRY_OFFSET;
     no_baseToken := baseToken this;
     no_executor := executorAddress md;
     no_salt := generateSalt env;
     no_isMakerBettingOutcomeOne := isMakerBettingOutcomeOne originalOrder |}.

(** [copyOrder] returns its result and the calls it made.  The body of the
    [try] ends in the [catch] as soon as a step throws. *)
Definition copyOrder (this : OrderCopyEngine) (env : CopyEnv)
    (originalOrder : Order) (monitoredWallet : string)
    : CopyResult * list Call :=
  if negb (enabled (config this)) then
    (copyFailure (Some "Order copying is disabled") originalOrder None, [])
  else
  match metadata this with
  | None => (copyFailure (Some "Engine not initialized") originalOrder None, [])
  | Some md =>
  let delay :=
    if num_gt (copyDelay (config this)) 0%Q
    then [Sleep (copyDelay (config this))] else [] in
  match adjustOdds this (percentageOdds originalOrder) with
  | Throw m => (copyFailure (Some m) originalOrder None, delay)
  | Ok adjustedOdds =>
  match adjustStake this (totalBetSize originalOrder) with
  | Throw m => (copyFailure (Some m) originalOrder None, delay)
  | Ok adjustedStake =>
  let stakeValidation :=
    validateStakeLimits adjustedStake
      (minStake (stakeAdjustment (config this)))
      (maxStake (stakeAdjustment (config this))) in
  if negb (valid stakeValidation) then
    (copyFailure (reason stakeValidation) originalOrder None, delay)
  else
  let newOrder := makeNewOrder this env md originalOrder adjustedOdds adjustedStake in
  match signOrder env newOrder with
  | Throw m => (copyFailure (Some m) originalOrder None, app delay [SignOrder newOrder])
  | Ok signature =>
  let signedOrder := {| so_order := newOrder; so_signature := signature |} in
  let modifications :=
    {| originalOrderHash := orderHash originalOrder;
       monitoredWallet := monitoredWallet;
       originalOdds := percentageOdds originalOrder;
       adjustedOdds := adjustedOdds;
       originalStake := totalBetSize originalOrder;
       adjustedStake := adjustedStake;
       (* the decimal strings of an order are those [BigNumber.toString]
          writes *)
       modifications :=
         getModificationList
           (pretty (percentageOdds originalOrder))
           (pretty (totalBetSize originalOrder))
           (pretty (no_percentageOdds newOrder))
           (pretty (no_totalBetSize newOrder))
           (no_maker newOrder) monitoredWallet |} in
  let calls := app delay [SignOrder newOrder; PostOrders [signedOrder]] in
  match postOrders env [signedOrder] with
  | Throw m => (copyFailure (Some m) originalOrder None, calls)
  | Ok response =>
  if inserted response =? 0 then
    let status := default "undefined" (head (statuses response)) in
    (copyFailure (Some ("Order submission failed: " +:+ status))
       originalOrder (Some modifications), calls)
  else
    (* [orders[0]]; [None] is the [undefined] of an empty list.  In the
       copied order, whose hash is a string here, [undefined] is written
       as the empty string: the ledger tests this hash for truth only. *)
    let copiedOrderHash := head (orders response) in
    let copiedOrder :=
      {| orderHash := default "" copiedOrderHash;
         marketHash := no_marketHash newOrder;
         fillAmount := "0";
         pendingFillAmount := None;
         totalBetSize := no_totalBetSize newOrder;
         percentageOdds := no_percentageOdds newOrder;
         expiry := no_expiry newOrder;
         apiExpiry := no_apiExpiry newOrder;
         salt := no_salt newOrder;
         isMakerBettingOutcomeOne := no_isMakerBettingOutcomeOne newOrder;
         signature := signature;
         updateTime := None;
         sportXeventId := sportXeventId originalOrder |} in
    ({| success := true; cr_orderHash := copiedOrderHash; error := None;
        originalOrder := originalOrder; copiedOrder := Some copiedOrder;
        cr_modifications := Some modifications |}, calls)
  end end end end end.

(** ** services/OrderMonitor.ts *)

(** The events the monitor emits to its listeners. *)
Inductive MonitorEvent : Type :=
| orderDetected (order : Order) (monitoredWallet : string)
| ownOrderDetected (order : Order)
| orderCancelled (orderHash : string) (monitoredWallet : string)
| ownOrderCancelled (orderHash : string) (monitoredWallet : string)
| orderFilled (orderHash : string) (monitoredWallet : string)
| ownOrderFilled (orderHash : string) (monitoredWallet : string).

(** [handleNewOrder] stopped at [await this.applyFilters(order)]; it goes on
    when the filter result is there. *)
Inductive Suspended : Type :=
| AwaitFilters (order : Order) (monitoredWallet : string).

Record OrderMonitor : Type := {
  selfWalletAddress : string
}.

(** [Number(a.updateTime) - Number(b.updateTime)]; [None] is [NaN]. *)
Definition compareUpdateTime (a b : OrderUpdate) : option Z :=
  match updateTime (order a), updateTime (order b) with
  | Some ta, Some tb => Some (ta - tb)
  | _, _ => None
  end.

Definition timeOf (u : OrderUpdate) : option Z := updateTime (order u).

(** [a] is not later than [b], for updates that carry an update time. *)
Definition notLater (a b : OrderUpdate) : Prop :=
  match timeOf a, timeOf b with
  | Some ta, Some tb => ta <= tb
  | _, _ => True
  end.

(** [Array.prototype.sort(compareFn)] is stable: [a] is moved behind [b]
    only when [compareFn(a, b) > 0].  This is the order of the result for a
    comparator that answers a number for every pair; where it answers
    [NaN] ([None]) for some pair, the order is left to the engine, and the
    properties below are stated of batches without such a pair. *)
Section ArraySort.
Context {A : Type} (compareFn : A -> A -> option Z).

Definition sortsAfter (a b : A) : bool :=
  match compareFn a b with
  | Some d => 0 <? d
  | None => false
  end.

Fixpoint sortInsert (a : A) (l : list A) : list A :=
  match l with
  | [] => [a]
  | b :: l' => if sortsAfter a b then b :: sortInsert a l' else a :: b :: l'
  end.

Definition Array_sort (l : list A) : list A := foldr sortInsert [] l.
End ArraySort.

Definition handleOrderCancelled_monitor (this : OrderMonitor) (order : Order)
    (monitoredWallet : string) : list MonitorEvent :=
  let isOwnOrder := bool_decide (monitoredWallet = selfWalletAddress this) in
  if isOwnOrder then [ownOrderCancelled (orderHash order) monitoredWallet]
  else [orderCancelled (orderHash order) monitoredWallet].

Definition handleOrderFilled_monitor (this : OrderMonitor) (order : Order)
    (monitoredWallet : string) : list MonitorEvent :=
  let isOwnOrder := bool_decide (monitoredWallet = selfWalletAddress this) in
  if isOwnOrder then [ownOrderFilled (orderHash order) monitoredWallet]
  else [orderFilled (orderHash order) monitoredWallet].

(** [handleNewOrder] up to its [await]: the events emitted at once and the
    suspended rest, if any. *)
Definition handleNewOrder (this : OrderMonitor) (order : Order)
    (monitoredWallet : string) : list MonitorEvent * list Suspended :=
  if negb (bool_decide (pendingFillAmount order = Some "0")) then ([], [])
  else
    let isOwnOrder := bool_decide (monitoredWallet = selfWalletAddress this) in
    if isOwnOrder then ([ownOrderDetected order], [])
    else if negb (bool_decide (fillAmount order = "0")) then ([], [])
    else ([], [AwaitFilters order monitoredWallet]).

(** The rest of [handleNewOrder], once [applyFilters] has answered
    [passesFilters.passed]. *)
Definition handleNewOrder_resume (passed : bool) (s : Suspended)
    : list MonitorEvent :=
  match s with
  | AwaitFilters order monitoredWallet =>
      if negb passed then [] else [orderDetected order monitoredWallet]
  end.

Definition processOrderUpdate (this : OrderMonitor) (update : OrderUpdate)
    (monitoredWallet : string) : list MonitorEvent * list Suspended :=
  match status update with
  | INACTIVE => (handleOrderCancelled_monitor this (order update) monitoredWallet, [])
  | FILLED => (handleOrderFilled_monitor this (order update) monitoredWallet, [])
  | ACTIVE => handleNewOrder this (order update) monitoredWallet
  end.

(** The loop of [handleOrderMessage] over a list of updates; the promise of
    [processOrderUpdate] is not awaited, so each call runs to its first
    [await] and the loop goes on. *)
Fixpoint processAll (this : OrderMonitor) (updates : list OrderUpdate)
    (monitoredWallet : string) : list MonitorEvent * list Suspended :=
  match updates with
  | [] => ([], [])
  | update :: rest =>
      let '(events, suspended) := processOrderUpdate this update monitoredWallet in
      let '(events', suspended') := processAll this rest monitoredWallet in
      (app events events', app suspended suspended')
  end.

Definition handleOrderMessage (this : OrderMonitor) (updates : list OrderUpdate)
    (monitoredWallet : string) : list MonitorEvent * list Suspended :=
  processAll this (Array_sort compareUpdateTime updates) monitoredWallet.

(** All events of one message: those emitted while [handleOrderMessage]
    runs, then those of the suspended handlers once the call stack is
    empty, here in the order in which they were suspended.  That is their
    order when the filter stage takes equally long for each; a handler
    whose market is cached can be resumed before an earlier one that waits
    for the exchange.  [applyFilters] is the answer of the filter stage for
    an order. *)
Definition emittedForMessage (this : OrderMonitor) (applyFilters : Order -> bool)
    (updates : list OrderUpdate) (monitoredWallet : string) : list MonitorEvent :=
  let '(events, suspended) := handleOrderMessage this updates monitoredWallet in
  app events
    (flat_map (fun s => match s with
                        | AwaitFilters o _ => handleNewOrder_resume (applyFilters o) s
                        end) suspended).

(** ** services/WebSocketClient.ts *)

Inductive ConnectionState : Type :=
| disconnected | connecting | connected | reconnecting | failed.

Record WebSocketClient : Type := {
  client : bool;   (* [this.client !== null] *)
  reconnectInterval : Z;
  maxRetries : nat;
  reconnectAttempts : nat;
  connectionState : ConnectionState;
  subscribedChannels : list string   (* a [Set], in insertion order *)
}.

(** What a timer runs when it fires. *)
Inductive TimerCallback : Type :=
| RejectConnection   (* [reject(new Error("Connection timeout"))], in [connect] *)
| RunReconnect.      (* [this.reconnect()], in [handleReconnect] *)

(** What the client does: its notifications to the consumers, its calls
    on the channels of the transport, the closing of the transport client,
    and its timers. *)
Inductive WsCall : Type :=
| Emit (event : string)
| ChannelGet (channelName : string)          (* [channels.get(name, {params: {rewind}})] *)
| ChannelGetNoParams (channelName : string)  (* [channels.get(name)] *)
| ChannelSubscribe (channelName : string)
| ChannelUnsubscribe (channelName : string)
| ChannelDetach (channelName : string)
| ClientClose
| SetTimeout (callback : TimerCallback) (delay : Z)
| ClearTimeout.

Definition Set_add (x : string) (s : list string) : list string :=
  if bool_decide (x ∈ s) then s else app s [x].

Definition Set_delete (x : string) (s : list string) : list string :=
  filter (fun y => y ≠ x) s.

Definition ws_update (this : WebSocketClient) (c : bool) (attempts : nat)
    (st : ConnectionState) (chans : list string) : WebSocketClient :=
  {| client := c; reconnectInterval := reconnectInterval this;
     maxRetries := maxRetries this; reconnectAttempts := attempts;
     connectionState := st; subscribedChannels := chans |}.

Definition subscribe (this : WebSocketClient) (channelName : string)
    (handler : bool) : Result (WebSocketClient * list WsCall) :=
  if negb (client this) then Throw "WebSocket client not connected"
  else
    Ok (ws_update this (client this) (reconnectAttempts this)
          (connectionState this) (Set_add channelName (subscribedChannels this)),
        ChannelGet channelName
          :: (if handler then [ChannelSubscribe channelName] else [])).

(** The loop of [resubscribeChannels]; a failing [subscribe] is logged and
    the loop goes on. *)
Fixpoint resubscribeLoop (this : WebSocketClient) (channels : list string)
    : WebSocketClient * list WsCall :=
  match channels with
  | [] => (this, [])
  | channelName :: rest =>
      match subscribe this channelName false with
      | Ok (this', calls) =>
          let '(this'', calls') := resubscribeLoop this' rest in
          (this'', app calls calls')
      | Throw _ => resubscribeLoop this rest
      end
  end.

Definition resubscribeChannels (this : WebSocketClient)
    : WebSocketClient * list WsCall :=
  if negb (client this) || (length (subscribedChannels this) =? 0)%nat
  then (this, [])
  else
    let channels := subscribedChannels this in
    resubscribeLoop
      (ws_update this (client this) (reconnectAttempts this)
         (connectionState this) []) channels.

(** The listener of the transport's "connected" event that
    [setupConnectionHandlers] installs.  It does not await
    [resubscribeChannels]; the calls of that function come after the
    statements of the listener in any case. *)
Definition onConnected (this : WebSocketClient) : WebSocketClient * list WsCall :=
  let this1 := ws_update this (client this) (reconnectAttempts this) connected
                 (subscribedChannels this) in
  let emitted := [Emit "connected"] in
  let this2 := ws_update this1 (client this1) 0%nat (connectionState this1)
                 (subscribedChannels this1) in
  let '(this3, calls) := resubscribeChannels this2 in
  (this3, app emitted calls).

(** What the transport does after [new Ably.Realtime]: it reaches
    "connected", it reports "failed" with an error, or neither within 30
    seconds. *)
Inductive ConnectOutcome : Type :=
| TransportConnected
| TransportFailed (message : string)
| TransportTimeout.

(** [connect], when nothing else runs while it waits for the transport.
    The timer of 30000 ms is set on every attempt and cleared when the
    transport answers. *)
Definition connect (this : WebSocketClient) (outcome : ConnectOutcome)
    : Result unit * WebSocketClient * list WsCall :=
  if client this then (Ok tt, this, [])
  else
    match outcome with
    | TransportConnected =>
        (Ok tt,
         ws_update this true 0%nat connected (subscribedChannels this),
         [SetTimeout RejectConnection 30000; ClearTimeout; Emit "connected"])
    | TransportFailed message =>
        (Throw message,
         ws_update this true (reconnectAttempts this) failed
           (subscribedChannels this),
         [SetTimeout RejectConnection 30000; ClearTimeout])
    | TransportTimeout =>
        (Throw "Connection timeout",
         ws_update this true (reconnectAttempts this) failed
           (subscribedChannels this),
         [SetTimeout RejectConnection 30000])
    end.

(** [unsubscribe]; [detach] is what [await channel.detach()] comes to.  When
    it rejects, the channel stays registered and the rejection goes to the
    caller. *)
Definition unsubscribe (this : WebSocketClient) (channelName : string)
    (detach : Result unit) : Result unit * WebSocketClient * list WsCall :=
  if negb (client this) then (Ok tt, this, [])
  else
    let calls := [ChannelGetNoParams channelName; ChannelUnsubscribe channelName;
                  ChannelDetach channelName] in
    match detach with
    | Throw message => (Throw message, this, calls)
    | Ok _ =>
        (Ok tt,
         ws_update this (client this) (reconnectAttempts this)
           (connectionState this)
           (Set_delete channelName (subscribedChannels this)),
         calls)
    end.

(** The loop of [disconnect] over the channels registered when it
    starts; it ends at the first [unsubscribe] that throws. *)
Fixpoint unsubscribeAll (this : WebSocketClient) (channels : list string)
    (detach : string -> Result unit)
    : Result unit * WebSocketClient * list WsCall :=
  match channels with
  | [] => (Ok tt, this, [])
  | channelName :: rest =>
      match unsubscribe this channelName (detach channelName) with
      | (Throw message, this', calls) => (Throw message, this', calls)
      | (Ok _, this', calls) =>
          let '(result, this'', calls') := unsubscribeAll this' rest detach in
          (result, this'', app calls calls')
      end
  end.

Definition disconnect (this : WebSocketClient) (detach : string -> Result unit)
    : Result unit * WebSocketClient * list WsCall :=
  if negb (client this) then (Ok tt, this, [])
  else
    match unsubscribeAll this (subscribedChannels this) detach with
    | (Throw message, this', calls) => (Throw message, this', calls)
    | (Ok _, this', calls) =>
        (Ok tt,
         ws_update this' false (reconnectAttempts this') disconnected
           (subscribedChannels this'),
         app calls [ClientClose; Emit "disconnected"])
    end.

Definition handleReconnect (this : WebSocketClient) : WebSocketClient * list WsCall :=
  if (maxRetries this <=? reconnectAttempts this)%nat
  then (this, [Emit "maxRetriesReached"])
  else
    let attempts := S (reconnectAttempts this) in
    (ws_update this (client this) attempts reconnecting (subscribedChannels this),
     [SetTimeout RunReconnect
        (reconnectInterval this * Z.min (Z.of_nat attempts) 5)]).

(** ** The main module: SXMarketMakingBot *)

(** [handleOrderDetected] up to [await this.copyEngine.copyOrder(...)]:
    [None] when the order is skipped as already copied. *)
Definition handleOrderDetected_start (riskManager : RiskManager)
    (copyEngine : OrderCopyEngine) (env : CopyEnv) (order : Order)
    (monitoredWallet : string) : option (CopyResult * list Call) :=
  if isOrderCopied riskManager (orderHash order) then None
  else Some (copyOrder copyEngine env order monitoredWallet).

(** The rest of [handleOrderDetected], once the copy result is there. *)
Definition handleOrderDetected_finish (riskManager : RiskManager)
    (order : Order) (result : CopyResult) : RiskManager :=
  match success result, copiedOrder result, cr_modifications result with
  | true, Some copied, Some _ =>
      recordOrderMapping riskManager copied (orderHash order)
  | _, _, _ => riskManager
  end.

(** [handleOrderDetected] when nothing else runs during its [await]. *)
Definition handleOrderDetected (riskManager : RiskManager)
    (copyEngine : OrderCopyEngine) (env : CopyEnv) (order : Order)
    (monitoredWallet : string) : RiskManager * list Call :=
  match handleOrderDetected_start riskManager copyEngine env order monitoredWallet with
  | None => (riskManager, [])
  | Some (result, calls) =>
      (handleOrderDetected_finish riskManager order result, calls)
  end.

Definition handleOwnOrderDetected (riskManager : RiskManager) (order : Order)
    : RiskManager :=
  recordOrder riskManager order.

Definition handleOwnOrderFilled (riskManager : RiskManager) (orderHash : string)
    : RiskManager :=
  removeOrder riskManager orderHash.

Definition handleOwnOrderCancelled (riskManager : RiskManager) (orderHash : string)
    : RiskManager :=
  removeOrder riskManager orderHash.

(** [handleOrderCancelled]: the cancel requests sent to the exchange. *)
Definition handleOrderCancelled (riskManager : RiskManager)
    (copyEngine : OrderCopyEngine) (orderHash' : string)
    (monitoredWallet : string) : list Call :=
  if negb (autoCancelOnSource (config copyEngine)) then []
  else
    match findCopiedOrder riskManager orderHash' with
    | None => []
    | Some copiedOrder => [CancelOrders [orderHash copiedOrder]]
    end.

Definition handleOrderFilled (riskManager : RiskManager)
    (copyEngine : OrderCopyEngine) (orderHash : string)
    (monitoredWallet : string) : list Call :=
  handleOrderCancelled riskManager copyEngine orderHash monitoredWallet.

(** *** The bot under the event loop

    A handler runs without interruption up to its next [await].  A copy
    whose [copyOrder] promise is still pending sits in [inFlight]; its
    handler goes on at a later [CopySettled] step, and any other step may
    run in between.  [callLog] holds the calls of each copy together, in
    the order in which the copies were started; the calls of copies that
    run at the same time are interleaved in the code. *)
Record BotState : Type := {
  riskManager : RiskManager;
  inFlight : list (Order * CopyResult);
  derivedCreated : list (string * Order);   (* source hash, derived order *)
  callLog : list Call
}.

Inductive Step : Type :=
| Deliver (event : MonitorEvent) (env : CopyEnv)
| CopySettled (n : nat).

Definition BotState_init : BotState :=
  {| riskManager := RiskManager_new; inFlight := [];
     derivedCreated := []; callLog := [] |}.

Definition step (copyEngine : OrderCopyEngine) (st : BotState) (s : Step)
    : BotState :=
  match s with
  | Deliver (orderDetected order monitoredWallet) env =>
      match handleOrderDetected_start (riskManager st) copyEngine env order
              monitoredWallet with
      | None => st
      | Some (result, calls) =>
          {| riskManager := riskManager st;
             inFlight := app (inFlight st) [(order, result)];
             derivedCreated :=
               app (derivedCreated st)
                 (match success result, copiedOrder result with
                  | true, Some copied => [(orderHash order, copied)]
                  | _, _ => []
                  end);
             callLog := app (callLog st) calls |}
      end
  | Deliver (ownOrderDetected order) _ =>
      {| riskManager := handleOwnOrderDetected (riskManager st) order;
         inFlight := inFlight st; derivedCreated := derivedCreated st;
         callLog := callLog st |}
  | Deliver (orderCancelled h w) _ =>
      {| riskManager := riskManager st;
         inFlight := inFlight st; derivedCreated := derivedCreated st;
         callLog := app (callLog st)
                      (handleOrderCancelled (riskManager st) copyEngine h w) |}
  | Deliver (orderFilled h w) _ =>
      {| riskManager := riskManager st;
         inFlight := inFlight st; derivedCreated := derivedCreated st;
         callLog := app (callLog st)
                      (handleOrderFilled (riskManager st) copyEngine h w) |}
  | Deliver (ownOrderCancelled h _) _ =>
      {| riskManager := handleOwnOrderCancelled (riskManager st) h;
         inFlight := inFlight st; derivedCreated := derivedCreated st;
         callLog := callLog st |}
  | Deliver (ownOrderFilled h _) _ =>
      {| riskManager := handleOwnOrderFilled (riskManager st) h;
         inFlight := inFlight st; derivedCreated := derivedCreated st;
         callLog := callLog st |}
  | CopySettled n =>
      match inFlight st !! n with
      | None => st
      | Some (order, result) =>
          {| riskManager :=
               handleOrderDetected_finish (riskManager st) order result;
             inFlight := delete n (inFlight st);
             derivedCreated := derivedCreated st;
             callLog := callLog st |}
      end
  end.

Definition run (copyEngine : OrderCopyEngine) (st : BotState)
    (schedule : list Step) : BotState :=
  foldl (step copyEngine) st schedule.

(** The schedule in which every handler finishes before the next event is
    delivered. *)
Definition oneAtATime (deliveries : list (MonitorEvent * CopyEnv)) : list Step :=
  flat_map (fun d => [Deliver d.1 d.2; CopySettled 0]) deliveries.

(** How many derived orders were created for a source hash. *)
Definition copiesOf (h : string) (st : BotState) : nat :=
  length (filter (fun p => p.1 = h) (derivedCreated st)).

(** What holds between two deliveries when handlers run one at a time:
    nothing is in flight, and a source hash with a derived order is in the
    history of copied originals. *)
Definition OneAtATimeInv (st : BotState) : Prop :=
  inFlight st = []
  /\ forall h, (copiesOf h st <= 1)%nat
               /\ ((copiesOf h st = 1)%nat ->
                   h ∈ originalOrderHistory (riskManager st)).

(** *** The public mutators of the ledger *)

Inductive LedgerOp : Type :=
| OpRecordOrderMapping (order : Order) (originalOrderHash : string)
| OpRecordOrder (order : Order)
| OpRemoveOrder (orderHash : string)
| OpClear.

Definition applyOp (this : RiskManager) (op : LedgerOp) : RiskManager :=
  match op with
  | OpRecordOrderMapping order originalOrderHash =>
      recordOrderMapping this order originalOrderHash
  | OpRecordOrder order => recordOrder this order
  | OpRemoveOrder orderHash => removeOrder this orderHash
  | OpClear => clear this
  end.

(** ** Scenarios *)

Definition sampleOrderAt (hash : string) (stake : Z) (time : Z) : Order :=
  {| orderHash := hash;
     marketHash := "0xmarket";
     fillAmount := "0";
     pendingFillAmount := Some "0";
     totalBetSize := stake;
     percentageOdds := 50000000000000000000;
     expiry := DEFAULT_ORDER_EXPIRY;
     apiExpiry := 1700000000;
     salt := "1";
     isMakerBettingOutcomeOne := true;
     signature := "0xsig";
     updateTime := Some time;
     sportXeventId := "L1" |}.

Definition sampleOrder (hash : string) (stake : Z) : Order :=
  sampleOrderAt hash stake 1.

Definition sampleMonitor : OrderMonitor := {| selfWalletAddress := "0xbot" |}.

Definition sampleClient (channels : list string) : WebSocketClient :=
  {| client := true; reconnectInterval := WS_RECONNECT_DELAY;
     maxRetries := MAX_WS_RECONNECT_ATTEMPTS; reconnectAttempts := 1;
     connectionState := disconnected; subscribedChannels := channels |}.

Definition sampleConfig : CopyingConfig :=
  {| enabled := true;
     copyDelay := 0%Q;
     oddsAdjustment :=
       {| odds_method := odds_none; odds_value := 0%Q;
          ensureLadderCompliance := false |};
     stakeAdjustment :=
       {| stake_method := stake_copy; stake_value := 100%Q;
          minStake := 10000000; maxStake := 50000000 |};
     autoCancelOnSource := true |}.

Definition sampleEngine : OrderCopyEngine :=
  {| config := sampleConfig;
     metadata := Some {| executorAddress := "0xexecutor";
                         oddsLadderStepSize := 125%Q |};
     ladderStepSize := 125%Q;
     baseToken := "0xusdc" |}.

Definition disabledEngine : OrderCopyEngine :=
  {| config :=
       {| enabled := false;
          copyDelay := copyDelay sampleConfig;
          oddsAdjustment := oddsAdjustment sampleConfig;
          stakeAdjustment := stakeAdjustment sampleConfig;
          autoCancelOnSource := autoCancelOnSource sampleConfig |};
     metadata := metadata sampleEngine;
     ladderStepSize := ladderStepSize sampleEngine;
     baseToken := baseToken sampleEngine |}.

(** An exchange that accepts every order and answers with the hash
    [copyHash]. *)
Definition acceptingEnv (copyHash : string) : CopyEnv :=
  {| getAddress := "0xbot";
     generateSalt := "42";
     now_seconds := 1700000000;
     signOrder := fun _ => Ok "0xsigned";
     postOrders := fun _ =>
       Ok {| orders := [copyHash]; statuses := ["OK"]; inserted := 1 |} |}.

(** * Further parts of the sources *)

(** ** utils/odds.ts and utils/stake.ts, continued *)

Definition Math_floor (x : number) : Z := Qfloor x.

(** [toWei]: [BigNumber.from(Math.floor(amount * 10 ** decimals))], with
    the exact product. *)
Definition toWei (amount : number) (decimals : Z) : Result Z :=
  BigNumber_from_number
    (inject_Z (Math_floor (amount * Qpower (inject_Z 10) decimals)%Q)).

Definition getTakerOdds (makerOdds : Z) : Z :=
  let precision := 10 ^ ODDS_PRECISION in
  precision - makerOdds.

(** ** services/OrderCopyEngine.ts, continued *)

(** [initialize], given the answer of [apiClient.getMetadata()].  The
    fields are assigned before the step size is checked.  [showNumber] is
    the rendering of a number in a template string. *)
Definition initialize (showNumber : number -> string) (this : OrderCopyEngine)
    (getMetadata : Result Metadata) : Result unit * OrderCopyEngine :=
  match getMetadata with
  | Throw m => (Throw m, this)
  | Ok md =>
      let this' :=
        {| config := config this;
           metadata := Some md;
           ladderStepSize := oddsLadderStepSize md;
           baseToken := baseToken this |} in
      if num_lt (ladderStepSize this') 0%Q || num_gt (ladderStepSize this') 200%Q
      then (Throw ("Ladder step size has suspicious value: "
                   +:+ showNumber (ladderStepSize this')
                   +:+ ". Double check metadata"), this')
      else (Ok tt, this')
  end.

Definition isSignOrder (c : Call) : bool :=
  match c with SignOrder _ => true | _ => false end.

Definition isPostOrders (c : Call) : bool :=
  match c with PostOrders _ => true | _ => false end.

(** ** services/OrderMonitor.ts, continued: the filters *)

(** The fields of a [Market] that the monitor reads. *)
#[warnings="-register-all"] Inductive Market : Type := Build_Market {
  m_marketHash : string;
  m_type : Z;
  m_gameTime : Z;
  m_sportId : Z;
  m_leagueId : Z;
  m_legs : option (list Market)
}.

Record OrderFilters : Type := {
  sports : option (list Z);
  marketTypes : option (list Z);
  leagues : option (list Z);
  minOdds : option string;
  maxOdds : option string;
  excludeParlay : option bool;
  excludeLive : option bool
}.

(** [list && list.length > 0] *)
Definition hasEntries {A : Type} (l : option (list A)) : bool :=
  match l with
  | Some (_ :: _) => true
  | _ => false
  end.

(** [list.includes(x)] for a list that is there. *)
Definition includesId (l : option (list Z)) (x : Z) : bool :=
  bool_decide (x ∈ default [] l).

(** An optional flag or string in a condition. *)
Definition flagSet (b : option bool) : bool := default false b.
Definition stringSet (s : option string) : bool :=
  match s with
  | Some s => truthy s
  | None => false
  end.

(** [getMarket] up to [await this.apiClient.getMarkets([marketHash])]:
    the cached market, or the request it waits for. *)
Inductive MarketLookup : Type :=
| CacheHit (cached : Market)
| AwaitMarkets (marketHashes : list string).

Definition getMarket_start (marketCache : gmap string Market)
    (marketHash : string) : MarketLookup :=
  match marketCache !! marketHash with
  | Some cached => CacheHit cached
  | None => AwaitMarkets [marketHash]
  end.

(** The rest of [getMarket], once the request is answered: the market it
    returns and the cache it leaves.  [marketCache] is the cache at that
    time; other lookups may have written to it since the request was
    sent. *)
Definition getMarket_finish (marketCache : gmap string Market)
    (marketHash : string) (markets : Result (list Market))
    : option Market * gmap string Market :=
  match markets with
  | Ok (market :: _) => (Some market, <[ marketHash := market ]> marketCache)
  | Ok [] => (None, marketCache)
  | Throw _ => (None, marketCache)
  end.

(** [getMarket] when nothing else runs during its [await]: the market, the
    cache afterwards and the lists of hashes asked of
    [apiClient.getMarkets]. *)
Definition getMarket (marketCache : gmap string Market)
    (getMarkets : list string -> Result (list Market)) (marketHash : string)
    : option Market * gmap string Market * list (list string) :=
  match getMarket_start marketCache marketHash with
  | CacheHit cached => (Some cached, marketCache, [])
  | AwaitMarkets marketHashes =>
      let '(market, marketCache') :=
        getMarket_finish marketCache marketHash (getMarkets marketHashes) in
      (market, marketCache', [marketHashes])
  end.

(** [applyFilters] after [getMarket] has answered [market].  The comparison
    of the odds with [minOdds] and [maxOdds] is done in floating point; its
    answer [filterByOdds] is an input.  [now] is [Date.now()]. *)
Definition applyFilters (filters : OrderFilters)
    (filterByOdds : Order -> bool * option string) (now : Z)
    (market : option Market) (order : Order) : bool * option string :=
  match market with
  | None => (false, Some "Market not found")
  | Some market =>
      if hasEntries (sports filters)
         && negb (includesId (sports filters) (m_sportId market))
      then (false, Some ("Sport " +:+ pretty (m_sportId market)
                         +:+ " not in allowed list"))
      else if hasEntries (marketTypes filters)
              && negb (includesId (marketTypes filters) (m_type market))
      then (false, Some ("Market type " +:+ pretty (m_type market)
                         +:+ " not in allowed list"))
      else if hasEntries (leagues filters)
              && negb (includesId (leagues filters) (m_leagueId market))
      then (false, Some ("League " +:+ pretty (m_leagueId market)
                         +:+ " not in allowed list"))
      else if flagSet (excludeParlay filters) && hasEntries (m_legs market)
      then (false, Some "Parlay markets excluded")
      else if flagSet (excludeLive filters) && (m_gameTime market * 1000 <? now)
      then (false, Some "Live markets excluded")
      else if stringSet (minOdds filters) || stringSet (maxOdds filters)
      then
        let '(passed, reason) := filterByOdds order in
        if negb passed then (false, reason) else (true, None)
      else (true, None)
  end.

(** An id passes an inclusion list that is absent or empty, or that holds
    it. *)
Definition allowedBy (l : option (list Z)) (x : Z) : Prop :=
  hasEntries l = false \/ x ∈ default [] l.

(** ** services/WebSocketClient.ts, continued *)

Definition isConnected (this : WebSocketClient) : bool :=
  match connectionState this with
  | connected => client this
  | _ => false
  end.

(** The listener of the transport's "failed" event. *)
Definition onFailed (this : WebSocketClient) : WebSocketClient * list WsCall :=
  let this1 := ws_update this (client this) (reconnectAttempts this) failed
                 (subscribedChannels this) in
  let '(this2, calls) := handleReconnect this1 in
  (this2, Emit "error" :: calls).

(** The listeners of "disconnected", "suspended" and "closed". *)
Definition onDisconnected (this : WebSocketClient) : WebSocketClient * list WsCall :=
  (ws_update this (client this) (reconnectAttempts this) disconnected
     (subscribedChannels this),
   [Emit "disconnected"]).

(** [reconnect], what the timer of [handleReconnect] runs: [disconnect],
    then [connect]; when either throws, [handleReconnect]. *)
Definition reconnect (this : WebSocketClient) (detach : string -> Result unit)
    (outcome : ConnectOutcome) : WebSocketClient * list WsCall :=
  match disconnect this detach with
  | (Throw _, this1, calls1) =>
      let '(this2, calls2) := handleReconnect this1 in
      (this2, app calls1 calls2)
  | (Ok _, this1, calls1) =>
      match connect this1 outcome with
      | (Ok _, this2, calls2) => (this2, app calls1 calls2)
      | (Throw _, this2, calls2) =>
          let '(this3, calls3) := handleReconnect this2 in
          (this3, app calls1 (app calls2 calls3))
      end
  end.

(** Reconnect timers fire one after the other; [attempts] is what the
    transport does at each. *)
Fixpoint reconnects (attempts : list ((string -> Result unit) * ConnectOutcome))
    (this : WebSocketClient) : WebSocketClient * list WsCall :=
  match attempts with
  | [] => (this, [])
  | (detach, outcome) :: rest =>
      let '(this1, calls1) := reconnect this detach outcome in
      let '(this2, calls2) := reconnects rest this1 in
      (this2, app calls1 calls2)
  end.

Definition isReconnectTimer (c : WsCall) : bool :=
  match c with SetTimeout RunReconnect _ => true | _ => false end.

Definition isConnectionTimer (c : WsCall) : bool :=
  match c with SetTimeout RejectConnection _ => true | _ => false end.

Definition isEmitOf (event : string) (c : WsCall) : bool :=
  match c with Emit e => String.eqb e event | _ => false end.

(** The calls by which [subscribe] registers a channel. *)
Definition isSubscription (c : WsCall) : bool :=
  match c with ChannelGet _ | ChannelSubscribe _ => true | _ => false end.

(** The calls of [disconnect]. *)
Definition isTeardown (c : WsCall) : bool :=
  match c with
  | ChannelGetNoParams _ | ChannelUnsubscribe _ | ChannelDetach _
  | ClientClose => true
  | Emit e => String.eqb e "disconnected"
  | _ => false
  end.

(** What can happen to the client, with what the transport does then. *)
Inductive WsOp : Type :=
| OpSubscribe (channelName : string) (handler : bool)
| OpUnsubscribe (channelName : string) (detach : Result unit)
| OpConnect (outcome : ConnectOutcome)
| OpDisconnect (detach : string -> Result unit)
| OpReconnect (detach : string -> Result unit) (outcome : ConnectOutcome)
| OpOnConnected
| OpOnDisconnected
| OpOnFailed.

Definition applyWsOp (this : WebSocketClient) (op : WsOp) : WebSocketClient :=
  match op with
  | OpSubscribe channelName handler =>
      match subscribe this channelName handler with
      | Ok (this', _) => this'
      | Throw _ => this
      end
  | OpUnsubscribe channelName detach =>
      (unsubscribe this channelName detach).1.2
  | OpConnect outcome => (connect this outcome).1.2
  | OpDisconnect detach => (disconnect this detach).1.2
  | OpReconnect detach outcome => (reconnect this detach outcome).1
  | OpOnConnected => (onConnected this).1
  | OpOnDisconnected => (onDisconnected this).1
  | OpOnFailed => (onFailed this).1
  end.

(** The constructor; [None] is an argument left out. *)
Definition WebSocketClient_new (reconnectInterval : option Z)
    (maxRetries : option nat) : WebSocketClient :=
  {| client := false;
     reconnectInterval :=
       match reconnectInterval with
       | Some v => if v =? 0 then WS_RECONNECT_DELAY else v
       | None => WS_RECONNECT_DELAY
       end;
     maxRetries :=
       match maxRetries with
       | Some v => if (v =? 0)%nat then MAX_WS_RECONNECT_ATTEMPTS else v
       | None => MAX_WS_RECONNECT_ATTEMPTS
       end;
     reconnectAttempts := 0;
     connectionState := disconnected;
     subscribedChannels := [] |}.

(** ** The main module, continued: the cancel request *)

Record CancelPayload : Type := {
  cp_orderHashes : list string;
  cp_signature : string;
  cp_salt : string;
  cp_maker : string;
  cp_timestamp : Z
}.

(** What the wallet answers during one [handleOrderCancelled]. *)
Record CancelEnv : Type := {
  cancel_generateSalt : string;
  cancel_getCurrentTimestamp : Z;
  cancel_getAddress : string;
  signCancellation : list string -> string -> Z -> Result string
}.

(** [handleOrderCancelled] with the signing of the cancellation: the
    payload passed to [apiClient.cancelOrders], if the handler gets that
    far. *)
Definition handleOrderCancelled_payload (riskManager : RiskManager)
    (copyEngine : OrderCopyEngine) (env : CancelEnv) (orderHash' : string)
    : option CancelPayload :=
  if negb (autoCancelOnSource (config copyEngine)) then None
  else
    match findCopiedOrder riskManager orderHash' with
    | None => None
    | Some copiedOrder =>
        let orderHashes := [orderHash copiedOrder] in
        let salt := cancel_generateSalt env in
        let timestamp := cancel_getCurrentTimestamp env in
        match signCancellation env orderHashes salt timestamp with
        | Throw _ => None
        | Ok signature =>
            Some {| cp_orderHashes := orderHashes;
                    cp_signature := signature;
                    cp_salt := salt;
                    cp_maker := cancel_getAddress env;
                    cp_timestamp := timestamp |}
        end
    end.

(** ** services/APIClient.ts *)

Record RetryPolicyConfig : Type := {
  rp_maxRetries : nat;
  backoffMs : number;
  backoffMultiplier : number
}.

(** What one [fetch] of [request] comes to. *)
Inductive FetchOutcome (T : Type) : Type :=
| FetchThrows (message : string)
| HttpError (status : Z) (statusText : string)
| HttpOk (json : Result T).
Arguments FetchThrows {T} message.
Arguments HttpError {T} status statusText.
Arguments HttpOk {T} json.

Inductive ApiCall : Type :=
| Fetch (attempt : nat)
| Backoff (ms : number).

(** The outcome of one attempt as the [try] block of [request] sees it. *)
Definition attemptResult {T : Type} (outcome : FetchOutcome T) : Result T :=
  match outcome with
  | FetchThrows m => Throw m
  | HttpError status statusText =>
      Throw ("HTTP " +:+ pretty status +:+ ": " +:+ statusText)
  | HttpOk json => json
  end.

(** [request] from the attempt [retryCount] on, with [remaining] retries
    left ([maxRetries - retryCount]); [fetch n] is what the [n]-th attempt
    comes to. *)
Fixpoint requestFrom {T : Type} (policy : RetryPolicyConfig)
    (fetch : nat -> FetchOutcome T) (remaining retryCount : nat)
    : Result T * list ApiCall :=
  match attemptResult (fetch retryCount) with
  | Ok data => (Ok data, [Fetch retryCount])
  | Throw message =>
      match remaining with
      | O => (Throw message, [Fetch retryCount])
      | S remaining' =>
          let backoff :=
            (backoffMs policy
             * Qpower (backoffMultiplier policy) (Z.of_nat retryCount))%Q in
          let '(result, calls) :=
            requestFrom policy fetch remaining' (S retryCount) in
          (result, Fetch retryCount :: Backoff backoff :: calls)
      end
  end.

Definition request {T : Type} (policy : RetryPolicyConfig)
    (fetch : nat -> FetchOutcome T) : Result T * list ApiCall :=
  requestFrom policy fetch (rp_maxRetries policy) 0.

Definition isFetch (c : ApiCall) : bool :=
  match c with Fetch _ => true | _ => false end.

(** [getMarkets], given the answer of the request: the status and data of
    the response body. *)
Definition getMarkets {M : Type} (marketHashes : list string)
    (get : list string -> Result (string * list M) * list ApiCall)
    : Result (list M) * list ApiCall :=
  if (length marketHashes =? 0)%nat then (Ok [], [])
  else if (30 <? length marketHashes)%nat
  then (Throw "Maximum 30 market hashes allowed per request", [])
  else
    match get marketHashes with
    | (Throw m, calls) => (Throw m, calls)
    | (Ok (status, data), calls) =>
        if negb (String.eqb status "success")
        then (Throw "Failed to get markets", calls)
        else (Ok data, calls)
    end.

(** ** utils/validation.ts, continued: sanitizeForLogging *)

(** The letter K. *)
Definition capitalK : Ascii.ascii := Ascii.ascii_of_nat 75.

(** [toLowerCase] on the ASCII letters. *)
Definition lowerAscii (c : Ascii.ascii) : Ascii.ascii :=
  let n := Ascii.nat_of_ascii c in
  if (65 <=? n)%nat && (n <=? 90)%nat then Ascii.ascii_of_nat (n + 32) else c.

Fixpoint toLowerCase (s : string) : string :=
  match s with
  | EmptyString => EmptyString
  | String c s' => String (lowerAscii c) (toLowerCase s')
  end.

Fixpoint startsWith (s prefix : string) : bool :=
  match prefix, s with
  | EmptyString, _ => true
  | String p prefix', String c s' => Ascii.eqb c p && startsWith s' prefix'
  | String _ _, EmptyString => false
  end.

(** [s.includes(k)] *)
Fixpoint includes (s k : string) : bool :=
  startsWith s k
  || match s with
     | EmptyString => false
     | String _ s' => includes s' k
     end.

Definition sensitiveKeys : list string :=
  ["privateKey"; "apiKey"; "signature"; "password"; "secret"].

Definition isSensitive (key : string) : bool :=
  existsb (fun k => includes (toLowerCase key) k) sensitiveKeys.

(** [sanitizeForLogging] on an object given as its entries; [redacted] is
    the value ["***REDACTED***"]. *)
Definition sanitizeForLogging {V : Type} (redacted : V)
    (data : list (string * V)) : list (string * V) :=
  map (fun entry => if isSensitive entry.1 then (entry.1, redacted) else entry)
    data.

Definition isThrow {A : Type} (r : Result A) : bool :=
  match r with Throw _ => true | Ok _ => false end.

(** The calls of one failing reconnection attempt before its
    [handleReconnect]: no reconnect timer, at most one timer at all, the
    connection timeout of 30000 ms, and neither a "maxRetriesReached" nor
    a "connected" notification. *)
Definition attemptCalls (calls : list WsCall) : Prop :=
  List.filter isReconnectTimer calls = []
  /\ (length (List.filter isConnectionTimer calls) <= 1)%nat
  /\ Forall (fun c => forall callback d, c = SetTimeout callback d ->
                        callback = RejectConnection /\ d = 30000) calls
  /\ List.filter (isEmitOf "maxRetriesReached") calls = []
  /\ List.filter (isEmitOf "connected") calls = [].

(** The account of [n] reconnection attempts that end in giving up: [n]
    reconnect timers, each with a delay between one and five intervals; at
    most [n] other timers, each the connection timeout of 30000 ms; one
    "maxRetriesReached" notification, which is the last call; no
    "connected" notification; and a client that has used up its attempts
    and is not connected. *)
Definition retriesSummary (interval : Z) (n : nat) (final : WebSocketClient)
    (calls : list WsCall) : Prop :=
  length (List.filter isReconnectTimer calls) = n
  /\ (length (List.filter isConnectionTimer calls) <= n)%nat
  /\ Forall (fun c => forall callback d, c = SetTimeout callback d ->
                        match callback with
                        | RunReconnect => interval <= d <= 5 * interval
                        | RejectConnection => d = 30000
                        end) calls
  /\ List.filter (isEmitOf "maxRetriesReached") calls = [Emit "maxRetriesReached"]
  /\ (exists before, calls = app before [Emit "maxRetriesReached"])
  /\ List.filter (isEmitOf "connected") calls = []
  /\ reconnectAttempts final = maxRetries final
  /\ isConnected final = false.

(** The states of the client: those reached from a new client. *)
Definition reachable (this : WebSocketClient) : Prop :=
  exists reconnectInterval maxRetries ops,
    this = foldl applyWsOp (WebSocketClient_new reconnectInterval maxRetries) ops.

(** * Properties *)

(** ** The quantization and adjustment library *)

Section Quantization.

(** The expectations of utils/__tests__/odds.test.ts and stake.test.ts. *)

Example test_percentage_increase :
  adjustOddsByPercentage 50000000000000000000 10%Q false DEFAULT_LADDER_STEP
  = Ok 55000000000000000000.
Proof. vm_compute. reflexivity. Qed.

Example test_percentage_fraction :
  adjustOddsByPercentage 50000000000000000000 (321 # 100)%Q false DEFAULT_LADDER_STEP
  = Ok 51605000000000000000.
Proof. vm_compute. reflexivity. Qed.

Example test_percentage_precision :
  adjustOddsByPercentage 33333333333333333333 5%Q false DEFAULT_LADDER_STEP
  = Ok 34999999999999999999.
Proof. vm_compute. reflexivity. Qed.

Example test_percentage_exceeds :
  adjustOddsByPercentage 99000000000000000000 10%Q false DEFAULT_LADDER_STEP
  = Throw "Adjusted odds out of valid range".
Proof. vm_compute. reflexivity. Qed.

Example test_steps_decrease :
  adjustOddsBySteps 50000000000000000000 (-1)%Q DEFAULT_LADDER_STEP
  = Ok 49875000000000000000.
Proof. vm_compute. reflexivity. Qed.

Example test_steps_negative :
  adjustOddsBySteps 1000000000000000 (-10)%Q DEFAULT_LADDER_STEP
  = Throw "Adjusted odds would be negative".
Proof. vm_compute. reflexivity. Qed.

Example test_steps_exceeds :
  adjustOddsBySteps 99000000000000000000 10%Q DEFAULT_LADDER_STEP
  = Throw "Adjusted odds out of valid range".
Proof. vm_compute. reflexivity. Qed.

Example test_stake_percentage :
  adjustStakeByPercentage 1000000 (6667 # 100)%Q = Ok 666700
  /\ adjustStakeByPercentage 1234567 25%Q = Ok 308641
  /\ adjustStakeByPercentage 1000000 0%Q = Ok 0
  /\ adjustStakeByPercentage 1000000 1001%Q
     = Throw "Percentage must be between 0 and 1000".
Proof. vm_compute. repeat split; reflexivity. Qed.

Lemma isValidOdds_spec (odds : Z) :
  isValidOdds odds = true <-> 0 <= odds <= 10 ^ 20.
Proof.
  unfold isValidOdds, ODDS_PRECISION.
  rewrite andb_true_iff, Z.geb_le, Z.leb_le. tauto.
Qed.

(** Rounding a multiple of the rung gives it back. *)
Lemma roundOddsToLadder_multiple (q : Z) (stepSize : number) (step : Z) :
  ladderStep stepSize = Ok step ->
  step <> 0 ->
  roundOddsToLadder (q * step) stepSize = Ok (q * step).
Proof.
  intros Hstep Hnz. unfold roundOddsToLadder. rewrite Hstep. simpl.
  unfold BigNumber_div. apply Z.eqb_neq in Hnz. rewrite Hnz. simpl.
  apply Z.eqb_neq in Hnz. now rewrite Z.quot_mul.
Qed.

(** [roundOddsToLadder] either throws (zero or fractional step size) or
    returns a multiple of the rung. *)
Lemma roundOddsToLadder_Ok (odds : Z) (stepSize : number) (r : Z) :
  roundOddsToLadder odds stepSize = Ok r ->
  exists step, ladderStep stepSize = Ok step /\ step <> 0
               /\ r = Z.quot odds step * step.
Proof.
  unfold roundOddsToLadder. destruct (ladderStep stepSize) as [step|m]; simpl;
    [|discriminate].
  unfold BigNumber_div. destruct (step =? 0) eqn:E; simpl; [discriminate|].
  intros [= <-]. exists step. apply Z.eqb_neq in E. auto.
Qed.

(** With a whole, non-zero step size the rounding succeeds. *)
Lemma roundOddsToLadder_total (odds : Z) (stepSize : number) (step : Z) :
  ladderStep stepSize = Ok step ->
  step <> 0 ->
  roundOddsToLadder odds stepSize = Ok (Z.quot odds step * step).
Proof.
  intros Hstep Hnz. unfold roundOddsToLadder. rewrite Hstep. simpl.
  unfold BigNumber_div. apply Z.eqb_neq in Hnz. now rewrite Hnz.
Qed.

(** The rounding goes down, never up, and lands on the ladder. *)
Lemma roundOddsToLadder_down (odds : Z) (stepSize : number) (step r : Z) :
  ladderStep stepSize = Ok step ->
  0 < step ->
  0 <= odds ->
  roundOddsToLadder odds stepSize = Ok r ->
  0 <= r <= odds /\ odds - r < step /\ isOnOddsLadder r stepSize = true.
Proof.
  intros Hstep Hpos Hodds Hr.
  rewrite (roundOddsToLadder_total odds stepSize step) in Hr by (auto; lia).
  injection Hr as <-.
  rewrite Z.quot_div_nonneg by lia.
  pose proof (Z.div_mod odds step ltac:(lia)) as Hdm.
  pose proof (Z.mod_pos_bound odds step Hpos) as Hm.
  pose proof (Z.div_pos odds step Hodds Hpos) as Hd.
  repeat split; try nia.
  unfold isOnOddsLadder. rewrite Hstep. simpl. unfold BigNumber_mod.
  replace (step <? 0) with false by (symmetry; apply Z.ltb_ge; lia).
  replace (step =? 0) with false by (symmetry; apply Z.eqb_neq; lia).
  simpl. apply Z.eqb_eq. apply Z.mod_mul. lia.
Qed.

(** C7.  Ladder quantization is idempotent: for every price [p] in
    [0, 10^20] and every ladder step size, rounding the rounded price
    again gives the rounded price (and throws exactly when the first
    rounding throws). *)
Theorem roundOddsToLadder_idempotent (p : Z) (stepSize : number) :
  0 <= p <= 10 ^ 20 ->
  (r ← roundOddsToLadder p stepSize; roundOddsToLadder r stepSize)
  = roundOddsToLadder p stepSize.
Proof.
  intros _.
  destruct (roundOddsToLadder p stepSize) as [r|m] eqn:E; simpl; [|reflexivity].
  apply roundOddsToLadder_Ok in E as (step & Hstep & Hnz & ->).
  now apply roundOddsToLadder_multiple.
Qed.

Lemma roundOddsToLadder_idempotent_witness :
  0 <= 50123456789012345678 <= 10 ^ 20
  /\ roundOddsToLadder 50123456789012345678 DEFAULT_LADDER_STEP
     = Ok 50000000000000000000
  /\ (r ← roundOddsToLadder 50123456789012345678 DEFAULT_LADDER_STEP;
      roundOddsToLadder r DEFAULT_LADDER_STEP)
     = roundOddsToLadder 50123456789012345678 DEFAULT_LADDER_STEP.
Proof.
  split; [lia|]. split; [vm_compute; reflexivity|].
  apply (roundOddsToLadder_idempotent 50123456789012345678 DEFAULT_LADDER_STEP).
  lia.
Defined.

Lemma Math_abs_opp (s : number) : Math_abs (- s)%Q = Math_abs s.
Proof. destruct s as [n d]. unfold Math_abs. simpl. now rewrite Z.abs_opp. Qed.

Lemma num_ge_0 (s : number) : num_ge s 0%Q = (0 <=? Qnum s).
Proof.
  destruct s as [n d]. unfold num_ge, Qle_bool. simpl.
  now rewrite Z.mul_1_r.
Qed.

(** A step count of magnitude zero moves nothing. *)
Lemma BigNumber_from_abs_0 (s : number) (a : Z) :
  Qnum s = 0 -> BigNumber_from_number (Math_abs s) = Ok a -> a = 0.
Proof.
  destruct s as [n d]. simpl. intros ->. unfold BigNumber_from_number. simpl.
  intros [= <-]. reflexivity.
Qed.

(** What a successful [adjustOddsBySteps] returns. *)
Lemma adjustOddsBySteps_Ok (p : Z) (s stepSize : number) (r : Z) :
  adjustOddsBySteps p s stepSize = Ok r ->
  exists stepValue a,
    ladderStep stepSize = Ok stepValue
    /\ BigNumber_from_number (Math_abs s) = Ok a
    /\ r = (if 0 <=? Qnum s then p + stepValue * a else p - stepValue * a)
    /\ isValidOdds p = true /\ isValidOdds r = true.
Proof.
  unfold adjustOddsBySteps.
  destruct (isValidOdds p) eqn:Hp; simpl; [|discriminate].
  destruct (ladderStep stepSize) as [stepValue|] eqn:Hs; simpl; [|discriminate].
  unfold BigNumber_mul_number.
  destruct (BigNumber_from_number (Math_abs s)) as [a|] eqn:Ha; simpl;
    [|discriminate].
  rewrite num_ge_0.
  set (adjusted := if 0 <=? Qnum s then _ else _).
  destruct (adjusted <? 0); [discriminate|].
  destruct (isValidOdds adjusted) eqn:Hr; simpl; [|discriminate].
  intros [= <-]. exists stepValue, a. auto.
Qed.

(** C8.  Step-adjustment round trip: moving a price by [s] rungs and the
    result by [-s] rungs gives the price back, whenever both calls
    succeed. *)
Theorem adjustOddsBySteps_round_trip (p : Z) (s stepSize : number) (r r' : Z) :
  adjustOddsBySteps p s stepSize = Ok r ->
  adjustOddsBySteps r (- s)%Q stepSize = Ok r' ->
  r' = p.
Proof.
  intros H1 H2.
  apply adjustOddsBySteps_Ok in H1 as (sv & a & Hsv & Ha & -> & _ & _).
  apply adjustOddsBySteps_Ok in H2 as (sv' & a' & Hsv' & Ha' & -> & _ & _).
  rewrite Hsv in Hsv'. injection Hsv' as <-.
  rewrite Math_abs_opp, Ha in Ha'. injection Ha' as <-.
  destruct s as [n d]. simpl in *.
  destruct (Z.lt_trichotomy n 0) as [Hn|[Hn|Hn]].
  - replace (0 <=? n) with false by (symmetry; apply Z.leb_gt; lia).
    replace (0 <=? - n) with true by (symmetry; apply Z.leb_le; lia). lia.
  - subst n. simpl.
    assert (a = 0) as -> by (apply (BigNumber_from_abs_0 (0 # d)); auto).
    lia.
  - replace (0 <=? n) with true by (symmetry; apply Z.leb_le; lia).
    replace (0 <=? - n) with false by (symmetry; apply Z.leb_gt; lia). lia.
Qed.

Lemma adjustOddsBySteps_round_trip_witness :
  adjustOddsBySteps 50000000000000000000 4%Q DEFAULT_LADDER_STEP
    = Ok 50500000000000000000
  /\ adjustOddsBySteps 50500000000000000000 (- 4)%Q DEFAULT_LADDER_STEP
    = Ok 50000000000000000000
  /\ 50000000000000000000 = 50000000000000000000.
Proof.
  assert (H1 : adjustOddsBySteps 50000000000000000000 4%Q DEFAULT_LADDER_STEP
               = Ok 50500000000000000000) by (vm_compute; reflexivity).
  assert (H2 : adjustOddsBySteps 50500000000000000000 (- 4)%Q DEFAULT_LADDER_STEP
               = Ok 50000000000000000000) by (vm_compute; reflexivity).
  split; [exact H1|]. split; [exact H2|].
  exact (adjustOddsBySteps_round_trip _ _ _ _ _ H1 H2).
Defined.

End Quantization.

(** ** The ledger *)

Section Ledger.

Lemma history_recordOrderMapping (rm : RiskManager) (order : Order) (h h' : string) :
  h' ∈ originalOrderHistory (recordOrderMapping rm order h)
  <-> h' = h \/ h' ∈ originalOrderHistory rm.
Proof.
  unfold recordOrderMapping.
  destruct (match Map_get h (ordersByOriginal rm) with
            | Some t => truthy t | None => false end); simpl; set_solver.
Qed.

(** No mutator takes a hash out of the history of copied originals. *)
Lemma history_applyOp (rm : RiskManager) (op : LedgerOp) (h : string) :
  h ∈ originalOrderHistory rm -> h ∈ originalOrderHistory (applyOp rm op).
Proof.
  destruct op as [order h'|order|h'|]; simpl; intros Hin.
  - apply history_recordOrderMapping. auto.
  - exact Hin.
  - unfold removeOrder. destruct (trackedOrders rm !! h'); exact Hin.
  - exact Hin.
Qed.

Lemma history_foldl (ops : list LedgerOp) (rm : RiskManager) (h : string) :
  h ∈ originalOrderHistory rm ->
  h ∈ originalOrderHistory (foldl applyOp rm ops).
Proof.
  revert rm. induction ops as [|op ops IH]; intros rm Hin; simpl; [exact Hin|].
  apply IH. now apply history_applyOp.
Qed.

(** C9.  Once [recordOrderMapping(order, h)] has been called,
    [isOrderCopied(h)] is true after any further sequence of ledger
    operations ([recordOrderMapping], [recordOrder], [removeOrder],
    [clear]), and a detected order with hash [h] is skipped before the
    copy engine is called. *)
Theorem isOrderCopied_persists (rm : RiskManager) (order : Order) (h : string)
    (ops : list LedgerOp) :
  let rm' := foldl applyOp (recordOrderMapping rm order h) ops in
  isOrderCopied rm' h = true
  /\ forall copyEngine env source monitoredWallet,
       orderHash source = h ->
       handleOrderDetected_start rm' copyEngine env source monitoredWallet = None
       /\ handleOrderDetected rm' copyEngine env source monitoredWallet = (rm', []).
Proof.
  intros rm'.
  assert (Hc : isOrderCopied rm' h = true).
  { unfold isOrderCopied. apply bool_decide_eq_true. subst rm'.
    apply history_foldl, history_recordOrderMapping. auto. }
  split; [exact Hc|].
  intros copyEngine env source monitoredWallet Hh.
  unfold handleOrderDetected, handleOrderDetected_start.
  rewrite Hh, Hc. auto.
Qed.

Lemma isOrderCopied_persists_witness :
  let rm' := foldl applyOp
               (recordOrderMapping RiskManager_new (sampleOrder "0xcopy" 10) "0xsrc")
               [OpRecordOrder (sampleOrder "0xcopy" 10); OpRemoveOrder "0xcopy"; OpClear] in
  ordersByOriginal rm' = []
  /\ isOrderCopied rm' "0xsrc" = true
  /\ orderHash (sampleOrder "0xsrc" 20000000) = "0xsrc"
  /\ handleOrderDetected_start rm' sampleEngine (acceptingEnv "0xcopy2")
       (sampleOrder "0xsrc" 20000000) "0xmaker" = None.
Proof.
  intros rm'.
  destruct (isOrderCopied_persists RiskManager_new (sampleOrder "0xcopy" 10) "0xsrc"
              [OpRecordOrder (sampleOrder "0xcopy" 10); OpRemoveOrder "0xcopy"; OpClear])
    as [Hcopied Hskip].
  split; [vm_compute; reflexivity|]. split; [exact Hcopied|].
  split; [reflexivity|].
  exact (proj1 (Hskip sampleEngine (acceptingEnv "0xcopy2")
                  (sampleOrder "0xsrc" 20000000) "0xmaker" eq_refl)).
Defined.

Lemma findCopiedOrder_unfold (rm : RiskManager) (h : string) :
  findCopiedOrder rm h
  = trackedOrders rm !! default "" (Map_get h (ordersByOriginal rm)).
Proof.
  unfold findCopiedOrder.
  destruct (Map_get h (ordersByOriginal rm)) as [d|]; simpl; [|reflexivity].
  unfold truthy. destruct (String.eqb_spec d ""); simpl; congruence.
Qed.

(** The equivalence of [findCopiedOrder] with "a mapping exists whose
    derived hash is tracked" does not hold of every ledger: in one that
    tracks an order under the empty hash, every unmapped source hash finds
    that order. *)
Lemma findCopiedOrder_iff_counterexample :
  ~ (forall (rm : RiskManager) (h : string),
       is_Some (findCopiedOrder rm h)
       <-> exists d, Map_get h (ordersByOriginal rm) = Some d
                     /\ is_Some (trackedOrders rm !! d)).
Proof.
  intros H.
  destruct (H (recordOrder RiskManager_new (sampleOrder "" 10)) "0xsrc")
    as [Hlr _].
  destruct Hlr as (d & Hd & _).
  - rewrite findCopiedOrder_unfold. simpl. rewrite lookup_insert_eq. eauto.
  - simpl in Hd. discriminate.
Qed.

(** Where the equivalence does hold: when no order is tracked under the
    empty hash, [findCopiedOrder(h)] returns an order exactly when a
    mapping for [h] exists and the mapped derived hash is tracked.  For a
    mapping whose derived order is not tracked it returns nothing, and a
    cancellation of [h] sends no cancel request. *)
Lemma findCopiedOrder_spec (rm : RiskManager) (h : string) :
  (trackedOrders rm !! "" = None ->
   forall o, findCopiedOrder rm h = Some o
             <-> exists d, Map_get h (ordersByOriginal rm) = Some d
                           /\ trackedOrders rm !! d = Some o)
  /\ (forall d, Map_get h (ordersByOriginal rm) = Some d ->
                trackedOrders rm !! d = None ->
                findCopiedOrder rm h = None
                /\ forall copyEngine monitoredWallet,
                     handleOrderCancelled rm copyEngine h monitoredWallet = []
                     /\ handleOrderFilled rm copyEngine h monitoredWallet = []).
Proof.
  split.
  - intros Hempty o. rewrite findCopiedOrder_unfold.
    destruct (Map_get h (ordersByOriginal rm)) as [d|]; simpl.
    + split; [eauto|]. now intros (d' & [= <-] & Hd).
    + rewrite Hempty. split; [discriminate|]. now intros (d' & [=] & _).
  - intros d Hd Hnone.
    assert (Hf : findCopiedOrder rm h = None).
    { rewrite findCopiedOrder_unfold, Hd. exact Hnone. }
    split; [exact Hf|]. intros copyEngine monitoredWallet.
    unfold handleOrderFilled, handleOrderCancelled. rewrite Hf.
    destruct (autoCancelOnSource (config copyEngine)); auto.
Qed.

Lemma findCopiedOrder_spec_witness :
  let copy := sampleOrder "0xcopy" 10 in
  let mapped := recordOrderMapping RiskManager_new copy "0xsrc" in
  let tracked := recordOrder mapped copy in
  (trackedOrders tracked !! "" = None
   /\ findCopiedOrder tracked "0xsrc" = Some copy)
  /\ (Map_get "0xsrc" (ordersByOriginal mapped) = Some "0xcopy"
      /\ trackedOrders mapped !! "0xcopy" = None
      /\ findCopiedOrder mapped "0xsrc" = None
      /\ handleOrderCancelled mapped sampleEngine "0xsrc" "0xmaker" = []).
Proof.
  intros copy mapped tracked.
  assert (H1 : trackedOrders tracked !! "" = None) by reflexivity.
  assert (H2 : Map_get "0xsrc" (ordersByOriginal mapped) = Some "0xcopy")
    by reflexivity.
  assert (H3 : trackedOrders mapped !! "0xcopy" = None) by reflexivity.
  split.
  - split; [exact H1|].
    apply (proj1 (findCopiedOrder_spec tracked "0xsrc") H1 copy).
    exists "0xcopy". split; reflexivity.
  - split; [exact H2|]. split; [exact H3|].
    destruct (proj2 (findCopiedOrder_spec mapped "0xsrc") "0xcopy" H2 H3)
      as [Hnone Hcalls].
    split; [exact Hnone|].
    exact (proj1 (Hcalls sampleEngine "0xmaker")).
Defined.

End Ledger.

(** C10, at a failing input.  The bot's own feed has reported an order
    whose hash is the empty string, and no source order was ever copied.
    For the source hash "0xsrc" there is no mapping, yet [findCopiedOrder]
    returns that own order: the fallback [|| ""] for a missing mapping is
    itself a key of the tracked orders.  A cancellation of "0xsrc" at the
    monitored wallet then sends a cancel request for the own order. *)
Theorem findCopiedOrder_finds_unrelated_order :
  let own := sampleOrder "" 10000000 in
  let rm := handleOwnOrderDetected RiskManager_new own in
  Map_get "0xsrc" (ordersByOriginal rm) = None
  /\ isOrderCopied rm "0xsrc" = false
  /\ findCopiedOrder rm "0xsrc" = Some own
  /\ handleOrderCancelled rm sampleEngine "0xsrc" "0xmaker"
     = [CancelOrders [""]].
Proof. vm_compute. repeat split; reflexivity. Qed.

(** ** The copy engine *)

Section CopyEngine.

Lemma validateStakeLimits_valid (stake lo hi : Z) :
  valid (validateStakeLimits stake lo hi) = true <-> lo <= stake <= hi.
Proof.
  unfold validateStakeLimits.
  destruct (stake <? lo) eqn:E1; simpl.
  - apply Z.ltb_lt in E1. split; [discriminate|lia].
  - apply Z.ltb_ge in E1. destruct (stake >? hi) eqn:E2; simpl.
    + apply Z.gtb_lt in E2. split; [discriminate|lia].
    + rewrite Z.gtb_ltb in E2. apply Z.ltb_ge in E2. split; [lia|reflexivity].
Qed.

Lemma adjustStake_clamps (engine : OrderCopyEngine) (originalStake s : Z) :
  adjustStakeByMethod engine originalStake = Ok s ->
  adjustStake engine originalStake
  = Ok (clampStake (minStake (stakeAdjustment (config engine)))
          (maxStake (stakeAdjustment (config engine))) s).
Proof.
  intros Hs. unfold adjustStake, clampStake. rewrite Hs. simpl.
  unfold validateStakeLimits.
  destruct (s <? _); simpl; [reflexivity|].
  destruct (s >? _); reflexivity.
Qed.

(** When [copyOrder] succeeds, and only then: every step went through. *)
Lemma copyOrder_success_iff (engine : OrderCopyEngine) (env : CopyEnv)
    (order : Order) (w : string) :
  success (copyOrder engine env order w).1 = true
  <-> enabled (config engine) = true
      /\ exists md odds stake sig resp,
           metadata engine = Some md
           /\ adjustOdds engine (percentageOdds order) = Ok odds
           /\ adjustStake engine (totalBetSize order) = Ok stake
           /\ valid (validateStakeLimits stake
                       (minStake (stakeAdjustment (config engine)))
                       (maxStake (stakeAdjustment (config engine)))) = true
           /\ signOrder env (makeNewOrder engine env md order odds stake) = Ok sig
           /\ postOrders env
                [{| so_order := makeNewOrder engine env md order odds stake;
                    so_signature := sig |}] = Ok resp
           /\ inserted resp <> 0.
Proof.
  unfold copyOrder.
  destruct (enabled (config engine)); simpl;
    [|split; [discriminate|intros [[=] _]]].
  destruct (metadata engine) as [md|]; simpl;
    [|split; [discriminate|intros (_ & ? & ? & ? & ? & ? & [=] & _)]].
  destruct (adjustOdds engine (percentageOdds order)) as [odds|]; simpl;
    [|split; [discriminate|intros (_ & ? & ? & ? & ? & ? & _ & [=] & _)]].
  destruct (adjustStake engine (totalBetSize order)) as [stake|]; simpl;
    [|split; [discriminate|intros (_ & ? & ? & ? & ? & ? & _ & _ & [=] & _)]].
  destruct (valid (validateStakeLimits stake _ _)) eqn:Hv; simpl;
    [|split; [discriminate|
              intros (_ & ? & ? & ? & ? & ? & [= <-] & [= <-] & [= <-] & Hv' & _);
              congruence]].
  destruct (signOrder env _) as [sig|] eqn:Hsig; simpl;
    [|split; [discriminate|
              intros (_ & ? & ? & ? & ? & ? & [= <-] & [= <-] & [= <-] & _ & Hs & _);
              congruence]].
  destruct (postOrders env _) as [resp|] eqn:Hpost; simpl;
    [|split; [discriminate|
              intros (_ & ? & ? & ? & ? & ? & [= <-] & [= <-] & [= <-] & _ & Hs & Hp & _);
              congruence]].
  destruct (inserted resp =? 0) eqn:Hins; simpl.
  - split; [discriminate|].
    intros (_ & ? & ? & ? & ? & ? & [= <-] & [= <-] & [= <-] & _ & Hs & Hp & Hi).
    apply Z.eqb_eq in Hins. congruence.
  - split; [|reflexivity]. intros _. split; [reflexivity|].
    apply Z.eqb_neq in Hins.
    exists md, odds, stake, sig, resp. repeat split; auto.
Qed.

(** A successful result carries the copied order and the modifications. *)
Lemma copyOrder_success_fields (engine : OrderCopyEngine) (env : CopyEnv)
    (order : Order) (w : string) :
  success (copyOrder engine env order w).1 = true ->
  is_Some (copiedOrder (copyOrder engine env order w).1)
  /\ is_Some (cr_modifications (copyOrder engine env order w).1).
Proof.
  unfold copyOrder.
  destruct (enabled (config engine)); simpl; [|discriminate].
  destruct (metadata engine); simpl; [|discriminate].
  destruct (adjustOdds engine _); simpl; [|discriminate].
  destruct (adjustStake engine _); simpl; [|discriminate].
  destruct (valid _); simpl; [|discriminate].
  destruct (signOrder env _); simpl; [|discriminate].
  destruct (postOrders env _); simpl; [|discriminate].
  destruct (inserted _ =? 0); simpl; [discriminate|]. eauto.
Qed.

(** C2, as stated: a stake that the method puts strictly below the
    minimum makes the copy fail without signing or submitting.  It fails
    on a 5 USDC order copied with limits of 10 and 50 USDC: the stake is
    raised to 10 USDC and the order is signed and submitted. *)
Lemma below_minimum_rejected_counterexample :
  ~ (forall (engine : OrderCopyEngine) (env : CopyEnv) (order : Order)
            (w : string) (s : Z),
       adjustStakeByMethod engine (totalBetSize order) = Ok s ->
       s < minStake (stakeAdjustment (config engine)) ->
       success (copyOrder engine env order w).1 = false
       /\ forall c, c ∈ (copyOrder engine env order w).2 ->
                    exists ms, c = Sleep ms).
Proof.
  intros H.
  destruct (H sampleEngine (acceptingEnv "0xcopy") (sampleOrder "0xsrc" 5000000)
              "0xmaker" 5000000) as [Hfail _].
  - reflexivity.
  - simpl. lia.
  - vm_compute in Hfail. discriminate.
Qed.

(** C2, amended.  For an engine that is enabled and initialised, when the
    odds adjustment succeeds and [minStake <= maxStake]: a stake that the
    configured method puts strictly below the minimum is raised to the
    minimum, and one strictly above the maximum is lowered to the maximum;
    either way the stake validation of [copyOrder] passes and the copy
    proceeds: the order is signed with the clamped stake, it is submitted
    whenever the signing succeeds, and the copy succeeds with that stake
    when the exchange reports the order as inserted. *)
Theorem stake_limits_clamp_and_proceed (engine : OrderCopyEngine) (env : CopyEnv)
    (order : Order) (w : string) (md : Metadata) (odds s : Z) :
  let lo := minStake (stakeAdjustment (config engine)) in
  let hi := maxStake (stakeAdjustment (config engine)) in
  enabled (config engine) = true ->
  metadata engine = Some md ->
  adjustOdds engine (percentageOdds order) = Ok odds ->
  adjustStakeByMethod engine (totalBetSize order) = Ok s ->
  lo <= hi ->
  exists stake,
    adjustStake engine (totalBetSize order) = Ok stake
    /\ (s < lo -> stake = lo)
    /\ (hi < s -> stake = hi)
    /\ valid (validateStakeLimits stake lo hi) = true
    /\ SignOrder (makeNewOrder engine env md order odds stake)
         ∈ (copyOrder engine env order w).2
    /\ (forall sig,
          signOrder env (makeNewOrder engine env md order odds stake) = Ok sig ->
          PostOrders [{| so_order := makeNewOrder engine env md order odds stake;
                         so_signature := sig |}]
            ∈ (copyOrder engine env order w).2)
    /\ forall sig resp,
         signOrder env (makeNewOrder engine env md order odds stake) = Ok sig ->
         postOrders env
           [{| so_order := makeNewOrder engine env md order odds stake;
               so_signature := sig |}] = Ok resp ->
         inserted resp <> 0 ->
         success (copyOrder engine env order w).1 = true
         /\ (totalBetSize <$> copiedOrder (copyOrder engine env order w).1)
            = Some stake.
Proof.
  intros lo hi Hen Hmd Hodds Hs Hle.
  exists (clampStake lo hi s).
  pose proof (adjustStake_clamps engine _ _ Hs) as Hadj. fold lo hi in Hadj.
  assert (Hv : valid (validateStakeLimits (clampStake lo hi s) lo hi) = true).
  { apply validateStakeLimits_valid. unfold clampStake.
    destruct (s <? lo) eqn:E1; [lia|]. apply Z.ltb_ge in E1.
    destruct (s >? hi) eqn:E2; [lia|].
    rewrite Z.gtb_ltb in E2. apply Z.ltb_ge in E2. lia. }
  split; [exact Hadj|]. split.
  { intros Hlt. unfold clampStake.
    now replace (s <? lo) with true by (symmetry; apply Z.ltb_lt; lia). }
  split.
  { intros Hgt. unfold clampStake.
    replace (s <? lo) with false by (symmetry; apply Z.ltb_ge; lia).
    now replace (s >? hi) with true by (symmetry; apply Z.gtb_lt; lia). }
  split; [exact Hv|].
  unfold copyOrder. rewrite Hen, Hmd, Hodds, Hadj. simpl.
  fold lo hi. rewrite Hv. simpl.
  split; [|split].
  - destruct (signOrder env _) as [sig|]; simpl.
    + destruct (postOrders env _) as [resp|]; simpl;
        [destruct (inserted resp =? 0); simpl|];
        apply elem_of_app; right; apply elem_of_cons; left; reflexivity.
    + apply elem_of_app; right; apply elem_of_cons; left; reflexivity.
  - intros sig Hsig. rewrite Hsig. simpl.
    destruct (postOrders env _) as [resp|]; simpl;
      [destruct (inserted resp =? 0); simpl|];
      apply elem_of_app; right; apply elem_of_cons; right;
      apply elem_of_cons; left; reflexivity.
  - intros sig resp Hsig Hpost Hins.
    rewrite Hsig. simpl. rewrite Hpost. simpl.
    apply Z.eqb_neq in Hins. rewrite Hins. simpl.
    split; reflexivity.
Qed.

Lemma stake_limits_clamp_and_proceed_witness :
  exists stake,
    adjustStake sampleEngine 5000000 = Ok stake
    /\ stake = 10000000
    /\ PostOrders
         [{| so_order :=
               makeNewOrder sampleEngine (acceptingEnv "0xcopy")
                 {| executorAddress := "0xexecutor";
                    oddsLadderStepSize := 125%Q |}
                 (sampleOrder "0xsrc" 5000000) 50000000000000000000 stake;
             so_signature := "0xsigned" |}]
         ∈ (copyOrder sampleEngine (acceptingEnv "0xcopy")
              (sampleOrder "0xsrc" 5000000) "0xmaker").2
    /\ success (copyOrder sampleEngine (acceptingEnv "0xcopy")
                  (sampleOrder "0xsrc" 5000000) "0xmaker").1 = true.
Proof.
  destruct (stake_limits_clamp_and_proceed sampleEngine (acceptingEnv "0xcopy")
              (sampleOrder "0xsrc" 5000000) "0xmaker"
              {| executorAddress := "0xexecutor"; oddsLadderStepSize := 125%Q |}
              50000000000000000000 5000000
              eq_refl eq_refl eq_refl eq_refl ltac:(simpl; lia))
    as (stake & Hadj & Hlo & _ & _ & _ & Hpost & Hgo).
  exists stake. split; [exact Hadj|]. split; [apply Hlo; simpl; lia|].
  split; [exact (Hpost "0xsigned" eq_refl)|].
  refine (proj1 (Hgo "0xsigned"
                   {| orders := ["0xcopy"]; statuses := ["OK"]; inserted := 1 |}
                   eq_refl eq_refl _)).
  simpl. lia.
Defined.

End CopyEngine.

(** ** The bot: recording copies *)

Section Bot.

Variable copyEngine : OrderCopyEngine.

Lemma finish_failed (rm : RiskManager) (order : Order) (result : CopyResult) :
  success result = false -> handleOrderDetected_finish rm order result = rm.
Proof. intros H. unfold handleOrderDetected_finish. now rewrite H. Qed.

(** Delivering a detected order does not write to the ledger; only the
    continuation after [copyOrder] does. *)
Lemma deliver_detected_keeps_ledger (st : BotState) (order : Order)
    (w : string) (env : CopyEnv) :
  riskManager (step copyEngine st (Deliver (orderDetected order w) env))
  = riskManager st.
Proof.
  simpl. destruct (handleOrderDetected_start _ _ _ _ _) as [[r c]|]; reflexivity.
Qed.

(** C6.  A copy operation that fails, at whichever step (copying disabled,
    engine not initialized, odds or stake validation, signing, submission,
    zero insertions), leaves the ledger as it was: [handleOrderDetected]
    records a mapping only for a successful result, and neither the call
    of [copyOrder] nor its failed result changes the mapping, the tracked
    orders or the history. *)
Theorem failed_copy_leaves_ledger_unchanged (rm : RiskManager) (env : CopyEnv)
    (order : Order) (w : string) :
  success (copyOrder copyEngine env order w).1 = false ->
  (handleOrderDetected rm copyEngine env order w).1 = rm
  /\ (forall rm', handleOrderDetected_finish rm' order
                    (copyOrder copyEngine env order w).1 = rm')
  /\ forall st,
       riskManager st = rm ->
       riskManager (run copyEngine st
                      [Deliver (orderDetected order w) env;
                       CopySettled (length (inFlight st))]) = rm.
Proof.
  intros Hfail. split; [|split].
  - unfold handleOrderDetected, handleOrderDetected_start.
    destruct (isOrderCopied rm (orderHash order)); simpl; [reflexivity|].
    destruct (copyOrder copyEngine env order w) as [r c]. simpl in *.
    now apply finish_failed.
  - intros rm'. now apply finish_failed.
  - intros st <-. unfold run. simpl.
    unfold handleOrderDetected_start.
    destruct (isOrderCopied (riskManager st) (orderHash order)); simpl.
    + rewrite lookup_ge_None_2 by lia. reflexivity.
    + destruct (copyOrder copyEngine env order w) as [r c]. simpl in *.
      rewrite lookup_app_r by lia. rewrite Nat.sub_diag. simpl.
      now apply finish_failed.
Qed.

(** The listed causes of failure do make [copyOrder] fail. *)
Lemma copyOrder_failure_causes (env : CopyEnv) (order : Order) (w : string) :
  (enabled (config copyEngine) = false
   \/ metadata copyEngine = None
   \/ (exists m, adjustOdds copyEngine (percentageOdds order) = Throw m)
   \/ (exists m, adjustStake copyEngine (totalBetSize order) = Throw m)
   \/ (forall no, exists m, signOrder env no = Throw m)
   \/ (forall os, exists m, postOrders env os = Throw m)
   \/ (forall os resp, postOrders env os = Ok resp -> inserted resp = 0)) ->
  success (copyOrder copyEngine env order w).1 = false.
Proof.
  intros H. apply not_true_is_false. intros Hs.
  apply copyOrder_success_iff in Hs
    as (Hen & md & odds & stake & sig & resp & Hmd & Ho & Hst & _ & Hsig & Hp & Hi).
  destruct H as [H|[H|[[m H]|[[m H]|[H|[H|H]]]]]]; try congruence.
  - destruct (H (makeNewOrder copyEngine env md order odds stake)) as [m Hm].
    congruence.
  - destruct (H [{| so_order := makeNewOrder copyEngine env md order odds stake;
                    so_signature := sig |}]) as [m Hm].
    congruence.
  - apply Hi. eapply H. exact Hp.
Qed.

(** *** One delivery at a time *)

Lemma history_recordOrder (rm : RiskManager) (o : Order) :
  originalOrderHistory (recordOrder rm o) = originalOrderHistory rm.
Proof. reflexivity. Qed.

Lemma history_removeOrder (rm : RiskManager) (h : string) :
  originalOrderHistory (removeOrder rm h) = originalOrderHistory rm.
Proof. unfold removeOrder. now destruct (trackedOrders rm !! h). Qed.

Lemma oneAtATime_step (st : BotState) (d : MonitorEvent * CopyEnv) :
  OneAtATimeInv st ->
  OneAtATimeInv (run copyEngine st [Deliver d.1 d.2; CopySettled 0]).
Proof.
  intros [Hfl Hinv]. destruct d as [ev env]. unfold run. simpl.
  destruct ev as [order w|order|h w|h w|h w|h w]; simpl;
    try (rewrite Hfl; simpl; split; [reflexivity|]; intros h';
         destruct (Hinv h') as [H1 H2]; split; [exact H1|];
         unfold copiesOf in *; simpl;
         unfold handleOwnOrderDetected, handleOwnOrderCancelled,
           handleOwnOrderFilled;
         rewrite ?history_removeOrder, ?history_recordOrder; exact H2).
  unfold handleOrderDetected_start.
  destruct (isOrderCopied (riskManager st) (orderHash order)) eqn:Hc; simpl.
  { rewrite Hfl. simpl. split; [exact Hfl|exact Hinv]. }
  pose proof (copyOrder_success_fields copyEngine env order w) as Hfields.
  destruct (copyOrder copyEngine env order w) as [r c]. simpl in *.
  rewrite Hfl. simpl. split; [reflexivity|].
  intros h. destruct (Hinv h) as [H1 H2].
  unfold copiesOf in *. simpl. rewrite filter_app, length_app.
  unfold handleOrderDetected_finish.
  destruct (success r) eqn:Hs.
  - destruct (Hfields eq_refl) as [[copied ->] [mods ->]].
    rewrite filter_cons, filter_nil. simpl.
    destruct (decide (orderHash order = h)) as [<-|Hne]; simpl.
    + assert (length (filter (λ p : string * Order, p.1 = orderHash order)
                        (derivedCreated st)) = 0)%nat as Hzero.
      { destruct (length (filter _ (derivedCreated st))) as [|[|n]] eqn:E;
          [reflexivity| |lia].
        unfold isOrderCopied in Hc. apply bool_decide_eq_false in Hc.
        exfalso. apply Hc, H2. reflexivity. }
      rewrite Hzero. split; [lia|]. intros _.
      apply history_recordOrderMapping. auto.
    + rewrite Nat.add_0_r. split; [exact H1|]. intros E.
      apply history_recordOrderMapping. right. now apply H2.
  - destruct (copiedOrder r), (cr_modifications r); simpl;
      rewrite Nat.add_0_r; auto.
Qed.

Lemma oneAtATime_run (deliveries : list (MonitorEvent * CopyEnv)) (st : BotState) :
  OneAtATimeInv st ->
  OneAtATimeInv (run copyEngine st (oneAtATime deliveries)).
Proof.
  revert st. induction deliveries as [|d ds IH]; intros st Hinv; [exact Hinv|].
  unfold oneAtATime. simpl.
  change (OneAtATimeInv
            (run copyEngine (run copyEngine st [Deliver d.1 d.2; CopySettled 0])
               (oneAtATime ds))).
  apply IH. now apply oneAtATime_step.
Qed.

(** When every handler finishes before the next event is delivered, at
    most one derived order is created for a source hash, however often its
    events are delivered. *)
Lemma at_most_once_oneAtATime (deliveries : list (MonitorEvent * CopyEnv))
    (h : string) :
  (copiesOf h (run copyEngine BotState_init (oneAtATime deliveries)) <= 1)%nat.
Proof.
  apply (oneAtATime_run deliveries BotState_init).
  split; [reflexivity|]. intros h'. unfold copiesOf. simpl.
  split; [lia|discriminate].
Qed.

End Bot.

Lemma failed_copy_leaves_ledger_unchanged_witness :
  success (copyOrder disabledEngine (acceptingEnv "0xcopy")
             (sampleOrder "0xsrc" 20000000) "0xmaker").1 = false
  /\ (handleOrderDetected RiskManager_new disabledEngine (acceptingEnv "0xcopy")
        (sampleOrder "0xsrc" 20000000) "0xmaker").1 = RiskManager_new.
Proof.
  assert (H : success (copyOrder disabledEngine (acceptingEnv "0xcopy")
                         (sampleOrder "0xsrc" 20000000) "0xmaker").1 = false)
    by reflexivity.
  split; [exact H|].
  exact (proj1 (failed_copy_leaves_ledger_unchanged disabledEngine RiskManager_new
                  (acceptingEnv "0xcopy") (sampleOrder "0xsrc" 20000000)
                  "0xmaker" H)).
Defined.

(** C1, at a failing input.  The same detected order is delivered twice
    before the first copy has settled (the handler is suspended at
    [await copyOrder]): both deliveries pass the [isOrderCopied] check, two
    derived orders are created at the exchange, and the ledger keeps the
    mapping to the first one only. *)
Theorem duplicate_delivery_copies_twice :
  let source := sampleOrder "0xsrc" 20000000 in
  let st := run sampleEngine BotState_init
              [Deliver (orderDetected source "0xmaker") (acceptingEnv "0xcopy1");
               Deliver (orderDetected source "0xmaker") (acceptingEnv "0xcopy2");
               CopySettled 0; CopySettled 0] in
  copiesOf "0xsrc" st = 2%nat
  /\ ((fun p => (p.1, orderHash p.2)) <$> derivedCreated st)
     = [("0xsrc", "0xcopy1"); ("0xsrc", "0xcopy2")]
  /\ ordersByOriginal (riskManager st) = [("0xsrc", "0xcopy1")]
  /\ isOrderCopied (riskManager st) "0xsrc" = true
  /\ inFlight st = [].
Proof. vm_compute. repeat split; reflexivity. Qed.

(** The same two deliveries, each handled to its end before the next,
    create one derived order. *)
Example duplicate_delivery_oneAtATime :
  let source := sampleOrder "0xsrc" 20000000 in
  let st := run sampleEngine BotState_init
              (oneAtATime
                 [(orderDetected source "0xmaker", acceptingEnv "0xcopy1");
                  (orderDetected source "0xmaker", acceptingEnv "0xcopy2")]) in
  copiesOf "0xsrc" st = 1%nat
  /\ ordersByOriginal (riskManager st) = [("0xsrc", "0xcopy1")].
Proof. vm_compute. split; reflexivity. Qed.

(** ** The ledger holds one mapping per source hash *)

Section Mappings.

Lemma Map_set_keys (k v : string) (m : list (string * string)) :
  (Map_set k v m).*1 = if bool_decide (k ∈ m.*1) then m.*1 else app m.*1 [k].
Proof.
  induction m as [|[k' v'] m IH]; [reflexivity|].
  cbn [Map_set]. destruct (decide (k' = k)) as [->|Hne]; rewrite !fmap_cons;
    cbn [fst].
  - rewrite bool_decide_eq_true_2 by (apply elem_of_cons; auto). reflexivity.
  - rewrite IH. destruct (bool_decide (k ∈ m.*1)) eqn:E.
    + apply bool_decide_eq_true in E.
      rewrite bool_decide_eq_true_2 by (apply elem_of_cons; auto). reflexivity.
    + apply bool_decide_eq_false in E.
      rewrite bool_decide_eq_false_2; [reflexivity|].
      rewrite elem_of_cons. intros [?|?]; congruence.
Qed.

Lemma Map_set_NoDup (k v : string) (m : list (string * string)) :
  NoDup m.*1 -> NoDup (Map_set k v m).*1.
Proof.
  intros Hnd. rewrite Map_set_keys.
  destruct (bool_decide (k ∈ m.*1)) eqn:E; [exact Hnd|].
  apply bool_decide_eq_false in E.
  apply NoDup_app. repeat split; auto.
  - intros x Hx Hx'. apply list_elem_of_singleton in Hx'. congruence.
  - apply NoDup_singleton.
Qed.

Lemma Map_delete_sublist (k : string) (m : list (string * string)) :
  sublist (Map_delete k m) m.
Proof.
  induction m as [|[k' v] m IH]; simpl; [constructor|].
  destruct (decide (k' = k)); [now apply sublist_cons|now apply sublist_skip].
Qed.

Lemma Map_delete_NoDup (k : string) (m : list (string * string)) :
  NoDup m.*1 -> NoDup (Map_delete k m).*1.
Proof.
  intros Hnd. eapply sublist_NoDup;
    [exact Hnd|apply fmap_sublist, Map_delete_sublist].
Qed.

Lemma applyOp_NoDup (rm : RiskManager) (op : LedgerOp) :
  NoDup (ordersByOriginal rm).*1 -> NoDup (ordersByOriginal (applyOp rm op)).*1.
Proof.
  intros Hnd. destruct op as [o h|o|h|]; simpl.
  - unfold recordOrderMapping.
    destruct (match Map_get h (ordersByOriginal rm) with
              | Some t => truthy t | None => false end); simpl;
      [exact Hnd|now apply Map_set_NoDup].
  - exact Hnd.
  - unfold removeOrder. destruct (trackedOrders rm !! h); simpl; [|exact Hnd].
    destruct (findOriginalOf h (ordersByOriginal rm));
      [now apply Map_delete_NoDup|exact Hnd].
  - constructor.
Qed.

Lemma Map_get_Some_elem (k v : string) (m : list (string * string)) :
  Map_get k m = Some v -> (k, v) ∈ m.
Proof.
  induction m as [|[k' v'] m IH]; simpl; [discriminate|].
  destruct (decide (k' = k)) as [->|Hne].
  - intros [= ->]. apply elem_of_cons. auto.
  - intros H. apply elem_of_cons. right. auto.
Qed.

Lemma Map_get_set_same (k v : string) (m : list (string * string)) :
  Map_get k (Map_set k v m) = Some v.
Proof.
  induction m as [|[k' v'] m IH]; simpl.
  - now rewrite decide_True.
  - destruct (decide (k' = k)) as [->|Hne]; simpl.
    + now rewrite decide_True.
    + now rewrite decide_False.
Qed.

(** A second [recordOrderMapping] for a source hash that is mapped to a
    non-empty derived hash changes no mapping. *)
Lemma recordOrderMapping_keeps_first (rm : RiskManager) (o : Order) (h d : string) :
  Map_get h (ordersByOriginal rm) = Some d ->
  d <> "" ->
  ordersByOriginal (recordOrderMapping rm o h) = ordersByOriginal rm.
Proof.
  intros Hget Hne. unfold recordOrderMapping. rewrite Hget.
  unfold truthy. destruct (String.eqb_spec d ""); [contradiction|reflexivity].
Qed.

(** Under every schedule of the event loop the ledger has at most one
    mapping per source hash. *)
Lemma run_mappings_NoDup (copyEngine : OrderCopyEngine) (schedule : list Step)
    (st : BotState) :
  NoDup (ordersByOriginal (riskManager st)).*1 ->
  NoDup (ordersByOriginal (riskManager (run copyEngine st schedule))).*1.
Proof.
  revert st. induction schedule as [|s schedule IH]; intros st Hnd; [exact Hnd|].
  unfold run. simpl. apply IH.
  destruct s as [[o w|o|h w|h w|h w|h w] env|n]; simpl; try exact Hnd.
  - destruct (handleOrderDetected_start _ _ _ _ _) as [[r c]|]; exact Hnd.
  - exact (applyOp_NoDup _ (OpRemoveOrder h) Hnd).
  - exact (applyOp_NoDup _ (OpRemoveOrder h) Hnd).
  - destruct (inFlight st !! n) as [[o r]|]; simpl; [|exact Hnd].
    unfold handleOrderDetected_finish.
    destruct (success r), (copiedOrder r) as [c|], (cr_modifications r);
      try exact Hnd.
    exact (applyOp_NoDup _ (OpRecordOrderMapping c (orderHash o)) Hnd).
Qed.

End Mappings.

(** ** The order monitor *)

Section Monitor.

Variable this : OrderMonitor.

Lemma sortInsert_Permutation (a : OrderUpdate) (l : list OrderUpdate) :
  Permutation (sortInsert compareUpdateTime a l) (a :: l).
Proof.
  induction l as [|b l IH]; simpl; [reflexivity|].
  destruct (sortsAfter compareUpdateTime a b); [|reflexivity].
  rewrite IH. apply perm_swap.
Qed.

(** The sort handles every update of the batch, once. *)
Lemma Array_sort_Permutation (l : list OrderUpdate) :
  Permutation (Array_sort compareUpdateTime l) l.
Proof.
  induction l as [|a l IH]; simpl; [reflexivity|].
  rewrite sortInsert_Permutation. now constructor.
Qed.

Lemma sortsAfter_time (a b : OrderUpdate) (ta tb : Z) :
  timeOf a = Some ta -> timeOf b = Some tb ->
  sortsAfter compareUpdateTime a b = (tb <? ta).
Proof.
  unfold sortsAfter, compareUpdateTime, timeOf. intros -> ->.
  destruct (tb <? ta) eqn:E.
  - apply Z.ltb_lt in E. apply Z.ltb_lt. lia.
  - apply Z.ltb_ge in E. apply Z.ltb_ge. lia.
Qed.

Lemma sortInsert_sorted (a : OrderUpdate) (l : list OrderUpdate) :
  is_Some (timeOf a) ->
  Forall (fun u => is_Some (timeOf u)) l ->
  StronglySorted notLater l ->
  StronglySorted notLater (sortInsert compareUpdateTime a l).
Proof.
  intros [ta Ha] Hall Hs. induction Hs as [|b l Hs IH Hb]; simpl.
  - repeat constructor.
  - apply Forall_cons in Hall as [[tb Htb] Hall].
    rewrite (sortsAfter_time a b ta tb) by assumption.
    destruct (tb <? ta) eqn:E.
    + apply Z.ltb_lt in E. constructor; [now apply IH|].
      rewrite sortInsert_Permutation. constructor; [|exact Hb].
      unfold notLater. rewrite Ha, Htb. lia.
    + apply Z.ltb_ge in E. constructor; [now constructor|].
      constructor; [unfold notLater; rewrite Ha, Htb; lia|].
      rewrite Forall_forall in Hb, Hall. apply Forall_forall. intros c Hc.
      destruct (Hall c Hc) as [tc Htc]. specialize (Hb c Hc).
      unfold notLater in *. rewrite Ha, Htc. rewrite Htb, Htc in Hb. lia.
Qed.

(** [processOrderUpdate] is called on the updates of a batch in ascending
    order of update time. *)
Lemma Array_sort_sorted (l : list OrderUpdate) :
  Forall (fun u => is_Some (timeOf u)) l ->
  StronglySorted notLater (Array_sort compareUpdateTime l).
Proof.
  induction l as [|a l IH]; intros Hall; simpl; [constructor|].
  apply Forall_cons in Hall as [Ha Hall].
  apply sortInsert_sorted; auto.
  now rewrite Array_sort_Permutation.
Qed.

Lemma sortInsert_stable (t : Z) (a : OrderUpdate) (l : list OrderUpdate) :
  filter (fun u => timeOf u = Some t) (sortInsert compareUpdateTime a l)
  = filter (fun u => timeOf u = Some t) (a :: l).
Proof.
  induction l as [|b l IH]; [reflexivity|].
  cbn [sortInsert]. destruct (sortsAfter compareUpdateTime a b) eqn:E;
    [|reflexivity].
  rewrite filter_cons, IH, !filter_cons.
  unfold sortsAfter, compareUpdateTime in E. fold (timeOf a) (timeOf b) in E.
  destruct (timeOf a) as [ta|], (timeOf b) as [tb|]; try discriminate.
  apply Z.ltb_lt in E.
  destruct (decide (Some tb = Some t)) as [[= ->]|Hb],
           (decide (Some ta = Some t)) as [[= ->]|Ha]; try reflexivity; lia.
Qed.

(** The sort is stable: updates with the same update time keep the order
    they have in the batch. *)
Lemma Array_sort_stable (t : Z) (l : list OrderUpdate) :
  filter (fun u => timeOf u = Some t) (Array_sort compareUpdateTime l)
  = filter (fun u => timeOf u = Some t) l.
Proof.
  induction l as [|a l IH]; [reflexivity|].
  cbn [Array_sort foldr]. change (foldr (sortInsert compareUpdateTime) [] l)
    with (Array_sort compareUpdateTime l).
  now rewrite sortInsert_stable, !filter_cons, IH.
Qed.

(** On the bot's own channel no handler is suspended: every event of the
    batch is emitted while [handleOrderMessage] runs, in the sorted
    order. *)
Lemma own_channel_never_suspends (updates : list OrderUpdate) :
  (handleOrderMessage this updates (selfWalletAddress this)).2 = [].
Proof.
  unfold handleOrderMessage.
  induction (Array_sort compareUpdateTime updates) as [|u l IH]; simpl;
    [reflexivity|].
  destruct (processOrderUpdate this u (selfWalletAddress this)) as [e s] eqn:E.
  destruct (processAll this l (selfWalletAddress this)) as [e' s'].
  simpl in *. subst s'. rewrite app_nil_r.
  unfold processOrderUpdate, handleNewOrder, handleOrderCancelled_monitor,
    handleOrderFilled_monitor in E.
  rewrite (bool_decide_eq_true_2
             (selfWalletAddress this = selfWalletAddress this) eq_refl) in E.
  destruct (status u); try (injection E as <- <-; reflexivity).
  destruct (negb _); injection E as <- <-; reflexivity.
Qed.

Local Ltac active_leaf :=
  split; [intros ?|split; [intros ? ?|split;
    [intros e He|split; [intros ? ?|intros ? ? ? ?]]]];
  try congruence; try reflexivity.

(** C5.  Classification of a processed update: INACTIVE gives one
    cancellation event and FILLED one fill event; ACTIVE gives no event at
    all unless [pendingFillAmount] is "0"; on the bot's own channel it
    then gives the own-order event, and on a monitored channel it gives
    the copy-candidate event only if moreover [fillAmount] is "0" (and the
    filters pass). *)
Theorem classification (update : OrderUpdate) (w : string) (passed : bool) :
  let o := order update in
  let emitted :=
    app (processOrderUpdate this update w).1
      (flat_map (handleNewOrder_resume passed)
         (processOrderUpdate this update w).2) in
  match status update with
  | INACTIVE =>
      emitted = [if decide (w = selfWalletAddress this)
                 then ownOrderCancelled (orderHash o) w
                 else orderCancelled (orderHash o) w]
  | FILLED =>
      emitted = [if decide (w = selfWalletAddress this)
                 then ownOrderFilled (orderHash o) w
                 else orderFilled (orderHash o) w]
  | ACTIVE =>
      (pendingFillAmount o <> Some "0" -> emitted = [])
      /\ (w <> selfWalletAddress this -> fillAmount o <> "0" -> emitted = [])
      /\ (forall e, e ∈ emitted ->
            pendingFillAmount o = Some "0"
            /\ if decide (w = selfWalletAddress this)
               then e = ownOrderDetected o
               else fillAmount o = "0" /\ passed = true
                    /\ e = orderDetected o w)
      /\ (pendingFillAmount o = Some "0" -> w = selfWalletAddress this ->
          emitted = [ownOrderDetected o])
      /\ (pendingFillAmount o = Some "0" -> w <> selfWalletAddress this ->
          fillAmount o = "0" -> passed = true ->
          emitted = [orderDetected o w])
  end.
Proof.
  intros o emitted. subst emitted.
  unfold processOrderUpdate, handleOrderCancelled_monitor,
    handleOrderFilled_monitor, handleNewOrder. fold o.
  destruct (status update); simpl.
  - (* ACTIVE *)
    destruct (decide (pendingFillAmount o = Some "0")) as [Hp|Hp];
      [rewrite (bool_decide_eq_true_2 _ Hp)
      |rewrite (bool_decide_eq_false_2 _ Hp)]; simpl.
    2: { active_leaf; inversion He. }
    destruct (decide (w = selfWalletAddress this)) as [Hw|Hw];
      [rewrite (bool_decide_eq_true_2 _ Hw)
      |rewrite (bool_decide_eq_false_2 _ Hw)]; simpl.
    { active_leaf. apply list_elem_of_singleton in He. auto. }
    destruct (decide (fillAmount o = "0")) as [Hf|Hf];
      [rewrite (bool_decide_eq_true_2 _ Hf)
      |rewrite (bool_decide_eq_false_2 _ Hf)]; simpl.
    2: { active_leaf; inversion He. }
    destruct passed; simpl.
    + active_leaf. apply list_elem_of_singleton in He. auto.
    + active_leaf; inversion He.
  - destruct (decide (w = selfWalletAddress this)) as [Hw|Hw].
    + now rewrite (bool_decide_eq_true_2 _ Hw).
    + now rewrite (bool_decide_eq_false_2 _ Hw).
  - destruct (decide (w = selfWalletAddress this)) as [Hw|Hw].
    + now rewrite (bool_decide_eq_true_2 _ Hw).
    + now rewrite (bool_decide_eq_false_2 _ Hw).
Qed.

End Monitor.

Lemma classification_witness :
  let update := {| status := ACTIVE; order := sampleOrder "0xsrc" 20000000 |} in
  pendingFillAmount (order update) = Some "0"
  /\ "0xmaker" <> selfWalletAddress sampleMonitor
  /\ fillAmount (order update) = "0"
  /\ app (processOrderUpdate sampleMonitor update "0xmaker").1
       (flat_map (handleNewOrder_resume true)
          (processOrderUpdate sampleMonitor update "0xmaker").2)
     = [orderDetected (order update) "0xmaker"].
Proof.
  intros update.
  assert (Hp : pendingFillAmount (order update) = Some "0") by reflexivity.
  assert (Hw : "0xmaker" <> selfWalletAddress sampleMonitor) by discriminate.
  assert (Hf : fillAmount (order update) = "0") by reflexivity.
  split; [exact Hp|]. split; [exact Hw|]. split; [exact Hf|].
  pose proof (classification sampleMonitor update "0xmaker" true) as H.
  simpl in H. destruct H as (_ & _ & _ & _ & H).
  exact (H Hp Hw Hf eq_refl).
Defined.

(** C4, at a failing input.  A batch from a monitored wallet holds an
    ACTIVE update (time 1) and the INACTIVE update of the same order
    (time 2).  The sort puts them in time order and [processOrderUpdate] is
    called in that order, but the ACTIVE handler is suspended at
    [await applyFilters] and the loop goes on: the cancellation event of
    the later update is emitted before the candidate event of the earlier
    one. *)
Theorem cancellation_overtakes_detection :
  let created := {| status := ACTIVE; order := sampleOrderAt "0xsrc" 20000000 1 |} in
  let cancelled := {| status := INACTIVE; order := sampleOrderAt "0xsrc" 20000000 2 |} in
  Array_sort compareUpdateTime [cancelled; created] = [created; cancelled]
  /\ handleOrderMessage sampleMonitor [cancelled; created] "0xmaker"
     = ([orderCancelled "0xsrc" "0xmaker"],
        [AwaitFilters (order created) "0xmaker"])
  /\ emittedForMessage sampleMonitor (fun _ => true) [cancelled; created] "0xmaker"
     = [orderCancelled "0xsrc" "0xmaker";
        orderDetected (order created) "0xmaker"].
Proof. vm_compute. repeat split; reflexivity. Qed.

(** ** The connection manager *)

Section Connection.

Lemma Set_add_fresh (x : string) (s : list string) :
  x ∉ s -> Set_add x s = app s [x].
Proof. intros H. unfold Set_add. now rewrite bool_decide_eq_false_2. Qed.

(** The loop re-registers the channels one after the other, behind those
    registered so far. *)
Lemma resubscribeLoop_spec (channels : list string) (this : WebSocketClient) :
  client this = true ->
  NoDup (app (subscribedChannels this) channels) ->
  resubscribeLoop this channels
  = (ws_update this true (reconnectAttempts this) (connectionState this)
       (app (subscribedChannels this) channels),
     ChannelGet <$> channels).
Proof.
  revert this. induction channels as [|c cs IH]; intros this Hc Hnd; simpl.
  - rewrite app_nil_r. destruct this; simpl in *. now subst.
  - unfold subscribe. rewrite Hc. simpl.
    assert (Hfresh : c ∉ subscribedChannels this).
    { apply NoDup_app in Hnd as (_ & Hd & _). intros Hin.
      apply (Hd c Hin). apply elem_of_cons. auto. }
    rewrite (Set_add_fresh _ _ Hfresh).
    rewrite IH; simpl; [|reflexivity|now rewrite <- app_assoc].
    unfold ws_update. simpl. now rewrite <- app_assoc.
Qed.

Lemma resubscribeChannels_spec (this : WebSocketClient) :
  client this = true ->
  NoDup (subscribedChannels this) ->
  resubscribeChannels this
  = (ws_update this true (reconnectAttempts this) (connectionState this)
       (subscribedChannels this),
     ChannelGet <$> subscribedChannels this).
Proof.
  intros Hc Hnd. unfold resubscribeChannels. rewrite Hc.
  destruct (length (subscribedChannels this) =? 0)%nat eqn:E;
    cbn [negb orb].
  - apply Nat.eqb_eq, nil_length_inv in E. rewrite E.
    destruct this; simpl in *. now subst.
  - rewrite resubscribeLoop_spec; [reflexivity|reflexivity|exact Hnd].
Qed.

(** C3, as stated: when the "connected" notification is emitted, every
    previously registered channel has been re-subscribed.  It fails for a
    client with three registered channels: the notification is the first
    thing the handler does, before any channel is re-subscribed. *)
Lemma connected_after_resubscription_counterexample :
  ~ (forall (this : WebSocketClient) (c : string) (before after : list WsCall),
       client this = true ->
       c ∈ subscribedChannels this ->
       (onConnected this).2 = app before (Emit "connected" :: after) ->
       ChannelGet c ∈ before).
Proof.
  intros H.
  specialize (H (sampleClient ["orders:a"; "orders:b"; "orders:c"]) "orders:a" []
                [ChannelGet "orders:a"; ChannelGet "orders:b"; ChannelGet "orders:c"]
                eq_refl).
  apply elem_of_nil in H; [exact H| |reflexivity].
  apply elem_of_cons. auto.
Qed.

(** C3, amended.  On a "connected" event of the transport the client
    reports "connected" to its consumers first and re-subscribes the
    previously registered channels afterwards, every one of them and in
    the order of registration; the session is then connected, the attempt
    counter is zero and the same channels are registered. *)
Theorem onConnected_emits_then_resubscribes (this : WebSocketClient) :
  client this = true ->
  NoDup (subscribedChannels this) ->
  (onConnected this).2
  = Emit "connected" :: (ChannelGet <$> subscribedChannels this)
  /\ subscribedChannels (onConnected this).1 = subscribedChannels this
  /\ connectionState (onConnected this).1 = connected
  /\ reconnectAttempts (onConnected this).1 = 0%nat.
Proof.
  intros Hc Hnd. unfold onConnected.
  rewrite resubscribeChannels_spec by (simpl; assumption). simpl. auto.
Qed.

Lemma onConnected_emits_then_resubscribes_witness :
  (onConnected (sampleClient ["orders:a"; "orders:b"; "orders:c"])).2
  = [Emit "connected"; ChannelGet "orders:a"; ChannelGet "orders:b";
     ChannelGet "orders:c"]
  /\ subscribedChannels
       (onConnected (sampleClient ["orders:a"; "orders:b"; "orders:c"])).1
     = ["orders:a"; "orders:b"; "orders:c"].
Proof.
  assert (Hnd : NoDup (subscribedChannels
                         (sampleClient ["orders:a"; "orders:b"; "orders:c"]))).
  { simpl. repeat constructor; rewrite ?elem_of_cons, ?elem_of_nil;
      intros H; repeat destruct H as [H|H]; try discriminate; auto. }
  destruct (onConnected_emits_then_resubscribes
              (sampleClient ["orders:a"; "orders:b"; "orders:c"]) eq_refl Hnd)
    as (H1 & H2 & _).
  split; [exact H1|exact H2].
Defined.

(** A successful [connect] reports "connected" and re-subscribes nothing. *)
Lemma connect_emits_connected (this : WebSocketClient) :
  client this = false ->
  connect this TransportConnected
  = (Ok tt, ws_update this true 0%nat connected (subscribedChannels this),
     [SetTimeout RejectConnection 30000; ClearTimeout; Emit "connected"]).
Proof. intros Hc. unfold connect. now rewrite Hc. Qed.

(** What the loop of [disconnect] keeps and what it removes. *)
Lemma unsubscribeAll_shape (channels : list string) (this : WebSocketClient)
    (detach : string -> Result unit) :
  client this = true ->
  let '(result, this', calls) := unsubscribeAll this channels detach in
  client this' = true
  /\ reconnectAttempts this' = reconnectAttempts this
  /\ maxRetries this' = maxRetries this
  /\ reconnectInterval this' = reconnectInterval this
  /\ connectionState this' = connectionState this
  /\ forallb isTeardown calls = true
  /\ (ClientClose ∉ calls)
  /\ sublist (subscribedChannels this') (subscribedChannels this)
  /\ (forall c, c ∈ subscribedChannels this -> isThrow (detach c) = true ->
        c ∈ subscribedChannels this')
  /\ (result = Ok tt ->
      forall c, c ∈ channels -> c ∉ subscribedChannels this')
  /\ ((exists c, c ∈ channels /\ isThrow (detach c) = true) ->
      isThrow result = true)
  /\ ((forall c, c ∈ channels -> detach c = Ok tt) -> result = Ok tt).
Proof.
  revert this. induction channels as [|c cs IH]; intros this Hc.
  - cbn [unsubscribeAll]. split; [exact Hc|]. repeat (split; [reflexivity|]).
    split; [apply not_elem_of_nil|]. split; [reflexivity|]. split; [auto|].
    split; [intros _ c Hin; now apply elem_of_nil in Hin|].
    split; [intros (c & Hin & _); now apply elem_of_nil in Hin|reflexivity].
  - cbn [unsubscribeAll]. unfold unsubscribe. rewrite Hc. cbn [negb].
    destruct (detach c) as [[]|message] eqn:Hd.
    + set (this1 := ws_update this true (reconnectAttempts this)
                      (connectionState this)
                      (Set_delete c (subscribedChannels this))).
      specialize (IH this1 eq_refl).
      destruct (unsubscribeAll this1 cs detach) as [[result this'] calls'].
      destruct IH as (I1 & I2 & I3 & I4 & I5 & I6 & I7 & I8 & I9 & I10 & I11 & I12).
      cbn [client reconnectAttempts maxRetries reconnectInterval
             connectionState subscribedChannels ws_update this1] in *.
      split; [exact I1|]. split; [exact I2|]. split; [exact I3|].
      split; [exact I4|]. split; [exact I5|].
      split; [cbn [app forallb isTeardown andb]; exact I6|].
      split.
      { cbn [app]. rewrite !not_elem_of_cons. repeat split; try discriminate.
        exact I7. }
      split.
      { etransitivity; [exact I8|]. unfold Set_delete. apply sublist_filter. }
      split.
      { intros x Hx Hthrow. apply I9; [|exact Hthrow].
        unfold Set_delete. apply list_elem_of_filter. split; [|exact Hx].
        intros ->. rewrite Hd in Hthrow. discriminate. }
      split.
      { intros Hok x Hx. apply elem_of_cons in Hx as [->|Hx]; [|now apply I10].
        intros Hin. assert (Hin' : c ∈ Set_delete c (subscribedChannels this)).
        { eapply elem_of_sublist; [exact Hin|exact I8]. }
        unfold Set_delete in Hin'. apply list_elem_of_filter in Hin' as [Hne _].
        now apply Hne. }
      split.
      { intros (x & Hx & Hthrow). apply I11.
        apply elem_of_cons in Hx as [->|Hx]; [|eauto].
        rewrite Hd in Hthrow. discriminate. }
      intros Hall. apply I12. intros x Hx. apply Hall. now right.
    + cbn [client reconnectAttempts maxRetries reconnectInterval
             connectionState subscribedChannels].
      split; [exact Hc|]. repeat (split; [reflexivity|]).
      split.
      { rewrite !not_elem_of_cons. repeat split; try discriminate.
        apply not_elem_of_nil. }
      split; [reflexivity|]. split; [auto|]. split; [discriminate|].
      split; [reflexivity|].
      intros Hall. specialize (Hall c ltac:(left)). congruence.
Qed.

(** [disconnect] unsubscribes every channel when no detach rejects: the
    [connect] that follows it in [reconnect] finds no registered
    channel. *)
Lemma disconnect_forgets_channels (this : WebSocketClient)
    (detach : string -> Result unit) :
  client this = true ->
  (forall c, c ∈ subscribedChannels this -> detach c = Ok tt) ->
  (disconnect this detach).1.1 = Ok tt
  /\ subscribedChannels (disconnect this detach).1.2 = []
  /\ client (disconnect this detach).1.2 = false.
Proof.
  intros Hc Hall. unfold disconnect. rewrite Hc. cbn [negb].
  pose proof (unsubscribeAll_shape (subscribedChannels this) this detach Hc) as H.
  destruct (unsubscribeAll this (subscribedChannels this) detach)
    as [[result this'] calls].
  destruct H as (_ & _ & _ & _ & _ & _ & _ & Hsub & _ & Hgone & _ & Hok).
  rewrite (Hok Hall) in *. cbn. split; [reflexivity|]. split; [|reflexivity].
  destruct (subscribedChannels this') as [|x xs] eqn:E; [reflexivity|].
  exfalso. apply (Hgone eq_refl x).
  - eapply elem_of_sublist; [|exact Hsub]. now left.
  - now left.
Qed.

End Connection.

(** * Further properties *)

(** ** The quantization library, continued *)

Section QuantizationMore.

Lemma ladderStep_positive_mod (odds : Z) (stepSize : number) (step : Z) :
  ladderStep stepSize = Ok step ->
  0 < step ->
  isOnOddsLadder odds stepSize = (odds mod step =? 0).
Proof.
  intros Hs Hpos. unfold isOnOddsLadder. rewrite Hs. simpl. unfold BigNumber_mod.
  replace (step <? 0) with false by (symmetry; apply Z.ltb_ge; lia).
  replace (step =? 0) with false by (symmetry; apply Z.eqb_neq; lia).
  reflexivity.
Qed.

(** Whoever is on the ladder has a positive whole rung. *)
Lemma isOnOddsLadder_true (odds : Z) (stepSize : number) :
  isOnOddsLadder odds stepSize = true ->
  exists step, ladderStep stepSize = Ok step /\ 0 < step /\ odds mod step = 0.
Proof.
  unfold isOnOddsLadder.
  destruct (ladderStep stepSize) as [step|] eqn:Hs; simpl; [|discriminate].
  unfold BigNumber_mod.
  destruct (step <? 0) eqn:E1; simpl; [discriminate|].
  destruct (step =? 0) eqn:E2; simpl; [discriminate|].
  intros H. exists step. apply Z.ltb_ge in E1. apply Z.eqb_neq in E2.
  apply Z.eqb_eq in H. repeat split; auto; lia.
Qed.

(** X1.  With a positive whole rung, [roundOddsToLadder] rounds a
    non-negative price down: the result is not above the price, less than
    one rung below it, and on the ladder. *)
Theorem roundOddsToLadder_rounds_down (odds : Z) (stepSize : number) (step r : Z) :
  ladderStep stepSize = Ok step ->
  0 < step ->
  0 <= odds ->
  roundOddsToLadder odds stepSize = Ok r ->
  0 <= r <= odds /\ odds - r < step /\ isOnOddsLadder r stepSize = true.
Proof. apply roundOddsToLadder_down. Qed.

Lemma roundOddsToLadder_rounds_down_witness :
  0 <= 50000000000000000000 <= 50123456789012345678
  /\ 50123456789012345678 - 50000000000000000000 < 125000000000000000
  /\ isOnOddsLadder 50000000000000000000 DEFAULT_LADDER_STEP = true.
Proof.
  apply (roundOddsToLadder_rounds_down 50123456789012345678 DEFAULT_LADDER_STEP
           125000000000000000 50000000000000000000);
    [reflexivity|lia|lia|vm_compute; reflexivity].
Defined.

(** X2.  The prices on the ladder are the fixed points of the rounding:
    with a positive whole rung, [isOnOddsLadder] holds of a price exactly
    when [roundOddsToLadder] gives the price back. *)
Theorem isOnOddsLadder_iff_fixed_point (odds : Z) (stepSize : number) (step : Z) :
  ladderStep stepSize = Ok step ->
  0 < step ->
  isOnOddsLadder odds stepSize = true <-> roundOddsToLadder odds stepSize = Ok odds.
Proof.
  intros Hs Hpos.
  rewrite (ladderStep_positive_mod odds stepSize step Hs Hpos).
  rewrite (roundOddsToLadder_total odds stepSize step Hs) by lia.
  rewrite Z.eqb_eq. split.
  - intros Hm. f_equal.
    assert (Hq : exists q, odds = q * step).
    { exists (odds / step). rewrite Z.mul_comm. apply Z.div_exact; [lia|exact Hm]. }
    destruct Hq as [q ->]. now rewrite Z.quot_mul by lia.
  - intros [= Hq]. rewrite <- Hq. apply Z.mod_mul. lia.
Qed.

Lemma isOnOddsLadder_iff_fixed_point_witness :
  isOnOddsLadder 50125000000000000000 DEFAULT_LADDER_STEP = true
  <-> roundOddsToLadder 50125000000000000000 DEFAULT_LADDER_STEP
      = Ok 50125000000000000000.
Proof.
  apply (isOnOddsLadder_iff_fixed_point 50125000000000000000 DEFAULT_LADDER_STEP
           125000000000000000); [reflexivity|lia].
Defined.


Lemma Math_round_nonneg (x : number) : (0 <= x)%Q -> 0 <= Math_round x.
Proof.
  intros Hx. unfold Math_round.
  change 0 with (Qfloor 0). apply Qfloor_resp_le.
  apply Qle_trans with x; [exact Hx|].
  rewrite <- (Qplus_0_r x) at 1. apply Qplus_le_r. discriminate.
Qed.

Lemma Math_round_nonpos (x : number) : (x <= 0)%Q -> Math_round x <= 0.
Proof.
  intros Hx. unfold Math_round.
  change 0 with (Qfloor (1 # 2)). apply Qfloor_resp_le.
  rewrite <- (Qplus_0_l (1 # 2)) at 2. now apply Qplus_le_l.
Qed.

Lemma Math_round_le (x : number) (n : Z) :
  (x <= inject_Z n)%Q -> Math_round x <= n.
Proof.
  intros Hx. unfold Math_round.
  assert (H : Qfloor (x + (1 # 2)) <= Qfloor (inject_Z n + (1 # 2))).
  { apply Qfloor_resp_le. now apply Qplus_le_l. }
  assert (H' : Qfloor (inject_Z n + (1 # 2)) = n).
  { unfold Qfloor, Qplus, inject_Z. simpl.
    rewrite Z.mul_1_r. replace (n * 2 + 1) with (1 + n * 2) by ring.
    rewrite Z.div_add by lia. reflexivity. }
  lia.
Qed.

Lemma BigNumber_from_inject_Z (z : Z) :
  BigNumber_from_number (inject_Z z)
  = if (z >=? MAX_SAFE) || (z <=? - MAX_SAFE) then Throw "overflow" else Ok z.
Proof.
  unfold BigNumber_from_number. cbn [inject_Z Qnum Qden].
  rewrite Z.mod_1_r, Z.div_1_r. reflexivity.
Qed.

Lemma BigNumber_from_int (z : Z) :
  - MAX_SAFE < z < MAX_SAFE -> BigNumber_from_number (inject_Z z) = Ok z.
Proof.
  intros Hz. rewrite BigNumber_from_inject_Z.
  replace (z >=? MAX_SAFE) with false
    by (symmetry; rewrite Z.geb_leb; apply Z.leb_gt; lia).
  replace (z <=? - MAX_SAFE) with false by (symmetry; apply Z.leb_gt; lia).
  reflexivity.
Qed.

Lemma BigNumber_from_int_Ok (z v : Z) :
  BigNumber_from_number (inject_Z z) = Ok v -> v = z /\ - MAX_SAFE < z < MAX_SAFE.
Proof.
  rewrite BigNumber_from_inject_Z.
  destruct (z >=? MAX_SAFE) eqn:E1; [discriminate|].
  destruct (z <=? - MAX_SAFE) eqn:E2; [discriminate|].
  cbn [orb]. intros [= <-]. rewrite Z.geb_leb in E1.
  apply Z.leb_gt in E1, E2. split; [reflexivity|lia].
Qed.

(** What a successful [adjustOddsByPercentage] without ladder rounding
    returns. *)
Lemma adjustOddsByPercentage_Ok (p : Z) (pct stepSize : number) (r : Z) :
  adjustOddsByPercentage p pct false stepSize = Ok r ->
  0 <= p <= 10 ^ 20 /\ 0 <= r <= 10 ^ 20
  /\ r = Z.quot (p * (10000 + Math_round (pct * 100)%Q)) 10000.
Proof.
  unfold adjustOddsByPercentage.
  destruct (isValidOdds p) eqn:Hp; simpl; [|discriminate].
  unfold BigNumber_mul_number.
  destruct (BigNumber_from_number _) as [f|] eqn:Hf; simpl; [|discriminate].
  apply BigNumber_from_int_Ok in Hf as [-> _].
  destruct (isValidOdds (Z.quot _ 10000)) eqn:Hr; simpl; [|discriminate].
  intros [= <-]. apply isValidOdds_spec in Hp, Hr. auto.
Qed.

(** X3.  Without ladder rounding, a percentage adjustment moves the price
    in the direction of the percentage: a percentage of zero or more never
    lowers the maker odds, a percentage of zero or less never raises
    them. *)
Theorem adjustOddsByPercentage_direction (p : Z) (pct stepSize : number) (r : Z) :
  adjustOddsByPercentage p pct false stepSize = Ok r ->
  ((0 <= pct)%Q -> p <= r) /\ ((pct <= 0)%Q -> r <= p).
Proof.
  intros H. apply adjustOddsByPercentage_Ok in H as (Hp & _ & ->).
  assert (Hid : Z.quot (p * 10000) 10000 = p) by (apply Z.quot_mul; lia).
  split; intros Hpct.
  - assert (0 <= Math_round (pct * 100)%Q).
    { apply Math_round_nonneg. apply Qmult_le_0_compat; [exact Hpct|discriminate]. }
    rewrite <- Hid at 1. apply Z.quot_le_mono; [lia|nia].
  - assert (Math_round (pct * 100)%Q <= 0).
    { apply Math_round_nonpos.
      change (pct * 100 <= 0 * 100)%Q.
      apply Qmult_le_compat_r; [exact Hpct|discriminate]. }
    rewrite <- Hid at 2. apply Z.quot_le_mono; [lia|nia].
Qed.

Lemma adjustOddsByPercentage_direction_witness :
  adjustOddsByPercentage 50000000000000000000 10%Q false DEFAULT_LADDER_STEP
    = Ok 55000000000000000000
  /\ 50000000000000000000 <= 55000000000000000000.
Proof.
  assert (H : adjustOddsByPercentage 50000000000000000000 10%Q false
                DEFAULT_LADDER_STEP = Ok 55000000000000000000)
    by (vm_compute; reflexivity).
  split; [exact H|].
  apply (proj1 (adjustOddsByPercentage_direction _ _ _ _ H)). discriminate.
Defined.

Lemma Math_abs_inject_Z (z : Z) : Math_abs (inject_Z z) = inject_Z (Z.abs z).
Proof. reflexivity. Qed.

(** X4.  For a whole number of steps and a whole step size (both safe
    integers), [adjustOddsBySteps] on valid odds computes the signed sum
    [odds + steps * stepSize * 10^15]: it returns that sum when it lies in
    [0, 10^20], throws "would be negative" when it is below zero and "out of
    valid range" when it is above 10^20. *)
Theorem adjustOddsBySteps_exact (p steps stepSize : Z) :
  0 <= p <= 10 ^ 20 ->
  - MAX_SAFE < steps < MAX_SAFE ->
  - MAX_SAFE < stepSize < MAX_SAFE ->
  let target := p + steps * (stepSize * 10 ^ 15) in
  adjustOddsBySteps p (inject_Z steps) (inject_Z stepSize)
  = if target <? 0 then Throw "Adjusted odds would be negative"
    else if 10 ^ 20 <? target then Throw "Adjusted odds out of valid range"
    else Ok target.
Proof.
  intros Hp Hs Hk target. unfold adjustOddsBySteps.
  rewrite (proj2 (isValidOdds_spec p) Hp). cbn [negb].
  unfold ladderStep, BigNumber_mul_number.
  rewrite (BigNumber_from_int stepSize Hk). cbn [mbind Result_bind].
  rewrite Math_abs_inject_Z, BigNumber_from_int by lia. cbn [mbind Result_bind].
  rewrite num_ge_0. cbn [Qnum inject_Z].
  assert (Ht : (if 0 <=? steps
                then p + 10 ^ 15 * stepSize * Z.abs steps
                else p - 10 ^ 15 * stepSize * Z.abs steps) = target).
  { unfold target. destruct (0 <=? steps) eqn:E.
    - apply Z.leb_le in E. rewrite Z.abs_eq by lia. ring.
    - apply Z.leb_gt in E. rewrite Z.abs_neq by lia. ring. }
  rewrite Ht. destruct (target <? 0) eqn:E1; [reflexivity|].
  apply Z.ltb_ge in E1. unfold isValidOdds, ODDS_PRECISION.
  replace (target >=? 0) with true by (symmetry; apply Z.geb_le; lia). simpl.
  rewrite Z.leb_antisym. now destruct (10 ^ 20 <? target).
Qed.

Lemma adjustOddsBySteps_exact_witness :
  adjustOddsBySteps 50000000000000000000 (inject_Z (-1)) (inject_Z 125)
  = Ok 49875000000000000000.
Proof.
  apply (adjustOddsBySteps_exact 50000000000000000000 (-1) 125);
    unfold MAX_SAFE; lia.
Defined.

(** X5.  A step adjustment of a price on the ladder lands on the ladder. *)
Theorem adjustOddsBySteps_keeps_ladder (p : Z) (steps stepSize : number) (r : Z) :
  isOnOddsLadder p stepSize = true ->
  adjustOddsBySteps p steps stepSize = Ok r ->
  isOnOddsLadder r stepSize = true.
Proof.
  intros Hon Hadj.
  apply isOnOddsLadder_true in Hon as (step & Hs & Hpos & Hm).
  apply adjustOddsBySteps_Ok in Hadj as (sv & a & Hsv & _ & -> & _ & _).
  rewrite Hs in Hsv. injection Hsv as <-.
  rewrite (ladderStep_positive_mod _ stepSize step Hs Hpos).
  apply Z.eqb_eq.
  destruct (0 <=? Qnum steps).
  - rewrite Z.mul_comm, Z.mod_add by lia. exact Hm.
  - replace (p - step * a) with (p + (- a) * step) by ring.
    rewrite Z.mod_add by lia. exact Hm.
Qed.

Lemma adjustOddsBySteps_keeps_ladder_witness :
  isOnOddsLadder 50125000000000000000 DEFAULT_LADDER_STEP = true.
Proof.
  apply (adjustOddsBySteps_keeps_ladder 50000000000000000000 1%Q
           DEFAULT_LADDER_STEP 50125000000000000000);
    vm_compute; reflexivity.
Defined.

(** X6.  [adjustStakeByPercentage] succeeds for every stake and every
    percentage from 0 to 1000 and throws for every other percentage; the
    adjusted stake of a non-negative stake lies between zero and ten times
    the stake; for a whole percentage [n] it is the stake times [n]
    divided by 100, truncated.  (The product [percentage * 100] of a whole
    percentage is exact in doubles, and the bounds hold of every rounding
    of the product that keeps the order.) *)
Theorem adjustStakeByPercentage_total (stake : Z) (pct : number) :
  ((0 <= pct)%Q /\ (pct <= 1000)%Q ->
   exists r, adjustStakeByPercentage stake pct = Ok r
             /\ (0 <= stake -> 0 <= r <= 10 * stake))
  /\ (~ ((0 <= pct)%Q /\ (pct <= 1000)%Q) ->
      adjustStakeByPercentage stake pct
      = Throw "Percentage must be between 0 and 1000")
  /\ (forall n : Z, 0 <= n <= 1000 ->
      adjustStakeByPercentage stake (inject_Z n) = Ok (Z.quot (stake * n) 100)).
Proof.
  assert (Hin : (0 <= pct)%Q /\ (pct <= 1000)%Q ->
                adjustStakeByPercentage stake pct
                = Ok (Z.quot (stake * Math_round (pct * 100)%Q) 10000)
                /\ 0 <= Math_round (pct * 100)%Q <= 100000).
  { intros [H0 H1000]. unfold adjustStakeByPercentage, num_lt, num_gt.
    pose proof (proj2 (Qle_bool_iff _ _) H0) as E0.
    pose proof (proj2 (Qle_bool_iff _ _) H1000) as E1.
    rewrite E0, E1. cbn [negb orb].
    assert (Hlo : 0 <= Math_round (pct * 100)%Q).
    { apply Math_round_nonneg. apply Qmult_le_0_compat; [exact H0|discriminate]. }
    assert (Hhi : Math_round (pct * 100)%Q <= 100000).
    { apply Math_round_le. change (inject_Z 100000) with (1000 * 100)%Q.
      apply Qmult_le_compat_r; [exact H1000|discriminate]. }
    unfold BigNumber_mul_number.
    rewrite BigNumber_from_int by (unfold MAX_SAFE; lia). cbn [mbind Result_bind].
    unfold BigNumber_div. cbn [Z.eqb]. split; [reflexivity|lia]. }
  split; [|split].
  - intros Hpct. destruct (Hin Hpct) as [Hr [Hlo Hhi]].
    eexists. split; [exact Hr|].
    intros Hstake. split.
    + apply Z.quot_pos; nia.
    + replace (10 * stake) with (Z.quot (10 * stake * 10000) 10000)
        by (apply Z.quot_mul; lia).
      apply Z.quot_le_mono; [lia|nia].
  - intros Hnot. unfold adjustStakeByPercentage, num_lt, num_gt.
    destruct (Qle_bool 0 pct) eqn:E0; simpl; [|reflexivity].
    destruct (Qle_bool pct 1000) eqn:E1; simpl; [|reflexivity].
    exfalso. apply Hnot. split; now apply Qle_bool_iff.
  - intros n Hn. clear Hin.
    unfold adjustStakeByPercentage, num_lt, num_gt.
    assert (E0 : Qle_bool 0 (inject_Z n) = true).
    { apply Qle_bool_iff. unfold Qle. simpl. lia. }
    assert (E1 : Qle_bool (inject_Z n) 1000 = true).
    { apply Qle_bool_iff. unfold Qle. simpl. lia. }
    rewrite E0, E1. cbn [negb orb].
    assert (Hbps : Math_round (inject_Z n * 100)%Q = n * 100).
    { unfold Math_round, Qfloor, Qplus, Qmult, inject_Z. cbn [Qnum Qden].
      symmetry. apply Z.div_unique with (r := 1); lia. }
    rewrite Hbps. unfold BigNumber_mul_number.
    rewrite BigNumber_from_int by (unfold MAX_SAFE; lia). cbn [mbind Result_bind].
    unfold BigNumber_div. cbn [Z.eqb]. f_equal.
    replace (stake * (n * 100)) with (stake * n * 100) by lia.
    change 10000 with (100 * 100). apply Z.quot_mul_cancel_r; lia.
Qed.

Lemma adjustStakeByPercentage_total_witness :
  exists r, adjustStakeByPercentage 1234567 25%Q = Ok r
            /\ 0 <= r <= 10 * 1234567 /\ r = Z.quot (1234567 * 25) 100.
Proof.
  destruct (adjustStakeByPercentage_total 1234567 25%Q) as (Hin & _ & Hn).
  destruct Hin as (r & Hr & Hb); [split; unfold Qle; simpl; lia|].
  exists r. split; [exact Hr|]. split; [apply Hb; lia|].
  specialize (Hn 25 ltac:(lia)). change (inject_Z 25) with 25%Q in Hn.
  congruence.
Defined.

(** The taker odds are the complement of the maker odds to 10^20:
    taking the complement twice gives the maker odds back, and the
    complement of valid odds is valid. *)
Lemma getTakerOdds_complement (makerOdds : Z) :
  makerOdds + getTakerOdds makerOdds = 10 ^ 20
  /\ getTakerOdds (getTakerOdds makerOdds) = makerOdds
  /\ isValidOdds (getTakerOdds makerOdds) = isValidOdds makerOdds.
Proof.
  unfold getTakerOdds, ODDS_PRECISION. repeat split; try lia.
  unfold isValidOdds, ODDS_PRECISION.
  destruct (makerOdds >=? 0) eqn:E1, (makerOdds <=? 10 ^ 20) eqn:E2;
    rewrite ?Z.geb_leb in *; rewrite ?Z.leb_le, ?Z.leb_gt in *; simpl;
    apply eq_true_iff_eq || idtac.
  all: rewrite ?andb_true_iff, ?andb_false_iff, ?Z.geb_leb, ?Z.leb_le, ?Z.leb_gt; lia.
Qed.

(** X7.  [toWei] never returns an amount at or beyond the safe integers
    (2^53 - 1): it throws "overflow" whenever the scaled amount reaches
    them, as it does for one whole token of 18 decimals. *)
Theorem toWei_safe_range (amount : number) (decimals : Z) :
  (forall w, toWei amount decimals = Ok w -> - MAX_SAFE < w < MAX_SAFE)
  /\ ((inject_Z MAX_SAFE <= amount * Qpower (inject_Z 10) decimals)%Q ->
      toWei amount decimals = Throw "overflow").
Proof.
  unfold toWei, Math_floor. set (x := (amount * _)%Q). split.
  - intros w Hw. now apply BigNumber_from_int_Ok in Hw as [-> Hs].
  - intros Hx. apply Qfloor_resp_le in Hx. rewrite Qfloor_Z in Hx.
    rewrite BigNumber_from_inject_Z.
    replace (Qfloor x >=? MAX_SAFE) with true
      by (symmetry; rewrite Z.geb_leb; apply Z.leb_le; lia).
    reflexivity.
Qed.

Lemma toWei_safe_range_witness :
  toWei 20%Q 6 = Ok 20000000
  /\ - MAX_SAFE < 20000000 < MAX_SAFE
  /\ toWei 1%Q 18 = Throw "overflow".
Proof.
  assert (H : toWei 20%Q 6 = Ok 20000000) by (vm_compute; reflexivity).
  split; [exact H|]. split.
  - exact (proj1 (toWei_safe_range 20%Q 6) _ H).
  - apply (proj2 (toWei_safe_range 1%Q 18)). vm_compute. discriminate.
Defined.

End QuantizationMore.

(** ** The copy engine, continued *)

Section CopyEngineMore.

Lemma roundOddsToLadder_within (a : Z) (stepSize : number) (r : Z) :
  roundOddsToLadder a stepSize = Ok r -> 0 <= a -> 0 <= r <= a.
Proof.
  intros Hr Ha. apply roundOddsToLadder_Ok in Hr as (step & _ & Hnz & ->).
  destruct (Z.lt_trichotomy step 0) as [Hneg|[Hz|Hpos]]; [|contradiction|].
  - replace (Z.quot a step * step) with (- step * Z.quot a (- step)).
    + split; [apply Z.mul_nonneg_nonneg; [lia|apply Z.quot_pos; lia]
             |apply Z.mul_quot_le; lia].
    + rewrite Z.quot_opp_r by lia. ring.
  - rewrite Z.mul_comm.
    split; [apply Z.mul_nonneg_nonneg; [lia|apply Z.quot_pos; lia]
           |apply Z.mul_quot_le; lia].
Qed.

Lemma adjustOddsByPercentage_valid (p : Z) (pct : number) (ensureLadder : bool)
    (stepSize : number) (r : Z) :
  adjustOddsByPercentage p pct ensureLadder stepSize = Ok r ->
  isValidOdds r = true.
Proof.
  unfold adjustOddsByPercentage.
  destruct (isValidOdds p); cbn [negb]; [|discriminate].
  destruct (BigNumber_mul_number _ _) as [m|]; cbn [mbind Result_bind];
    [|discriminate].
  destruct (BigNumber_div m 10000) as [adjusted|]; cbn [mbind Result_bind];
    [|discriminate].
  destruct (if ensureLadder then _ else _) as [res|]; cbn [mbind Result_bind];
    [|discriminate].
  destruct (isValidOdds res) eqn:E; cbn [negb]; [|discriminate].
  now intros [= <-].
Qed.

(** X8.  The odds that [adjustOdds] returns are valid odds (in [0, 10^20])
    whenever the source odds are valid; for the methods "percentage" and
    "fixed" they are valid whatever the source odds. *)
Theorem adjustOdds_valid (this : OrderCopyEngine) (originalOdds r : Z) :
  (odds_method (oddsAdjustment (config this)) = odds_none ->
   isValidOdds originalOdds = true) ->
  adjustOdds this originalOdds = Ok r ->
  isValidOdds r = true.
Proof.
  intros Hnone. unfold adjustOdds.
  set (first := match odds_method _ with
                | odds_percentage => _ | odds_fixed => _ | odds_none => _ end).
  assert (Hfirst : forall a, first = Ok a -> isValidOdds a = true).
  { intros a. subst first. destruct (odds_method _).
    - apply adjustOddsByPercentage_valid.
    - intros H. now apply adjustOddsBySteps_Ok in H as (_ & _ & _ & _ & _ & _ & H).
    - intros [= <-]. now apply Hnone. }
  destruct first as [a|]; cbn [mbind Result_bind]; [|discriminate].
  specialize (Hfirst a eq_refl).
  destruct (ensureLadderCompliance _ && negb (isOnOddsLadder a _)).
  - intros Hr. apply isValidOdds_spec in Hfirst.
    apply roundOddsToLadder_within in Hr; [|lia].
    apply isValidOdds_spec. lia.
  - now intros [= <-].
Qed.

Lemma adjustOdds_valid_witness :
  let engine method value :=
    {| config :=
         {| enabled := true; copyDelay := 0%Q;
            oddsAdjustment :=
              {| odds_method := method; odds_value := value;
                 ensureLadderCompliance := true |};
            stakeAdjustment := stakeAdjustment sampleConfig;
            autoCancelOnSource := true |};
       metadata := metadata sampleEngine;
       ladderStepSize := 125%Q;
       baseToken := "0xusdc" |} in
  (adjustOdds (engine odds_percentage 3%Q) 50123456789012345678
   = Ok 51625000000000000000
   /\ isValidOdds 51625000000000000000 = true)
  /\ (adjustOdds (engine odds_fixed (-2)%Q) 50250000000000000000
      = Ok 50000000000000000000
      /\ isValidOdds 50000000000000000000 = true).
Proof.
  intros engine.
  assert (H1 : adjustOdds (engine odds_percentage 3%Q) 50123456789012345678
               = Ok 51625000000000000000) by (vm_compute; reflexivity).
  assert (H2 : adjustOdds (engine odds_fixed (-2)%Q) 50250000000000000000
               = Ok 50000000000000000000) by (vm_compute; reflexivity).
  split; (split; [assumption|]).
  - apply (adjustOdds_valid (engine odds_percentage 3%Q) 50123456789012345678
             51625000000000000000); [intros H; discriminate H|exact H1].
  - apply (adjustOdds_valid (engine odds_fixed (-2)%Q) 50250000000000000000
             50000000000000000000); [intros H; discriminate H|exact H2].
Defined.

(** X9.  With ladder compliance switched on and a positive whole rung,
    the odds that [adjustOdds] returns are on the ladder, whichever the
    adjustment method. *)
Theorem adjustOdds_on_ladder (this : OrderCopyEngine) (originalOdds r step : Z) :
  ensureLadderCompliance (oddsAdjustment (config this)) = true ->
  ladderStep (ladderStepSize this) = Ok step ->
  0 < step ->
  adjustOdds this originalOdds = Ok r ->
  isOnOddsLadder r (ladderStepSize this) = true.
Proof.
  intros Hen Hs Hpos. unfold adjustOdds. rewrite Hen.
  destruct (match odds_method _ with
            | odds_percentage => _ | odds_fixed => _ | odds_none => _ end)
    as [a|]; cbn [mbind Result_bind]; [|discriminate].
  destruct (isOnOddsLadder a (ladderStepSize this)) eqn:E; cbn [andb negb].
  - now intros [= <-].
  - rewrite (roundOddsToLadder_total a _ step Hs) by lia. intros [= <-].
    rewrite (ladderStep_positive_mod _ _ step Hs Hpos).
    apply Z.eqb_eq, Z.mod_mul. lia.
Qed.

Lemma adjustOdds_on_ladder_witness :
  let engine :=
    {| config :=
         {| enabled := true; copyDelay := 0%Q;
            oddsAdjustment :=
              {| odds_method := odds_percentage; odds_value := 3%Q;
                 ensureLadderCompliance := true |};
            stakeAdjustment := stakeAdjustment sampleConfig;
            autoCancelOnSource := true |};
       metadata := metadata sampleEngine;
       ladderStepSize := 125%Q;
       baseToken := "0xusdc" |} in
  adjustOdds engine 50123456789012345678 = Ok 51625000000000000000
  /\ isOnOddsLadder 51625000000000000000 125%Q = true.
Proof.
  intros engine.
  assert (H : adjustOdds engine 50123456789012345678 = Ok 51625000000000000000)
    by (vm_compute; reflexivity).
  split; [exact H|].
  apply (adjustOdds_on_ladder engine 50123456789012345678 51625000000000000000
           125000000000000000 eq_refl eq_refl ltac:(lia) H).
Defined.

(** X10.  The list of modifications is never empty, and it is the single
    entry "No modifications (exact copy)" exactly when the odds string and
    the stake string of the new order are those of the source order and
    its maker is the monitored wallet. *)
Theorem getModificationList_exact_copy (originalOdds originalStake : string)
    (modifiedOdds modifiedStake modifiedMaker : string) (w : string) :
  let modifications :=
    getModificationList originalOdds originalStake modifiedOdds modifiedStake
      modifiedMaker w in
  modifications <> []
  /\ (modifications = ["No modifications (exact copy)"]
      <-> originalOdds = modifiedOdds
          /\ originalStake = modifiedStake
          /\ w = modifiedMaker).
Proof.
  unfold getModificationList.
  destruct (decide (originalOdds = modifiedOdds)) as [Ho|Ho],
           (decide (originalStake = modifiedStake)) as [Hs|Hs],
           (decide (w = modifiedMaker)) as [Hm|Hm];
    cbn [app]; (split; [discriminate|]);
    (split; [intros H; try (cbn in H; discriminate H); auto
            |intros (? & ? & ?); try contradiction; reflexivity]).
Qed.

Lemma validateStakeLimits_reason (stake lo hi : Z) :
  valid (validateStakeLimits stake lo hi) = false ->
  is_Some (reason (validateStakeLimits stake lo hi)).
Proof.
  unfold validateStakeLimits.
  destruct (stake <? lo); cbn; [eauto|].
  destruct (stake >? hi); cbn; [eauto|discriminate].
Qed.

Local Ltac in_calls :=
  repeat (rewrite elem_of_app || rewrite elem_of_cons || rewrite elem_of_nil).

(** X11.  Whatever [copyOrder] submits to the exchange is one single order
    that was signed first: the signature is the one the wallet returned for
    exactly that order, the order keeps the market and the side of the
    source, has the bot as maker, valid limits on the stake
    ([minStake <= stake <= maxStake]) and the adjusted odds.  [copyOrder]
    signs at most once and submits at most once. *)
Theorem submitted_order_wellformed (this : OrderCopyEngine) (env : CopyEnv)
    (order : Order) (w : string) :
  let calls := (copyOrder this env order w).2 in
  (forall os, PostOrders os ∈ calls ->
     exists signed,
       os = [signed]
       /\ SignOrder (so_order signed) ∈ calls
       /\ signOrder env (so_order signed) = Ok (so_signature signed)
       /\ no_marketHash (so_order signed) = marketHash order
       /\ no_isMakerBettingOutcomeOne (so_order signed)
          = isMakerBettingOutcomeOne order
       /\ no_maker (so_order signed) = getAddress env
       /\ minStake (stakeAdjustment (config this))
          <= no_totalBetSize (so_order signed)
          <= maxStake (stakeAdjustment (config this))
       /\ adjustOdds this (percentageOdds order)
          = Ok (no_percentageOdds (so_order signed)))
  /\ (length (List.filter isSignOrder calls) <= 1)%nat
  /\ (length (List.filter isPostOrders calls) <= 1)%nat.
Proof.
  unfold copyOrder.
  destruct (enabled (config this)); cbn [negb];
    [|cbn; split; [intros os H; inversion H|split; lia]].
  destruct (metadata this) as [md|];
    [|cbn; split; [intros os H; inversion H|split; lia]].
  set (delay := if num_gt _ _ then _ else _).
  assert (Hdelay : forall c, c ∈ delay -> isSignOrder c = false /\ isPostOrders c = false).
  { intros c Hc. subst delay. destruct (num_gt _ _).
    - apply list_elem_of_singleton in Hc as ->. auto.
    - inversion Hc. }
  assert (Hlen : length (List.filter isSignOrder delay) = 0%nat
                 /\ length (List.filter isPostOrders delay) = 0%nat).
  { subst delay. destruct (num_gt _ _); split; reflexivity. }
  assert (Hnone : (forall os, PostOrders os ∈ delay -> False)).
  { intros os H. apply Hdelay in H as [_ H]. discriminate. }
  destruct Hlen as [Hl1 Hl2].
  destruct (adjustOdds this (percentageOdds order)) as [odds|] eqn:Hodds;
    [|cbn [snd]; split; [intros os H; exfalso; eauto|split; lia]].
  destruct (adjustStake this (totalBetSize order)) as [stake|];
    [|cbn [snd]; split; [intros os H; exfalso; eauto|split; lia]].
  destruct (valid (validateStakeLimits stake _ _)) eqn:Hv; cbn [negb];
    [|cbn [snd]; split; [intros os H; exfalso; eauto|split; lia]].
  apply validateStakeLimits_valid in Hv.
  destruct (signOrder env _) as [sig|] eqn:Hsig.
  - assert (Hgoal :
      let calls := app delay
                     [SignOrder (makeNewOrder this env md order odds stake);
                      PostOrders [{| so_order := makeNewOrder this env md order odds stake;
                                     so_signature := sig |}]] in
      (forall os, PostOrders os ∈ calls ->
         exists signed,
           os = [signed]
           /\ SignOrder (so_order signed) ∈ calls
           /\ signOrder env (so_order signed) = Ok (so_signature signed)
           /\ no_marketHash (so_order signed) = marketHash order
           /\ no_isMakerBettingOutcomeOne (so_order signed)
              = isMakerBettingOutcomeOne order
           /\ no_maker (so_order signed) = getAddress env
           /\ minStake (stakeAdjustment (config this))
              <= no_totalBetSize (so_order signed)
              <= maxStake (stakeAdjustment (config this))
           /\ Ok odds = Ok (no_percentageOdds (so_order signed)))
      /\ (length (List.filter isSignOrder calls) <= 1)%nat
      /\ (length (List.filter isPostOrders calls) <= 1)%nat).
    { cbn zeta. split; [|split].
      - intros os. in_calls. intros [H|[H|[H|[]]]]; [exfalso; eauto|discriminate|].
        injection H as ->. eexists. split; [reflexivity|].
        split; [in_calls; auto|]. split; [exact Hsig|].
        repeat split; try reflexivity; cbn; lia.
      - rewrite List.filter_app, length_app, Hl1. cbn. lia.
      - rewrite List.filter_app, length_app, Hl2. cbn. lia. }
    destruct (postOrders env _) as [resp|]; [destruct (inserted resp =? 0)|];
      exact Hgoal.
  - cbn [snd]. split; [|split].
    + intros os. in_calls. intros [H|[H|[]]]; [exfalso; eauto|discriminate].
    + rewrite List.filter_app, length_app, Hl1. cbn. lia.
    + rewrite List.filter_app, length_app, Hl2. cbn. lia.
Qed.

Lemma submitted_order_wellformed_witness :
  exists signed,
    (copyOrder sampleEngine (acceptingEnv "0xcopy")
       (sampleOrder "0xsrc" 5000000) "0xmaker").2
    = [SignOrder (so_order signed); PostOrders [signed]]
    /\ no_totalBetSize (so_order signed) = 10000000
    /\ 10000000 <= no_totalBetSize (so_order signed) <= 50000000.
Proof.
  pose (signed :=
    {| so_order := makeNewOrder sampleEngine (acceptingEnv "0xcopy")
                     {| executorAddress := "0xexecutor"; oddsLadderStepSize := 125%Q |}
                     (sampleOrder "0xsrc" 5000000) 50000000000000000000 10000000;
       so_signature := "0xsigned" |}).
  destruct (proj1 (submitted_order_wellformed sampleEngine (acceptingEnv "0xcopy")
                     (sampleOrder "0xsrc" 5000000) "0xmaker") [signed])
    as (s & Hs & _ & _ & _ & _ & _ & Hlim & _).
  - vm_compute. apply elem_of_cons. right. apply elem_of_cons. left. reflexivity.
  - injection Hs as <-. exists signed. split; [reflexivity|].
    split; [reflexivity|exact Hlim].
Defined.


(** X12.  The shape of a copy result.  A failed result carries an error
    message and neither an order hash nor a copied order.  A successful
    result carries no error; the order was signed and submitted and the
    exchange reported it as inserted; the order hash of the result is the
    first hash of the exchange's answer (none when the answer lists no
    hash), and it is the hash of the copied order; the copied order
    carries the signature of the wallet, no fill, the market, side and
    event of the source order, and the stake and odds recorded in the
    modifications, the stake lying within the configured limits. *)
Theorem copyOrder_result_shape (this : OrderCopyEngine) (env : CopyEnv)
    (order : Order) (w : string) :
  let result := (copyOrder this env order w).1 in
  originalOrder result = order
  /\ (success result = false ->
      is_Some (error result) /\ copiedOrder result = None
      /\ cr_orderHash result = None)
  /\ (success result = true ->
      error result = None
      /\ exists copied mods newOrder sig resp,
           copiedOrder result = Some copied
           /\ cr_modifications result = Some mods
           /\ signOrder env newOrder = Ok sig
           /\ postOrders env [{| so_order := newOrder; so_signature := sig |}]
              = Ok resp
           /\ inserted resp <> 0
           /\ cr_orderHash result = head (orders resp)
           /\ (forall h, head (orders resp) = Some h -> orderHash copied = h)
           /\ signature copied = sig
           /\ fillAmount copied = "0"
           /\ marketHash copied = marketHash order
           /\ isMakerBettingOutcomeOne copied = isMakerBettingOutcomeOne order
           /\ sportXeventId copied = sportXeventId order
           /\ totalBetSize copied = adjustedStake mods
           /\ percentageOdds copied = adjustedOdds mods
           /\ totalBetSize copied = no_totalBetSize newOrder
           /\ percentageOdds copied = no_percentageOdds newOrder
           /\ originalOrderHash mods = orderHash order
           /\ minStake (stakeAdjustment (config this))
              <= totalBetSize copied
              <= maxStake (stakeAdjustment (config this))).
Proof.
  unfold copyOrder.
  destruct (enabled (config this)); cbn [negb];
    [|cbn; repeat split; eauto; discriminate].
  destruct (metadata this) as [md|]; [|cbn; repeat split; eauto; discriminate].
  destruct (adjustOdds this (percentageOdds order)) as [odds|];
    [|cbn; repeat split; eauto; discriminate].
  destruct (adjustStake this (totalBetSize order)) as [stake|];
    [|cbn; repeat split; eauto; discriminate].
  destruct (valid (validateStakeLimits stake _ _)) eqn:Hv; cbn [negb].
  2:{ cbn. repeat split; try discriminate.
      now apply validateStakeLimits_reason. }
  apply validateStakeLimits_valid in Hv.
  destruct (signOrder env _) as [sig|] eqn:Hsig;
    [|cbn; repeat split; eauto; discriminate].
  destruct (postOrders env _) as [resp|] eqn:Hpost;
    [|cbn; repeat split; eauto; discriminate].
  destruct (inserted resp =? 0) eqn:Hins; cbn;
    [repeat split; eauto; discriminate|].
  apply Z.eqb_neq in Hins.
  split; [reflexivity|]. split; [discriminate|]. intros _.
  split; [reflexivity|].
  eexists _, _, _, sig, resp.
  split; [reflexivity|]. split; [reflexivity|]. split; [exact Hsig|].
  split; [exact Hpost|]. split; [exact Hins|]. split; [reflexivity|].
  split; [intros h Hh; cbn; now rewrite Hh|].
  cbn. repeat split; try reflexivity; lia.
Qed.

Lemma copyOrder_result_shape_witness :
  (error (copyOrder sampleEngine (acceptingEnv "0xcopy")
            (sampleOrder "0xsrc" 5000000) "0xmaker").1 = None
   /\ cr_orderHash (copyOrder sampleEngine (acceptingEnv "0xcopy")
                      (sampleOrder "0xsrc" 5000000) "0xmaker").1
      = Some "0xcopy")
  /\ is_Some (error (copyOrder disabledEngine (acceptingEnv "0xcopy")
                       (sampleOrder "0xsrc" 5000000) "0xmaker").1).
Proof.
  split.
  - destruct (proj2 (proj2 (copyOrder_result_shape sampleEngine
                              (acceptingEnv "0xcopy")
                              (sampleOrder "0xsrc" 5000000) "0xmaker"))
                eq_refl)
      as (Herr & copied & mods & newOrder & sig & resp & _ & _ & _ & Hpost
          & _ & Hh & _).
    split; [exact Herr|]. rewrite Hh.
    cbn in Hpost. injection Hpost as <-. reflexivity.
  - exact (proj1 (proj1 (proj2 (copyOrder_result_shape disabledEngine
                                  (acceptingEnv "0xcopy")
                                  (sampleOrder "0xsrc" 5000000) "0xmaker"))
                   eq_refl)).
Defined.

(** X13.  [initialize] stores the metadata and the step size before it
    checks the step size: when the API call fails the engine is unchanged;
    otherwise the engine holds the metadata and the step size of the
    answer, also when [initialize] throws, which it does exactly when the
    step size is below 0 or above 200. *)
Theorem initialize_outcomes (showNumber : number -> string)
    (this : OrderCopyEngine) :
  (forall m, initialize showNumber this (Throw m) = (Throw m, this))
  /\ (forall md,
       let '(outcome, this') := initialize showNumber this (Ok md) in
       metadata this' = Some md
       /\ ladderStepSize this' = oddsLadderStepSize md
       /\ config this' = config this
       /\ (outcome = Ok tt
           <-> (0 <= oddsLadderStepSize md)%Q /\ (oddsLadderStepSize md <= 200)%Q)).
Proof.
  split; [reflexivity|].
  intros md. unfold initialize. cbn [ladderStepSize].
  unfold num_lt, num_gt.
  destruct (Qle_bool 0 (oddsLadderStepSize md)) eqn:E0;
    destruct (Qle_bool (oddsLadderStepSize md) 200) eqn:E1; cbn;
    repeat split; try discriminate; try tauto.
  - now apply Qle_bool_iff.
  - now apply Qle_bool_iff.
  - intros [_ H]. apply Qle_bool_iff in H. congruence.
  - intros [H _]. apply Qle_bool_iff in H. congruence.
  - intros [H _]. apply Qle_bool_iff in H. congruence.
Qed.

Lemma initialize_outcomes_witness :
  metadata (initialize (fun _ => "250") sampleEngine
              (Ok {| executorAddress := "0xexecutor";
                     oddsLadderStepSize := 250%Q |})).2
  = Some {| executorAddress := "0xexecutor"; oddsLadderStepSize := 250%Q |}
  /\ (initialize (fun _ => "250") sampleEngine
        (Ok {| executorAddress := "0xexecutor";
               oddsLadderStepSize := 250%Q |})).1
     = Throw "Ladder step size has suspicious value: 250. Double check metadata".
Proof.
  pose proof (proj2 (initialize_outcomes (fun _ => "250") sampleEngine)
                {| executorAddress := "0xexecutor"; oddsLadderStepSize := 250%Q |})
    as H.
  split; [exact (proj1 H)|reflexivity].
Defined.

Lemma ladder_zero (a : Z) (stepSize : number) :
  Qnum stepSize = 0 ->
  isOnOddsLadder a stepSize = false
  /\ roundOddsToLadder a stepSize = Throw "division-by-zero".
Proof.
  destruct stepSize as [n d]. cbn [Qnum]. intros ->.
  unfold isOnOddsLadder, roundOddsToLadder, ladderStep, BigNumber_mul_number,
    BigNumber_from_number. cbn. auto.
Qed.

(** X14.  A ladder step size of 0 passes the check of [initialize], and
    with ladder compliance switched on every copy then fails before
    anything is signed or submitted: rounding to the ladder divides by
    zero. *)
Theorem zero_step_fails_every_copy (showNumber : number -> string)
    (this : OrderCopyEngine) (md : Metadata) (env : CopyEnv) (order : Order)
    (w : string) :
  Qnum (oddsLadderStepSize md) = 0 ->
  ensureLadderCompliance (oddsAdjustment (config this)) = true ->
  let '(outcome, this') := initialize showNumber this (Ok md) in
  outcome = Ok tt
  /\ (exists m, adjustOdds this' (percentageOdds order) = Throw m)
  /\ success (copyOrder this' env order w).1 = false
  /\ forall c, c ∈ (copyOrder this' env order w).2 ->
                isSignOrder c = false /\ isPostOrders c = false.
Proof.
  intros Hzero Hen. unfold initialize. cbn [ladderStepSize].
  assert (Hok : num_lt (oddsLadderStepSize md) 0%Q
                || num_gt (oddsLadderStepSize md) 200%Q = false).
  { destruct (oddsLadderStepSize md) as [n d]. cbn in Hzero. subst n. reflexivity. }
  rewrite Hok. split; [reflexivity|].
  set (this' := {| config := config this; metadata := Some md;
                   ladderStepSize := oddsLadderStepSize md;
                   baseToken := baseToken this |}).
  assert (Hthrow : exists m, adjustOdds this' (percentageOdds order) = Throw m).
  { unfold adjustOdds. cbn [config this' ladderStepSize]. rewrite Hen.
    destruct (odds_method _).
    - unfold adjustOddsByPercentage.
      destruct (isValidOdds _); cbn [negb]; [|cbn; eauto].
      destruct (BigNumber_mul_number _ _) as [m|]; cbn [mbind Result_bind];
        [|eauto].
      destruct (BigNumber_div m 10000) as [a|]; cbn [mbind Result_bind]; [|eauto].
      rewrite (proj2 (ladder_zero a _ Hzero)). cbn. eauto.
    - destruct (adjustOddsBySteps _ _ _) as [a|]; cbn [mbind Result_bind]; [|eauto].
      destruct (ladder_zero a _ Hzero) as [-> ->]. cbn. eauto.
    - cbn [mbind Result_bind].
      destruct (ladder_zero (percentageOdds order) _ Hzero) as [-> ->]. cbn. eauto. }
  split; [exact Hthrow|]. destruct Hthrow as [m Hm].
  unfold copyOrder. cbn [config metadata this']. rewrite Hm.
  destruct (enabled (config this)); cbn [negb fst snd];
    [|split; [reflexivity|intros c Hc; inversion Hc]].
  split; [reflexivity|]. intros c.
  destruct (num_gt (copyDelay (config this)) 0%Q); intros Hc.
  - apply list_elem_of_singleton in Hc as ->. auto.
  - inversion Hc.
Qed.

Lemma zero_step_fails_every_copy_witness :
  let engine :=
    {| config :=
         {| enabled := true; copyDelay := 0%Q;
            oddsAdjustment :=
              {| odds_method := odds_fixed; odds_value := 4%Q;
                 ensureLadderCompliance := true |};
            stakeAdjustment := stakeAdjustment sampleConfig;
            autoCancelOnSource := true |};
       metadata := None; ladderStepSize := 125%Q; baseToken := "0xusdc" |} in
  let md := {| executorAddress := "0xexecutor"; oddsLadderStepSize := 0%Q |} in
  (initialize (fun _ => "0") engine (Ok md)).1 = Ok tt
  /\ success (copyOrder (initialize (fun _ => "0") engine (Ok md)).2
                (acceptingEnv "0xcopy") (sampleOrder "0xsrc" 20000000)
                "0xmaker").1 = false.
Proof.
  intros engine md.
  pose proof (zero_step_fails_every_copy (fun _ => "0") engine md
                (acceptingEnv "0xcopy") (sampleOrder "0xsrc" 20000000) "0xmaker"
                eq_refl eq_refl) as H.
  cbn in H. destruct H as (H1 & _ & H2 & _). split; [exact H1|exact H2].
Defined.

End CopyEngineMore.

(** ** The ledger, continued *)

Section LedgerMore.

(** X15.  The tracked orders behave as a map keyed by order hash: an order
    recorded with [recordOrder] is the one tracked under its hash
    (replacing an earlier order of the same hash), [removeOrder] leaves
    nothing tracked under the removed hash, neither operation touches
    the orders tracked under other hashes, and removing a hash that is not
    tracked changes nothing at all. *)
Theorem tracked_orders_laws (rm : RiskManager) (o : Order) (h h' : string) :
  trackedOrders (recordOrder rm o) !! orderHash o = Some o
  /\ trackedOrders (removeOrder rm h) !! h = None
  /\ (h' <> orderHash o ->
      trackedOrders (recordOrder rm o) !! h' = trackedOrders rm !! h')
  /\ (h' <> h -> trackedOrders (removeOrder rm h) !! h' = trackedOrders rm !! h')
  /\ (trackedOrders rm !! h = None -> removeOrder rm h = rm)
  /\ trackedOrders (removeOrder (recordOrder rm o) (orderHash o))
     = delete (orderHash o) (trackedOrders rm).
Proof.
  unfold recordOrder, removeOrder. cbn [trackedOrders].
  split; [apply lookup_insert_eq|].
  split.
  { destruct (trackedOrders rm !! h) eqn:E; cbn; [apply lookup_delete_eq|exact E]. }
  split; [intros Hne; now apply lookup_insert_ne|].
  split.
  { intros Hne. destruct (trackedOrders rm !! h); cbn; [|reflexivity].
    now apply lookup_delete_ne. }
  split; [now intros ->|].
  rewrite lookup_insert_eq. cbn. apply delete_insert_eq.
Qed.

Lemma tracked_orders_laws_witness :
  removeOrder RiskManager_new "0xnone" = RiskManager_new.
Proof.
  apply (tracked_orders_laws RiskManager_new (sampleOrder "0xa" 1) "0xnone" "0xb").
  reflexivity.
Defined.

Lemma Map_get_None (k : string) (m : list (string * string)) :
  k ∉ m.*1 -> Map_get k m = None.
Proof.
  induction m as [|[k' v] m IH]; [reflexivity|].
  rewrite fmap_cons, not_elem_of_cons. cbn [fst Map_get]. intros [Hne Hin].
  rewrite decide_False by congruence. auto.
Qed.

Lemma Map_get_delete_same (k : string) (m : list (string * string)) :
  NoDup m.*1 -> Map_get k (Map_delete k m) = None.
Proof.
  induction m as [|[k' v] m IH]; [reflexivity|].
  rewrite fmap_cons, NoDup_cons. cbn [fst Map_delete]. intros [Hnotin Hnd].
  destruct (decide (k' = k)) as [->|Hne].
  - now apply Map_get_None.
  - cbn [Map_get]. rewrite decide_False by exact Hne. auto.
Qed.

Lemma Map_get_delete_other (k h : string) (m : list (string * string)) :
  k <> h -> Map_get h (Map_delete k m) = Map_get h m.
Proof.
  intros Hne. induction m as [|[k' v] m IH]; [reflexivity|].
  cbn [Map_delete Map_get].
  destruct (decide (k' = k)) as [->|Hk].
  - now rewrite decide_False by exact Hne.
  - cbn [Map_get]. destruct (decide (k' = h)); auto.
Qed.

Lemma Map_get_delete_set (h d : string) (m : list (string * string)) :
  Map_get h m = None -> Map_get h (Map_delete h (Map_set h d m)) = None.
Proof.
  induction m as [|[k v] m IH]; cbn [Map_get Map_set Map_delete].
  - intros _. rewrite decide_True by reflexivity. reflexivity.
  - destruct (decide (k = h)) as [->|Hne]; [discriminate|].
    intros Hm. cbn [Map_delete]. rewrite decide_False by exact Hne.
    cbn [Map_get]. rewrite decide_False by exact Hne. auto.
Qed.

(** X16.  In a ledger that tracks no order under the empty hash: once the
    derived order of a freshly copied source hash (one that had no mapping
    before) has been removed from tracking (it was cancelled or filled),
    [findCopiedOrder] finds nothing for the source hash, so a later
    cancellation of the source sends no cancel request, while
    [isOrderCopied] still reports the source hash as copied. *)
Theorem removal_clears_copy_lookup (rm : RiskManager) (copied : Order)
    (h : string) :
  trackedOrders rm !! "" = None ->
  Map_get h (ordersByOriginal rm) = None ->
  let rm' := removeOrder
               (recordOrder (recordOrderMapping rm copied h) copied)
               (orderHash copied) in
  findCopiedOrder rm' h = None
  /\ isOrderCopied rm' h = true
  /\ forall copyEngine w, handleOrderCancelled rm' copyEngine h w = [].
Proof.
  intros Hempty Hfresh rm'.
  assert (Hrec : recordOrderMapping rm copied h
                 = {| trackedOrders := trackedOrders rm;
                      ordersByOriginal :=
                        Map_set h (orderHash copied) (ordersByOriginal rm);
                      originalOrderHistory :=
                        {[ h ]} ∪ originalOrderHistory rm |}).
  { unfold recordOrderMapping. now rewrite Hfresh. }
  assert (Hfind : findCopiedOrder rm' h = None).
  { rewrite findCopiedOrder_unfold. subst rm'. rewrite Hrec.
    unfold removeOrder, recordOrder. cbn [trackedOrders ordersByOriginal].
    rewrite lookup_insert_eq. cbn [trackedOrders ordersByOriginal].
    rewrite delete_insert_eq.
    set (m := Map_set h (orderHash copied) (ordersByOriginal rm)).
    assert (Hm : Map_get h m = Some (orderHash copied))
      by apply Map_get_set_same.
    apply lookup_delete_None.
    destruct (findOriginalOf (orderHash copied) m) as [k|]; [|left; now rewrite Hm].
    destruct (decide (k = h)) as [->|Hne].
    - right. subst m. now rewrite Map_get_delete_set.
    - left. now rewrite Map_get_delete_other, Hm. }
  split; [exact Hfind|]. split.
  - unfold isOrderCopied. apply bool_decide_eq_true. subst rm'.
    rewrite history_removeOrder, history_recordOrder.
    apply history_recordOrderMapping. auto.
  - intros copyEngine w. unfold handleOrderCancelled. rewrite Hfind.
    now destruct (autoCancelOnSource (config copyEngine)).
Qed.

Lemma removal_clears_copy_lookup_witness :
  let earlier := sampleOrder "0xcopy0" 20000000 in
  let rm := recordOrder (recordOrderMapping RiskManager_new earlier "0xsrc0")
              earlier in
  let copied := sampleOrder "0xcopy" 10000000 in
  let rm' := removeOrder
               (recordOrder (recordOrderMapping rm copied "0xsrc") copied)
               "0xcopy" in
  findCopiedOrder rm' "0xsrc" = None
  /\ isOrderCopied rm' "0xsrc" = true
  /\ findCopiedOrder rm' "0xsrc0" = Some earlier.
Proof.
  intros earlier rm copied rm'.
  destruct (removal_clears_copy_lookup rm copied "0xsrc" eq_refl eq_refl)
    as (H1 & H2 & _).
  split; [exact H1|]. split; [exact H2|reflexivity].
Defined.

End LedgerMore.

(** ** The order monitor, continued *)

Section MonitorMore.

Variable this : OrderMonitor.

(** X17.  [handleOrderMessage] passes to [processOrderUpdate] every update
    of the batch exactly once, in ascending order of update time, and
    updates with the same update time in the order of the batch. *)
Theorem handleOrderMessage_call_order (updates : list OrderUpdate) (w : string) :
  Forall (fun u => is_Some (timeOf u)) updates ->
  exists sorted,
    handleOrderMessage this updates w = processAll this sorted w
    /\ Permutation sorted updates
    /\ StronglySorted notLater sorted
    /\ forall t, filter (fun u => timeOf u = Some t) sorted
                 = filter (fun u => timeOf u = Some t) updates.
Proof.
  intros Hall. exists (Array_sort compareUpdateTime updates).
  split; [reflexivity|]. split; [apply Array_sort_Permutation|].
  split; [now apply Array_sort_sorted|].
  intros t. apply Array_sort_stable.
Qed.

Lemma processAll_events (l : list OrderUpdate) (w : string) :
  (processAll this l w).1
  = flat_map (fun u => (processOrderUpdate this u w).1) l.
Proof.
  induction l as [|u l IH]; [reflexivity|]. cbn [processAll flat_map].
  destruct (processOrderUpdate this u w) as [e s].
  destruct (processAll this l w) as [e' s']. simpl in *. now rewrite IH.
Qed.

Lemma processOrderUpdate_one (u : OrderUpdate) (w : string) :
  (length (processOrderUpdate this u w).1 <= 1)%nat.
Proof.
  unfold processOrderUpdate, handleNewOrder, handleOrderCancelled_monitor,
    handleOrderFilled_monitor.
  destruct (status u); repeat (destruct (bool_decide _); simpl); lia.
Qed.

(** X18.  On the bot's own channel, for a batch whose updates all carry
    an update time, the events come out in the order of update time
    whatever the filters answer: no handler is suspended, each update
    gives at most one event, and the events are those of the updates taken
    in ascending order of update time, updates with the same time in the
    order of the batch. *)
Theorem own_channel_events_in_time_order (applyFilters : Order -> bool)
    (updates : list OrderUpdate) :
  Forall (fun u => is_Some (timeOf u)) updates ->
  exists sorted,
    Permutation sorted updates
    /\ StronglySorted notLater sorted
    /\ (forall t, filter (fun u => timeOf u = Some t) sorted
                  = filter (fun u => timeOf u = Some t) updates)
    /\ emittedForMessage this applyFilters updates (selfWalletAddress this)
       = flat_map
           (fun u => (processOrderUpdate this u (selfWalletAddress this)).1)
           sorted
    /\ forall u, (length (processOrderUpdate this u (selfWalletAddress this)).1
                  <= 1)%nat.
Proof.
  intros Hall. exists (Array_sort compareUpdateTime updates).
  split; [apply Array_sort_Permutation|].
  split; [now apply Array_sort_sorted|].
  split; [intros t; apply Array_sort_stable|].
  split; [|intros u; apply processOrderUpdate_one].
  unfold emittedForMessage.
  pose proof (own_channel_never_suspends this updates) as Hs.
  destruct (handleOrderMessage this updates (selfWalletAddress this))
    as [e s] eqn:E.
  simpl in Hs. subst s. simpl. rewrite app_nil_r.
  change e with (e, @nil Suspended).1. rewrite <- E.
  unfold handleOrderMessage. apply processAll_events.
Qed.

End MonitorMore.

Lemma handleOrderMessage_call_order_witness :
  let created := {| status := ACTIVE; order := sampleOrderAt "0xsrc" 20000000 1 |} in
  let cancelled := {| status := INACTIVE; order := sampleOrderAt "0xsrc" 20000000 2 |} in
  exists sorted,
    handleOrderMessage sampleMonitor [cancelled; created] "0xmaker"
    = processAll sampleMonitor sorted "0xmaker"
    /\ Permutation sorted [cancelled; created].
Proof.
  intros created cancelled.
  destruct (handleOrderMessage_call_order sampleMonitor [cancelled; created]
              "0xmaker") as (sorted & H1 & H2 & _).
  - repeat constructor; eexists; reflexivity.
  - exists sorted. split; [exact H1|exact H2].
Defined.

Lemma own_channel_events_in_time_order_witness :
  let recorded := {| status := ACTIVE; order := sampleOrderAt "0xown" 20000000 1 |} in
  let filled := {| status := FILLED; order := sampleOrderAt "0xown" 20000000 2 |} in
  exists sorted,
    Permutation sorted [filled; recorded]
    /\ StronglySorted notLater sorted
    /\ emittedForMessage sampleMonitor (fun _ => false) [filled; recorded] "0xbot"
       = flat_map (fun u => (processOrderUpdate sampleMonitor u "0xbot").1) sorted.
Proof.
  intros recorded filled.
  destruct (own_channel_events_in_time_order sampleMonitor (fun _ => false)
              [filled; recorded]) as (sorted & H1 & H2 & _ & H3 & _).
  - repeat constructor; eexists; reflexivity.
  - exists sorted. split; [exact H1|]. split; [exact H2|exact H3].
Defined.

Section FiltersMore.

Variable filters : OrderFilters.
Variable filterByOdds : Order -> bool * option string.

Lemma allowedBy_spec (l : option (list Z)) (x : Z) :
  hasEntries l && negb (includesId l x) = false <-> allowedBy l x.
Proof.
  unfold allowedBy, includesId.
  destruct (hasEntries l); cbn [andb]; [|split; auto].
  rewrite negb_false_iff, bool_decide_eq_true.
  split; [auto|]. intros [H|H]; [discriminate|exact H].
Qed.

(** X19.  An order passes the filters exactly if its market is known, the
    sport, the market type and the league are each allowed by their list
    (an absent or empty list allows everything), the market is no parlay
    when parlays are excluded, its game time is not before now when live
    markets are excluded (a game starting exactly now passes), and the odds
    check passes when a minimum or a maximum is configured. *)
Theorem applyFilters_passes_iff (now : Z) (market : option Market) (order : Order) :
  (applyFilters filters filterByOdds now market order).1 = true
  <-> exists m,
        market = Some m
        /\ allowedBy (sports filters) (m_sportId m)
        /\ allowedBy (marketTypes filters) (m_type m)
        /\ allowedBy (leagues filters) (m_leagueId m)
        /\ (flagSet (excludeParlay filters) = true -> hasEntries (m_legs m) = false)
        /\ (flagSet (excludeLive filters) = true -> now <= m_gameTime m * 1000)
        /\ (stringSet (minOdds filters) || stringSet (maxOdds filters) = true ->
            (filterByOdds order).1 = true).
Proof.
  unfold applyFilters. destruct market as [m|];
    [|split; [discriminate|intros (m & Hm & _); discriminate]].
  split.
  - intros H. exists m. split; [reflexivity|].
    destruct (hasEntries (sports filters) && _) eqn:E1;
      [cbn [fst] in H; discriminate H|].
    destruct (hasEntries (marketTypes filters) && _) eqn:E2;
      [cbn [fst] in H; discriminate H|].
    destruct (hasEntries (leagues filters) && _) eqn:E3;
      [cbn [fst] in H; discriminate H|].
    destruct (flagSet (excludeParlay filters) && _) eqn:E4;
      [cbn [fst] in H; discriminate H|].
    destruct (flagSet (excludeLive filters) && _) eqn:E5;
      [cbn [fst] in H; discriminate H|].
    split; [now apply allowedBy_spec|].
    split; [now apply allowedBy_spec|].
    split; [now apply allowedBy_spec|].
    split. { intros Hf. rewrite Hf in E4. exact E4. }
    split. { intros Hf. rewrite Hf in E5. now apply Z.ltb_ge in E5. }
    intros Ho. rewrite Ho in H.
    destruct (filterByOdds order) as [[] r]; [reflexivity|discriminate H].
  - intros (m' & [= <-] & A1 & A2 & A3 & B1 & B2 & B3).
    apply allowedBy_spec in A1, A2, A3. rewrite A1, A2, A3.
    assert (E4 : flagSet (excludeParlay filters) && hasEntries (m_legs m) = false).
    { destruct (flagSet (excludeParlay filters));
        [now rewrite B1|reflexivity]. }
    assert (E5 : flagSet (excludeLive filters) && (m_gameTime m * 1000 <? now)
                 = false).
    { destruct (flagSet (excludeLive filters)); [|reflexivity].
      apply Z.ltb_ge. auto. }
    rewrite E4, E5.
    destruct (stringSet _ || stringSet _); [|reflexivity].
    specialize (B3 eq_refl).
    destruct (filterByOdds order) as [[] r]; [reflexivity|discriminate B3].
Qed.

(** X20.  The market cache.  A lookup of a cached hash returns the cached
    market and sends no request; a lookup of any other hash asks the
    exchange for that one hash.  When the answer lists a market, the first
    one is returned and stored under the hash, whatever a lookup running at
    the same time has stored there meanwhile: of two lookups of a hash
    that both miss, the later answer replaces the earlier.  An empty or
    failed answer is not stored.  Entries of other hashes are never
    touched.  When lookups run one after the other, a market once found is
    returned by every later lookup without a request, and a lookup that
    found nothing asks again. *)
Theorem getMarket_memoizes (marketCache : gmap string Market)
    (marketHash : string) :
  (forall m, marketCache !! marketHash = Some m ->
     getMarket_start marketCache marketHash = CacheHit m)
  /\ (marketCache !! marketHash = None ->
      getMarket_start marketCache marketHash = AwaitMarkets [marketHash])
  /\ (forall later markets,
       let '(found, cache') := getMarket_finish later marketHash markets in
       (forall h, h <> marketHash -> cache' !! h = later !! h)
       /\ (forall m, found = Some m ->
             cache' !! marketHash = Some m
             /\ exists rest, markets = Ok (m :: rest))
       /\ (found = None -> cache' = later))
  /\ (forall m1 rest1 m2 rest2,
       (getMarket_finish
          (getMarket_finish marketCache marketHash (Ok (m1 :: rest1))).2
          marketHash (Ok (m2 :: rest2))).2 !! marketHash = Some m2)
  /\ (forall getMarkets,
       let '(found, cache', asked) :=
         getMarket marketCache getMarkets marketHash in
       (asked = [] \/ asked = [[marketHash]])
       /\ (forall m, found = Some m ->
             forall getMarkets',
               getMarket cache' getMarkets' marketHash = (Some m, cache', []))
       /\ (found = None ->
           cache' = marketCache
           /\ forall getMarkets',
                (getMarket cache' getMarkets' marketHash).2 = [[marketHash]])).
Proof.
  split; [intros m Hm; unfold getMarket_start; now rewrite Hm|].
  split; [intros Hm; unfold getMarket_start; now rewrite Hm|].
  split.
  { intros later markets. unfold getMarket_finish.
    destruct markets as [[|market rest]|message].
    - split; [auto|]. split; [discriminate|auto].
    - split; [intros h Hh; now rewrite lookup_insert_ne by congruence|].
      split; [|discriminate].
      intros m [= <-]. split; [apply lookup_insert_eq|eauto].
    - split; [auto|]. split; [discriminate|auto]. }
  split.
  { intros m1 rest1 m2 rest2. cbn [getMarket_finish snd].
    apply lookup_insert_eq. }
  intros getMarkets. unfold getMarket, getMarket_start.
  destruct (marketCache !! marketHash) as [cached|] eqn:Ec.
  - split; [auto|]. split; [|discriminate].
    intros m [= <-] getMarkets'. now rewrite Ec.
  - assert (Hmiss : forall getMarkets',
              (let '(market, marketCache') :=
                 getMarket_finish marketCache marketHash
                   (getMarkets' [marketHash]) in
               (market, marketCache', [[marketHash]])).2 = [[marketHash]]).
    { intros g. destruct (getMarket_finish _ _ _). reflexivity. }
    unfold getMarket_finish.
    destruct (getMarkets [marketHash]) as [[|market rest]|message].
    + split; [auto|]. split; [discriminate|].
      intros _. split; [reflexivity|]. intros g. rewrite Ec. apply Hmiss.
    + split; [auto|]. split; [|discriminate].
      intros m [= <-] g. now rewrite lookup_insert_eq.
    + split; [auto|]. split; [discriminate|].
      intros _. split; [reflexivity|]. intros g. rewrite Ec. apply Hmiss.
Qed.

End FiltersMore.

Lemma getMarket_memoizes_witness :
  let market gameTime :=
    {| m_marketHash := "0xmarket"; m_type := 1; m_gameTime := gameTime;
       m_sportId := 5; m_leagueId := 29; m_legs := None |} in
  getMarket_start ∅ "0xmarket" = AwaitMarkets ["0xmarket"]
  /\ (getMarket_finish
        (getMarket_finish ∅ "0xmarket" (Ok [market 1700000000])).2
        "0xmarket" (Ok [market 1700003600])).2 !! "0xmarket"
     = Some (market 1700003600).
Proof.
  intros market.
  destruct (getMarket_memoizes ∅ "0xmarket") as (_ & Hmiss & _ & Hlater & _).
  split; [apply Hmiss; reflexivity|apply Hlater].
Defined.

(** ** The connection manager, continued *)

Section ConnectionMore.

Lemma sublist_all_gone (l' l : list string) :
  sublist l' l -> (forall c, c ∈ l -> c ∉ l') -> l' = [].
Proof.
  intros Hsub Hgone. destruct l' as [|x xs]; [reflexivity|].
  exfalso. apply (Hgone x); [|now left].
  eapply elem_of_sublist; [|exact Hsub]. now left.
Qed.

Lemma filter_teardown (p : WsCall -> bool) (calls : list WsCall) :
  (forall c, isTeardown c = true -> p c = false) ->
  forallb isTeardown calls = true -> List.filter p calls = [].
Proof.
  intros Hp. induction calls as [|c calls IH]; [reflexivity|].
  cbn [forallb List.filter]. intros [Hc Hq]%andb_prop.
  rewrite (Hp c Hc). auto.
Qed.

Lemma teardown_emit (event : string) :
  String.eqb "disconnected" event = false ->
  forall c, isTeardown c = true -> isEmitOf event c = false.
Proof.
  intros He c. destruct c; try reflexivity. cbn [isTeardown isEmitOf].
  intros H%String.eqb_eq. now subst.
Qed.

Lemma teardown_reconnectTimer (c : WsCall) :
  isTeardown c = true -> isReconnectTimer c = false.
Proof. destruct c; try reflexivity. discriminate. Qed.

Lemma teardown_connectionTimer (c : WsCall) :
  isTeardown c = true -> isConnectionTimer c = false.
Proof. destruct c; try reflexivity. discriminate. Qed.

Lemma teardown_subscription (c : WsCall) :
  isTeardown c = true -> isSubscription c = false.
Proof. destruct c; try reflexivity; discriminate. Qed.

Lemma teardown_no_timer (calls : list WsCall) :
  forallb isTeardown calls = true ->
  Forall (fun c => forall callback d, c = SetTimeout callback d ->
                     callback = RejectConnection /\ d = 30000) calls.
Proof.
  induction calls as [|c calls IH]; [constructor|].
  cbn [forallb]. intros [Hc Hq]%andb_prop. constructor; [|auto].
  intros callback d ->. discriminate Hc.
Qed.

Lemma teardown_attemptCalls (calls : list WsCall) :
  forallb isTeardown calls = true -> attemptCalls calls.
Proof.
  intros Hq. unfold attemptCalls.
  rewrite (filter_teardown _ _ teardown_reconnectTimer Hq).
  rewrite (filter_teardown _ _ teardown_connectionTimer Hq).
  rewrite (filter_teardown _ _ (teardown_emit "maxRetriesReached" eq_refl) Hq).
  rewrite (filter_teardown _ _ (teardown_emit "connected" eq_refl) Hq).
  split; [reflexivity|]. split; [simpl; lia|].
  split; [now apply teardown_no_timer|]. split; reflexivity.
Qed.

(** What [disconnect] keeps. *)
Lemma disconnect_shape (this : WebSocketClient) (detach : string -> Result unit) :
  let '(result, this', calls) := disconnect this detach in
  reconnectAttempts this' = reconnectAttempts this
  /\ maxRetries this' = maxRetries this
  /\ reconnectInterval this' = reconnectInterval this
  /\ forallb isTeardown calls = true
  /\ (connectionState this <> connected -> connectionState this' <> connected)
  /\ (result = Ok tt -> client this' = false).
Proof.
  unfold disconnect. destruct (client this) eqn:Hc; cbn [negb].
  2:{ repeat (split; [reflexivity|]). split; auto. }
  pose proof (unsubscribeAll_shape (subscribedChannels this) this detach Hc) as H.
  destruct (unsubscribeAll this (subscribedChannels this) detach)
    as [[[[]|message] this'] calls];
    destruct H as (H1 & H2 & H3 & H4 & H5 & H6 & _).
  - cbn [reconnectAttempts maxRetries reconnectInterval connectionState
           client ws_update].
    split; [exact H2|]. split; [exact H3|]. split; [exact H4|].
    split; [rewrite forallb_app, H6; reflexivity|].
    split; [discriminate|reflexivity].
  - split; [exact H2|]. split; [exact H3|]. split; [exact H4|].
    split; [exact H6|]. split; [now rewrite H5|discriminate].
Qed.

(** A failing [reconnect]: the calls of the attempt, then what
    [handleReconnect] does with the same counters. *)
Lemma reconnect_fails (this : WebSocketClient) (detach : string -> Result unit)
    (outcome : ConnectOutcome) :
  outcome <> TransportConnected ->
  connectionState this <> connected ->
  exists t pre,
    reconnect this detach outcome
    = ((handleReconnect t).1, app pre (handleReconnect t).2)
    /\ reconnectAttempts t = reconnectAttempts this
    /\ maxRetries t = maxRetries this
    /\ reconnectInterval t = reconnectInterval this
    /\ connectionState t <> connected
    /\ attemptCalls pre.
Proof.
  intros Hout Hst. unfold reconnect.
  pose proof (disconnect_shape this detach) as H.
  destruct (disconnect this detach) as [[[[]|message] this1] calls1];
    destruct H as (Ha & Hm & Hi & Hq & Hs & Hc).
  - unfold connect. rewrite (Hc eq_refl).
    destruct outcome as [|m|]; [contradiction| |].
    + eexists (ws_update this1 true (reconnectAttempts this1) failed
                 (subscribedChannels this1)),
              (app calls1 [SetTimeout RejectConnection 30000; ClearTimeout]).
      split.
      { destruct (handleReconnect _) as [t3 calls3]. cbn [fst snd].
        now rewrite <- app_assoc. }
      cbn [reconnectAttempts maxRetries reconnectInterval connectionState
             ws_update].
      split; [exact Ha|]. split; [exact Hm|]. split; [exact Hi|].
      split; [discriminate|].
      destruct (teardown_attemptCalls _ Hq) as (A1 & A2 & A3 & A4 & A5).
      unfold attemptCalls. rewrite !List.filter_app, A1, A4, A5.
      rewrite (filter_teardown _ _ teardown_connectionTimer Hq).
      split; [reflexivity|]. split; [simpl; lia|].
      split; [|split; reflexivity].
      apply Forall_app. split; [exact A3|].
      constructor; [intros cb d [= <- <-]; auto|].
      constructor; [intros cb d [=]|constructor].
    + eexists (ws_update this1 true (reconnectAttempts this1) failed
                 (subscribedChannels this1)),
              (app calls1 [SetTimeout RejectConnection 30000]).
      split.
      { destruct (handleReconnect _) as [t3 calls3]. cbn [fst snd].
        now rewrite <- app_assoc. }
      cbn [reconnectAttempts maxRetries reconnectInterval connectionState
             ws_update].
      split; [exact Ha|]. split; [exact Hm|]. split; [exact Hi|].
      split; [discriminate|].
      destruct (teardown_attemptCalls _ Hq) as (A1 & A2 & A3 & A4 & A5).
      unfold attemptCalls. rewrite !List.filter_app, A1, A4, A5.
      rewrite (filter_teardown _ _ teardown_connectionTimer Hq).
      split; [reflexivity|]. split; [simpl; lia|].
      split; [|split; reflexivity].
      apply Forall_app. split; [exact A3|].
      constructor; [intros cb d [= <- <-]; auto|constructor].
  - exists this1, calls1. split.
    { destruct (handleReconnect this1) as [t2 calls2]. reflexivity. }
    split; [exact Ha|]. split; [exact Hm|]. split; [exact Hi|].
    split; [now apply Hs|now apply teardown_attemptCalls].
Qed.

Lemma retries_from (attempts : list ((string -> Result unit) * ConnectOutcome))
    (this : WebSocketClient) :
  Forall (fun a => a.2 <> TransportConnected) attempts ->
  maxRetries this = (reconnectAttempts this + length attempts)%nat ->
  0 <= reconnectInterval this ->
  connectionState this <> connected ->
  retriesSummary (reconnectInterval this) (length attempts)
    (reconnects attempts (handleReconnect this).1).1
    (app (handleReconnect this).2
       (reconnects attempts (handleReconnect this).1).2).
Proof.
  revert this.
  induction attempts as [|[detach outcome] attempts IH];
    intros this Hfail Hmax Hint Hst.
  - cbn [length] in Hmax.
    assert (Hhr : handleReconnect this = (this, [Emit "maxRetriesReached"])).
    { unfold handleReconnect. now rewrite (proj2 (Nat.leb_le _ _)) by lia. }
    rewrite Hhr. cbn [reconnects fst snd app length].
    unfold retriesSummary, isConnected.
    split; [reflexivity|]. split; [simpl; lia|].
    split; [constructor; [intros cb d [=]|constructor]|].
    split; [reflexivity|]. split; [exists []; reflexivity|].
    split; [reflexivity|]. split; [lia|].
    destruct (connectionState this); try reflexivity. contradiction.
  - apply Forall_cons in Hfail as [Hout Hfail]. cbn [snd] in Hout.
    cbn [length] in *.
    assert (Hhr : handleReconnect this
                  = (ws_update this (client this) (S (reconnectAttempts this))
                       reconnecting (subscribedChannels this),
                     [SetTimeout RunReconnect
                        (reconnectInterval this
                         * Z.min (Z.of_nat (S (reconnectAttempts this))) 5)])).
    { unfold handleReconnect. now rewrite (proj2 (Nat.leb_gt _ _)) by lia. }
    rewrite Hhr. cbn [fst snd].
    set (this' := ws_update this _ _ _ _).
    cbn [reconnects].
    destruct (reconnect_fails this' detach outcome Hout ltac:(discriminate))
      as (t & pre & Hr & Ha & Hm & Hi & Hs & Hpre).
    rewrite Hr. cbn [fst snd].
    specialize (IH t Hfail). rewrite Ha, Hm, Hi in IH.
    cbn [reconnectAttempts maxRetries reconnectInterval ws_update this'] in IH.
    specialize (IH ltac:(lia) Hint Hs).
    destruct (reconnects attempts (handleReconnect t).1) as [t2 c2].
    cbn [fst snd] in *.
    destruct IH as (I1 & I2 & I3 & I4 & (before & I5) & I6 & I7 & I8).
    destruct Hpre as (P1 & P2 & P3 & P4 & P5).
    unfold retriesSummary.
    cbn [app List.filter isReconnectTimer isConnectionTimer isEmitOf].
    rewrite <- !app_assoc, !List.filter_app, P1, P4, P5. cbn [app length].
    rewrite <- !List.filter_app.
    split; [now rewrite I1|].
    split; [rewrite (List.filter_app isConnectionTimer pre), length_app; lia|].
    split.
    { constructor.
      - intros cb d [= <- <-].
        assert (1 <= Z.min (Z.of_nat (S (reconnectAttempts this))) 5 <= 5) by lia.
        nia.
      - apply Forall_app. split; [|exact I3].
        eapply Forall_impl; [exact P3|]. intros c Hc cb d Hcd.
        destruct (Hc cb d Hcd) as [-> ->]. reflexivity. }
    split; [exact I4|].
    split.
    { exists (SetTimeout RunReconnect
                (reconnectInterval this
                 * Z.min (Z.of_nat (S (reconnectAttempts this))) 5)
              :: app pre before).
      cbn [app]. f_equal. rewrite <- app_assoc. f_equal. exact I5. }
    split; [exact I6|]. split; assumption.
Qed.

(** X21.  For a client whose attempt counter does not exceed [maxRetries]
    and whose reconnect interval is not negative: when the transport
    reports "failed" and at none of the [maxRetries - reconnectAttempts]
    reconnects that follow the transport connects (the connection fails or
    times out, or a detach rejects before it is tried), the client sets
    one reconnect timer per attempt, each with a delay between one and
    five times the reconnect interval; every other timer is a connection
    timeout of 30000 ms, and there are no more of them than attempts; the
    client emits one "maxRetriesReached" notification, as its last call,
    and no "connected" notification; it ends with all attempts used and
    not connected. *)
Theorem reconnect_gives_up (this : WebSocketClient)
    (attempts : list ((string -> Result unit) * ConnectOutcome)) :
  (reconnectAttempts this <= maxRetries this)%nat ->
  0 <= reconnectInterval this ->
  length attempts = (maxRetries this - reconnectAttempts this)%nat ->
  Forall (fun a => a.2 <> TransportConnected) attempts ->
  retriesSummary (reconnectInterval this) (length attempts)
    (reconnects attempts (onFailed this).1).1
    (app (onFailed this).2 (reconnects attempts (onFailed this).1).2).
Proof.
  intros Hle Hint Hlen Hfail. unfold onFailed.
  set (this1 := ws_update this _ _ _ _).
  pose proof (retries_from attempts this1 Hfail) as H.
  cbn [reconnectAttempts maxRetries reconnectInterval connectionState
         ws_update this1] in H.
  specialize (H ltac:(lia) Hint ltac:(discriminate)).
  destruct (handleReconnect this1) as [t c]. cbn [fst snd] in *.
  destruct (reconnects attempts t) as [t2 c2]. cbn [fst snd] in *.
  destruct H as (I1 & I2 & I3 & I4 & (before & I5) & I6 & I7 & I8).
  unfold retriesSummary.
  cbn [app List.filter isReconnectTimer isConnectionTimer isEmitOf].
  change (String.eqb "error" "maxRetriesReached") with false.
  change (String.eqb "error" "connected") with false.
  split; [exact I1|]. split; [exact I2|].
  split; [constructor; [intros cb d [=]|exact I3]|].
  split; [exact I4|].
  split; [exists (Emit "error" :: before); cbn [app]; now rewrite I5|].
  split; [exact I6|]. split; assumption.
Qed.

Lemma resubscribeLoop_client (channels : list string) (this : WebSocketClient) :
  client (resubscribeLoop this channels).1 = client this.
Proof.
  revert this. induction channels as [|c cs IH]; intros this; [reflexivity|].
  cbn [resubscribeLoop]. unfold subscribe.
  destruct (client this) eqn:Hc; cbn [negb].
  - match goal with |- context [resubscribeLoop ?t cs] =>
      specialize (IH t); destruct (resubscribeLoop t cs) as [t' calls'] end.
    simpl in *. now rewrite IH.
  - now rewrite IH.
Qed.

Lemma handleReconnect_keeps (this : WebSocketClient) :
  client (handleReconnect this).1 = client this
  /\ subscribedChannels (handleReconnect this).1 = subscribedChannels this
  /\ List.filter isSubscription (handleReconnect this).2 = []
  /\ (ClientClose ∉ (handleReconnect this).2).
Proof.
  unfold handleReconnect. destruct (_ <=? _)%nat; cbn.
  - repeat (split; [reflexivity|]).
    rewrite not_elem_of_cons. split; [discriminate|apply not_elem_of_nil].
  - repeat (split; [reflexivity|]).
    rewrite not_elem_of_cons. split; [discriminate|apply not_elem_of_nil].
Qed.

Lemma connect_keeps (this : WebSocketClient) (outcome : ConnectOutcome) :
  client this = false ->
  client (connect this outcome).1.2 = true
  /\ subscribedChannels (connect this outcome).1.2 = subscribedChannels this
  /\ List.filter isSubscription (connect this outcome).2 = []
  /\ (ClientClose ∉ (connect this outcome).2).
Proof.
  intros Hc. unfold connect. rewrite Hc.
  destruct outcome; cbn; repeat (split; [reflexivity|]);
    rewrite ?not_elem_of_cons; repeat split; try discriminate;
    apply not_elem_of_nil.
Qed.

(** [reconnect] on a client that holds no channel without a client
    object. *)
Lemma reconnect_channels (this : WebSocketClient) (detach : string -> Result unit)
    (outcome : ConnectOutcome) :
  (client this = false -> subscribedChannels this = []) ->
  List.filter isSubscription (reconnect this detach outcome).2 = []
  /\ sublist (subscribedChannels (reconnect this detach outcome).1)
       (subscribedChannels this)
  /\ client (reconnect this detach outcome).1 = true
  /\ ((forall c, c ∈ subscribedChannels this -> detach c = Ok tt) ->
      subscribedChannels (reconnect this detach outcome).1 = [])
  /\ (forall c, c ∈ subscribedChannels this -> isThrow (detach c) = true ->
        c ∈ subscribedChannels (reconnect this detach outcome).1
        /\ ClientClose ∉ (reconnect this detach outcome).2).
Proof.
  intros Hinv. unfold reconnect, disconnect.
  destruct (client this) eqn:Hc; cbn [negb].
  - pose proof (unsubscribeAll_shape (subscribedChannels this) this detach Hc)
      as H.
    destruct (unsubscribeAll this (subscribedChannels this) detach)
      as [[[[]|message] this'] calls];
      destruct H as (H1 & _ & _ & _ & _ & Hq & Hclose & Hsub & Hstay & Hgone
                     & Hthrow & Hok).
    + set (this1 := ws_update this' false _ _ _).
      destruct (connect_keeps this1 outcome eq_refl) as (C1 & C2 & C3 & C4).
      assert (Hempty : subscribedChannels this' = []).
      { apply (sublist_all_gone _ _ Hsub). exact (Hgone eq_refl). }
      assert (Hnone : forall c, c ∈ subscribedChannels this ->
                        isThrow (detach c) = true -> False).
      { intros c Hin Hth. specialize (Hthrow (ex_intro _ c (conj Hin Hth))).
        discriminate Hthrow. }
      destruct (connect this1 outcome) as [[[[]|m] this2] calls2];
        cbn [fst snd] in *.
      * rewrite !List.filter_app, C3.
        rewrite (filter_teardown _ _ teardown_subscription Hq).
        rewrite C2. cbn [subscribedChannels ws_update this1].
        rewrite Hempty.
        split; [reflexivity|]. split; [apply sublist_nil_l|].
        split; [exact C1|]. split; [reflexivity|].
        intros c Hin Hth. destruct (Hnone c Hin Hth).
      * destruct (handleReconnect_keeps this2) as (K1 & K2 & K3 & K4).
        destruct (handleReconnect this2) as [this3 calls3]; cbn [fst snd] in *.
        rewrite !List.filter_app, C3, K3.
        rewrite (filter_teardown _ _ teardown_subscription Hq).
        rewrite K2, C2. cbn [subscribedChannels ws_update this1].
        rewrite Hempty.
        split; [reflexivity|]. split; [apply sublist_nil_l|].
        split; [congruence|]. split; [reflexivity|].
        intros c Hin Hth. destruct (Hnone c Hin Hth).
    + destruct (handleReconnect_keeps this') as (K1 & K2 & K3 & K4).
      destruct (handleReconnect this') as [this2 calls2]; cbn [fst snd] in *.
      rewrite List.filter_app, K3.
      rewrite (filter_teardown _ _ teardown_subscription Hq). rewrite K2.
      split; [reflexivity|]. split; [exact Hsub|]. split; [congruence|].
      split; [intros Hall; specialize (Hok Hall); discriminate Hok|].
      intros c Hin Hth. split; [now apply Hstay|].
      rewrite elem_of_app. intros [?|?]; contradiction.
  - rewrite (Hinv eq_refl).
    destruct (connect_keeps this outcome Hc) as (C1 & C2 & C3 & C4).
    rewrite (Hinv eq_refl) in C2.
    destruct (connect this outcome) as [[[[]|m] this2] calls2];
      cbn [fst snd] in *.
    + cbn [app]. rewrite C2.
      split; [exact C3|]. split; [constructor|]. split; [exact C1|].
      split; [reflexivity|]. intros c Hin. now apply elem_of_nil in Hin.
    + destruct (handleReconnect_keeps this2) as (K1 & K2 & K3 & K4).
      destruct (handleReconnect this2) as [this3 calls3]; cbn [fst snd] in *.
      cbn [app]. rewrite List.filter_app, C3, K3, K2, C2.
      split; [reflexivity|]. split; [constructor|]. split; [congruence|].
      split; [reflexivity|]. intros c Hin. now apply elem_of_nil in Hin.
Qed.

Lemma applyWsOp_invariant (this : WebSocketClient) (op : WsOp) :
  (client this = false -> subscribedChannels this = []) ->
  client (applyWsOp this op) = false ->
  subscribedChannels (applyWsOp this op) = [].
Proof.
  intros Hinv. destruct op as [c h|c d|o|d|d o| | |]; cbn [applyWsOp].
  - unfold subscribe. destruct (client this) eqn:E; cbn [negb].
    + simpl. congruence.
    + intros _. exact (Hinv eq_refl).
  - unfold unsubscribe. destruct (client this) eqn:E; cbn [negb].
    + destruct d; simpl; congruence.
    + intros _. exact (Hinv eq_refl).
  - unfold connect. destruct (client this) eqn:E; [simpl; congruence|].
    destruct o; simpl; congruence.
  - unfold disconnect. destruct (client this) eqn:E; cbn [negb].
    + pose proof (unsubscribeAll_shape (subscribedChannels this) this d E) as H.
      destruct (unsubscribeAll this (subscribedChannels this) d)
        as [[[[]|message] this'] calls];
        destruct H as (H1 & _ & _ & _ & _ & _ & _ & Hsub & _ & Hgone & _).
      * intros _. cbn. apply (sublist_all_gone _ _ Hsub). exact (Hgone eq_refl).
      * cbn. congruence.
    + intros _. exact (Hinv eq_refl).
  - destruct (reconnect_channels this d o Hinv) as (_ & _ & H & _). congruence.
  - unfold onConnected, resubscribeChannels.
    cbn [client subscribedChannels ws_update].
    destruct (client this) eqn:E; cbn [negb orb].
    + destruct (_ =? _)%nat; [simpl; congruence|].
      match goal with |- context [resubscribeLoop ?t ?cs] =>
        pose proof (resubscribeLoop_client cs t) as Hl;
        destruct (resubscribeLoop t cs) as [t' calls'] end.
      simpl in *. congruence.
    + simpl. intros _. exact (Hinv eq_refl).
  - simpl. exact Hinv.
  - unfold onFailed.
    match goal with |- context [handleReconnect ?t] =>
      destruct (handleReconnect_keeps t) as (K1 & K2 & _);
      destruct (handleReconnect t) as [t3 calls3] end.
    simpl in *. rewrite K1, K2. exact Hinv.
Qed.

(** Without a client object no channel is registered. *)
Lemma reachable_invariant (this : WebSocketClient) :
  reachable this -> client this = false -> subscribedChannels this = [].
Proof.
  intros (ri & mr & ops & ->).
  induction ops as [|op ops IH] using rev_ind; [reflexivity|].
  rewrite foldl_app. cbn [foldl]. now apply applyWsOp_invariant.
Qed.

(** X22.  In every state the client can reach, [reconnect] re-subscribes
    no channel, whether the new connection comes up or not, and registers
    none that was not registered.  When no detach rejects, no subscription
    survives it: no channel is registered afterwards and a
    [resubscribeChannels] finds nothing to do, so the consumer has to
    subscribe again.  A channel whose detach rejects stays registered, and
    the reconnect is then given up before the transport client is
    closed. *)
Theorem reconnect_loses_subscriptions (this : WebSocketClient)
    (detach : string -> Result unit) (outcome : ConnectOutcome) :
  reachable this ->
  List.filter isSubscription (reconnect this detach outcome).2 = []
  /\ sublist (subscribedChannels (reconnect this detach outcome).1)
       (subscribedChannels this)
  /\ ((forall c, c ∈ subscribedChannels this -> detach c = Ok tt) ->
      subscribedChannels (reconnect this detach outcome).1 = []
      /\ (resubscribeChannels (reconnect this detach outcome).1).2 = [])
  /\ (forall c, c ∈ subscribedChannels this -> isThrow (detach c) = true ->
        c ∈ subscribedChannels (reconnect this detach outcome).1
        /\ ClientClose ∉ (reconnect this detach outcome).2).
Proof.
  intros Hr.
  destruct (reconnect_channels this detach outcome (reachable_invariant this Hr))
    as (H1 & H2 & H3 & H4 & H5).
  split; [exact H1|]. split; [exact H2|]. split; [|exact H5].
  intros Hall. specialize (H4 Hall). split; [exact H4|].
  unfold resubscribeChannels. rewrite H4, H3. reflexivity.
Qed.

(** X23.  After a [connect] that failed (the connection failed or timed
    out), a further [connect] returns without an error and does nothing,
    whatever the transport would do: the client object of the failed
    attempt is still in place, and the client stays in the state "failed"
    and is not connected. *)
Theorem connect_after_failed_connect (this : WebSocketClient)
    (outcome : ConnectOutcome) :
  client this = false ->
  outcome <> TransportConnected ->
  let this1 := (connect this outcome).1.2 in
  isThrow (connect this outcome).1.1 = true
  /\ isConnected this1 = false
  /\ connectionState this1 = failed
  /\ forall outcome', connect this1 outcome' = (Ok tt, this1, []).
Proof.
  intros Hc Hout this1. subst this1. unfold connect. rewrite Hc.
  destruct outcome; [contradiction| |]; simpl; repeat split.
Qed.

End ConnectionMore.

Lemma reconnect_gives_up_witness :
  let this :=
    foldl applyWsOp (WebSocketClient_new (Some 5000) (Some 3%nat))
      [OpConnect TransportConnected; OpSubscribe "orders:a" true;
       OpSubscribe "orders:b" true] in
  let attempts :=
    [(fun _ => Ok tt, TransportTimeout);
     (fun _ => Throw "detach failed", TransportFailed "refused");
     (fun _ => Ok tt, TransportFailed "refused")] in
  isConnected this = true
  /\ retriesSummary 5000 3
       (reconnects attempts (onFailed this).1).1
       (app (onFailed this).2 (reconnects attempts (onFailed this).1).2).
Proof.
  intros this attempts. split; [reflexivity|].
  apply (reconnect_gives_up this attempts).
  - simpl. lia.
  - simpl. lia.
  - reflexivity.
  - repeat constructor; discriminate.
Defined.

Lemma reconnect_loses_subscriptions_witness :
  let this := foldl applyWsOp (WebSocketClient_new None None)
                [OpConnect TransportConnected; OpSubscribe "orders:a" true;
                 OpSubscribe "orders:b" true; OpOnFailed] in
  subscribedChannels this = ["orders:a"; "orders:b"]
  /\ subscribedChannels
       (reconnect this (fun _ => Ok tt) TransportConnected).1 = [].
Proof.
  intros this. split; [reflexivity|].
  refine (proj1 (proj1 (proj2 (proj2 (reconnect_loses_subscriptions this
                                        (fun _ => Ok tt) TransportConnected _)))
                   _)).
  - exists None, None. eexists. reflexivity.
  - intros c _. reflexivity.
Defined.

Lemma connect_after_failed_connect_witness :
  connect (connect (WebSocketClient_new None None) TransportTimeout).1.2
    TransportConnected
  = (Ok tt, (connect (WebSocketClient_new None None) TransportTimeout).1.2, []).
Proof.
  assert (Hout : TransportTimeout <> TransportConnected) by discriminate.
  exact (proj2 (proj2 (proj2 (connect_after_failed_connect
                                (WebSocketClient_new None None) TransportTimeout
                                eq_refl Hout))) TransportConnected).
Defined.

(** ** The bot, continued *)

(** X24.  When every handler runs to its end before the next event is
    delivered, at most one derived order is created for a source hash,
    however often and in whatever order events are delivered; no copy is
    left in flight, and a source hash with a derived order is reported as
    copied. *)
Theorem sequential_handling_copies_once (copyEngine : OrderCopyEngine)
    (deliveries : list (MonitorEvent * CopyEnv)) (h : string) :
  let st := run copyEngine BotState_init (oneAtATime deliveries) in
  (copiesOf h st <= 1)%nat
  /\ inFlight st = []
  /\ ((copiesOf h st = 1)%nat -> isOrderCopied (riskManager st) h = true).
Proof.
  intros st.
  assert (Hinit : OneAtATimeInv BotState_init).
  { split; [reflexivity|]. intros h'. unfold copiesOf. simpl.
    split; [lia|discriminate]. }
  destruct (oneAtATime_run copyEngine deliveries BotState_init Hinit)
    as [Hfl Hinv].
  destruct (Hinv h) as [H1 H2].
  split; [exact H1|]. split; [exact Hfl|].
  intros E. unfold isOrderCopied. apply bool_decide_eq_true. now apply H2.
Qed.

Section CancelMore.

Variable copyEngine : OrderCopyEngine.
Variable env : CancelEnv.

(** X25.  Cascading cancel.  After a source order has been copied for the
    first time and the bot's own feed has reported the copy, a cancellation
    (or fill) of the source order makes the bot send one cancel request,
    for the hash of the copy alone, signed over that hash with the salt and
    the timestamp of the request; the request is not sent when automatic
    cancelling is switched off or the signing fails. *)
Theorem cancel_request_targets_copy (rm : RiskManager) (copied : Order)
    (h : string) :
  Map_get h (ordersByOriginal rm) = None ->
  orderHash copied <> "" ->
  let rm' := handleOwnOrderDetected (recordOrderMapping rm copied h) copied in
  let signed := signCancellation env [orderHash copied]
                  (cancel_generateSalt env) (cancel_getCurrentTimestamp env) in
  findCopiedOrder rm' h = Some copied
  /\ handleOrderCancelled_payload rm' copyEngine env h
     = (if autoCancelOnSource (config copyEngine)
        then match signed with
             | Ok signature =>
                 Some {| cp_orderHashes := [orderHash copied];
                         cp_signature := signature;
                         cp_salt := cancel_generateSalt env;
                         cp_maker := cancel_getAddress env;
                         cp_timestamp := cancel_getCurrentTimestamp env |}
             | Throw _ => None
             end
        else None)
  /\ forall w, handleOrderFilled rm' copyEngine h w
               = handleOrderCancelled rm' copyEngine h w.
Proof.
  intros Hfresh Hne rm' signed.
  assert (Hfind : findCopiedOrder rm' h = Some copied).
  { subst rm'. unfold findCopiedOrder, handleOwnOrderDetected, recordOrder,
      recordOrderMapping.
    rewrite Hfresh. cbn [ordersByOriginal trackedOrders].
    rewrite Map_get_set_same. unfold truthy.
    destruct (String.eqb_spec (orderHash copied) ""); [contradiction|].
    cbn [negb]. apply lookup_insert_eq. }
  split; [exact Hfind|]. split; [|reflexivity].
  unfold handleOrderCancelled_payload. rewrite Hfind.
  destruct (autoCancelOnSource (config copyEngine)); reflexivity.
Qed.

End CancelMore.

Lemma cancel_request_targets_copy_witness :
  let env := {| cancel_generateSalt := "7";
                cancel_getCurrentTimestamp := 1700000000;
                cancel_getAddress := "0xbot";
                signCancellation := fun _ _ _ => Ok "0xsig" |} in
  let copied := sampleOrder "0xcopy" 10000000 in
  let rm' := handleOwnOrderDetected
               (recordOrderMapping RiskManager_new copied "0xsrc") copied in
  cp_orderHashes <$> handleOrderCancelled_payload rm' sampleEngine env "0xsrc"
  = Some ["0xcopy"].
Proof.
  intros env copied rm'.
  assert (Hne : orderHash copied <> "") by discriminate.
  destruct (cancel_request_targets_copy sampleEngine env RiskManager_new copied
              "0xsrc" eq_refl Hne) as (_ & H & _).
  exact (f_equal (fmap cp_orderHashes) H).
Defined.

(** ** The exchange client *)

Section ApiMore.

Context {T : Type}.
Variable policy : RetryPolicyConfig.
Variable fetch : nat -> FetchOutcome T.

(** The calls of a request whose first [k] attempts from [start] on fail. *)
Lemma requestFrom_spec (remaining start : nat) :
  exists k,
    (k <= remaining)%nat
    /\ requestFrom policy fetch remaining start
       = (attemptResult (fetch (start + k)%nat),
          app (flat_map
                 (fun i => [Fetch i;
                            Backoff (backoffMs policy
                                     * Qpower (backoffMultiplier policy)
                                         (Z.of_nat i))%Q])
                 (seq start k))
            [Fetch (start + k)%nat])
    /\ (forall i, (start <= i < start + k)%nat ->
          isThrow (attemptResult (fetch i)) = true)
    /\ (isThrow (attemptResult (fetch (start + k)%nat)) = true -> k = remaining).
Proof.
  revert start. induction remaining as [|remaining IH]; intros start.
  - exists 0%nat. rewrite Nat.add_0_r. cbn [requestFrom seq flat_map app].
    split; [lia|]. split.
    + destruct (attemptResult (fetch start)); reflexivity.
    + split; [intros i Hi; lia|auto].
  - cbn [requestFrom]. destruct (attemptResult (fetch start)) as [data|message] eqn:E.
    + exists 0%nat. rewrite Nat.add_0_r, E. cbn [seq flat_map app].
      split; [lia|]. split; [reflexivity|].
      split; [intros i Hi; lia|discriminate].
    + destruct (IH (S start)) as (k & Hk & Hreq & Hfail & Hlast).
      exists (S k). rewrite Hreq.
      replace (start + S k)%nat with (S start + k)%nat by lia.
      split; [lia|]. split; [reflexivity|]. split.
      * intros i Hi. destruct (decide (i = start)) as [->|Hne].
        -- now rewrite E.
        -- apply Hfail. lia.
      * intros Hl. f_equal. auto.
Qed.

(** X26.  [request] makes at most [maxRetries + 1] attempts: it returns the
    answer of the first attempt that succeeds, and it fails, with the error
    of the last attempt, only after all [maxRetries + 1] attempts have
    failed.  An HTTP error status is retried like a transport error.  Before
    the retry after attempt [i] it waits
    [backoffMs * backoffMultiplier ^ i]. *)
Theorem request_retries :
  exists k,
    (k <= rp_maxRetries policy)%nat
    /\ request policy fetch
       = (attemptResult (fetch k),
          app (flat_map
                 (fun i => [Fetch i;
                            Backoff (backoffMs policy
                                     * Qpower (backoffMultiplier policy)
                                         (Z.of_nat i))%Q])
                 (seq 0 k))
            [Fetch k])
    /\ (forall i, (i < k)%nat -> isThrow (attemptResult (fetch i)) = true)
    /\ (isThrow (attemptResult (fetch k)) = true -> k = rp_maxRetries policy)
    /\ (forall status statusText,
          isThrow (attemptResult (HttpError (T:=T) status statusText)) = true).
Proof.
  destruct (requestFrom_spec (rp_maxRetries policy) 0)
    as (k & Hk & Hreq & Hfail & Hlast).
  exists k. cbn [Nat.add] in *.
  split; [exact Hk|]. split; [exact Hreq|].
  split; [intros i Hi; apply Hfail; lia|]. split; [exact Hlast|reflexivity].
Qed.

End ApiMore.

Section GetMarketsMore.

Context {M : Type}.

(** X27.  [getMarkets] sends no request for an empty list of hashes (the
    answer is the empty list) and none for more than 30 hashes (it fails);
    otherwise it sends the one request and gives back its data only if the
    body reports the status "success". *)
Theorem getMarkets_bounds (marketHashes : list string)
    (get : list string -> Result (string * list M) * list ApiCall) :
  let '(result, calls) := getMarkets marketHashes get in
  (marketHashes = [] -> result = Ok [] /\ calls = [])
  /\ ((30 < length marketHashes)%nat -> isThrow result = true /\ calls = [])
  /\ (marketHashes <> [] -> (length marketHashes <= 30)%nat ->
      calls = (get marketHashes).2
      /\ forall data, result = Ok data ->
           (get marketHashes).1 = Ok ("success", data)).
Proof.
  unfold getMarkets. destruct marketHashes as [|h hs].
  { simpl. split; [auto|]. split; [intros H; simpl in H; lia|].
    intros H. contradiction. }
  cbn [length Nat.eqb].
  destruct (30 <? S (length hs))%nat eqn:E.
  { split; [discriminate|]. split; [auto|].
    apply Nat.ltb_lt in E. intros _ H. lia. }
  apply Nat.ltb_ge in E.
  destruct (get (h :: hs)) as [[[status data]|message] calls].
  - destruct (String.eqb_spec status "success") as [->|Hne]; cbn [negb].
    + split; [discriminate|]. split; [intros H; lia|].
      intros _ _. split; [reflexivity|]. intros d [= <-]. reflexivity.
    + split; [discriminate|]. split; [intros H; lia|].
      intros _ _. split; [reflexivity|]. intros d [=].
  - split; [discriminate|]. split; [intros H; lia|].
    intros _ _. split; [reflexivity|]. intros d [=].
Qed.

End GetMarketsMore.

(** ** Logging *)

Section SanitizeMore.

Lemma startsWith_chars (p s : string) (c : Ascii.ascii) :
  startsWith s p = true ->
  In c (String.list_ascii_of_string p) -> In c (String.list_ascii_of_string s).
Proof.
  revert s. induction p as [|a p IH]; intros s; [intros _ []|].
  destruct s as [|b s]; [discriminate|]. cbn [startsWith String.list_ascii_of_string].
  intros [Hb Hs]%andb_prop. apply Ascii.eqb_eq in Hb. subst b.
  intros [->|Hin]; [now left|right; eauto].
Qed.

Lemma includes_chars (s k : string) (c : Ascii.ascii) :
  includes s k = true ->
  In c (String.list_ascii_of_string k) -> In c (String.list_ascii_of_string s).
Proof.
  induction s as [|b s IH]; cbn [includes].
  - rewrite orb_false_r. apply startsWith_chars.
  - intros [H|H]%orb_prop; [now apply startsWith_chars|].
    intros Hin. right. auto.
Qed.

Lemma lowerAscii_not_K (c : Ascii.ascii) : lowerAscii c <> capitalK.
Proof.
  destruct c as [[] [] [] [] [] [] [] []]; vm_compute; discriminate.
Qed.

Lemma toLowerCase_no_K (s : string) :
  ~ In capitalK (String.list_ascii_of_string (toLowerCase s)).
Proof.
  induction s as [|c s IH]; [intros []|].
  cbn [toLowerCase String.list_ascii_of_string]. intros [H|H]; [|auto].
  now apply (lowerAscii_not_K c).
Qed.

Lemma camelCase_never_matches (key k : string) :
  In capitalK (String.list_ascii_of_string k) ->
  includes (toLowerCase key) k = false.
Proof.
  intros Hk. destruct (includes (toLowerCase key) k) eqn:E; [|reflexivity].
  exfalso. apply (toLowerCase_no_K key). eapply includes_chars; eauto.
Qed.

(** X28.  [sanitizeForLogging] keeps every key and redacts the value of a
    key exactly if the key in lower case contains "signature", "password"
    or "secret".  The patterns "privateKey" and "apiKey" contain a capital
    letter and are compared with the key in lower case, so they match no
    key: the values under the keys "privateKey" and "apiKey" are not
    redacted. *)
Theorem sanitizeForLogging_redacts {V : Type} (redacted : V)
    (data : list (string * V)) :
  sanitizeForLogging redacted data
  = map (fun entry =>
           if includes (toLowerCase entry.1) "signature"
              || includes (toLowerCase entry.1) "password"
              || includes (toLowerCase entry.1) "secret"
           then (entry.1, redacted) else entry) data
  /\ (sanitizeForLogging redacted data).*1 = data.*1
  /\ (forall key, includes (toLowerCase key) "privateKey" = false
                  /\ includes (toLowerCase key) "apiKey" = false)
  /\ isSensitive "privateKey" = false
  /\ isSensitive "apiKey" = false.
Proof.
  assert (Hcamel : forall key, includes (toLowerCase key) "privateKey" = false
                               /\ includes (toLowerCase key) "apiKey" = false).
  { intros key. split; apply camelCase_never_matches; vm_compute;
      repeat (first [left; reflexivity | right]). }
  assert (Hsens : forall key,
            isSensitive key
            = includes (toLowerCase key) "signature"
              || includes (toLowerCase key) "password"
              || includes (toLowerCase key) "secret").
  { intros key. unfold isSensitive, sensitiveKeys. cbn [existsb].
    destruct (Hcamel key) as [-> ->]. cbn [orb].
    now rewrite orb_false_r, orb_assoc. }
  split.
  { unfold sanitizeForLogging. apply map_ext. intros entry.
    now rewrite Hsens. }
  split.
  { unfold sanitizeForLogging. induction data as [|[key v] data IH];
      [reflexivity|].
    cbn [map]. rewrite !fmap_cons, IH. f_equal.
    now destruct (isSensitive _). }
  split; [exact Hcamel|]. split; reflexivity.
Qed.

End SanitizeMore.
